(** * Copilot Session Sync: a shallow embedding of the sync core

  The development follows the TypeScript sources: [ConflictResolver]
  (conflictResolver.ts), the hash cache and the pull/push orchestration of
  [SyncEngine] (syncEngine.ts), the recency filter of [SessionReader]
  (sessionReader.ts) and [Encryption] (encryption.ts).

  Conventions.
  - A JS [number] holding an epoch-millisecond timestamp or a byte count is
    a [Z]; the code only compares and subtracts them.
  - Identifiers, titles and repository paths are [string]s.  The plaintext
    handed to the cipher is a JS string proper, a list of UTF-16 code units
    (see [JsString]), because the cipher sees its UTF-8 encoding.
  - [null]/[undefined] are [None]; a JS truthiness test on a string is
    [truthy]: the empty string is falsy.
  - A JS [Map] is an association list in insertion order ([JsMap]).
  - Collaborators outside the repository (the file system, the GitHub API,
    Node's crypto and Buffer) are records of functions ([Host], [Network],
    [Node]); their failures are explicit results.
  - A call that can throw gives a [Result] or, where it has written
    before, an [Outcome] with the state it leaves; what is thrown is a
    [JsError], and [String (err)] is [errorToString].
  - The session files are followed inside the directories of the
    workspaces: a path that [path.join] takes elsewhere is
    [SessionFiles.Beyond]. *)

From Stdlib Require Import ZArith NArith Lia List Bool.
From stdpp Require Import base option list strings pretty gmap.

Open Scope string_scope.
Open Scope Z_scope.

(** ** JavaScript values *)

(** Truthiness of a string: only the empty string is falsy. *)
Definition truthy (s : string) : bool :=
  match s with
  | EmptyString => false
  | String _ _ => true
  end.

(** Truthiness of an optional string: [undefined], [null] and [''] are
    falsy. *)
Definition truthy_opt (o : option string) : bool :=
  match o with
  | Some s => truthy s
  | None => false
  end.

(** A JS [Map<string, V>]: keys are unique and kept in insertion order. *)
Module JsMap.
Section JsMap.
Context {V : Type}.

Definition t := list (string * V).

Fixpoint get (m : t) (k : string) : option V :=
  match m with
  | [] => None
  | (k', v) :: m' => if String.eqb k' k then Some v else get m' k
  end.

Definition has (m : t) (k : string) : bool :=
  match get m k with Some _ => true | None => false end.

(** [set] overwrites in place when the key exists and appends otherwise. *)
Fixpoint set (m : t) (k : string) (v : V) : t :=
  match m with
  | [] => [(k, v)]
  | (k', v') :: m' =>
      if String.eqb k' k then (k, v) :: m' else (k', v') :: set m' k v
  end.

Definition keys (m : t) : list string := map fst m.

End JsMap.
Arguments t : clear implicits.
End JsMap.

(** ** Data model (types.ts) *)

Record CopilotSession := {
  cs_id : string;
  cs_workspaceId : string;
  cs_workspacePath : string;
  cs_fileExtension : string;
  cs_rawContent : string;
  cs_customTitle : string;
  cs_creationDate : Z;
  cs_lastMessageDate : Z
}.

Record SyncManifestEntry := {
  me_sessionId : string;
  me_workspaceId : string;
  me_workspacePath : string;
  me_fileExtension : string;
  me_customTitle : string;
  me_lastMessageDate : Z;
  me_creationDate : Z;
  me_sha : string;
  me_deviceId : string;
  me_updatedAt : Z
}.

Record SyncManifest := {
  sm_version : Z;
  sm_deviceId : string;
  sm_lastSyncTimestamp : Z;
  sm_entries : JsMap.t SyncManifestEntry
}.

(** sessionReader.ts: metadata of a session file, without its content. *)
Record SessionMetadata := {
  md_id : string;
  md_workspaceId : string;
  md_workspacePath : string;
  md_fileExtension : string;
  md_mtimeMs : Z;
  md_sizeBytes : Z;
  md_filePath : string;
  md_customTitle : string;
  md_creationDate : Z;
  md_lastMessageDate : Z
}.

(** ** Exceptions *)

(** What is thrown in the code: the plain [Error]s it makes itself
    ([new Error(message)]), and the [RangeError]s and [TypeError]s of the
    built-ins it calls. *)
Inductive JsError :=
| Error (message : string)
| RangeError (message : string)
| TypeError (message : string).

Definition errorName (e : JsError) : string :=
  match e with
  | Error _ => "Error"
  | RangeError _ => "RangeError"
  | TypeError _ => "TypeError"
  end.

Definition message (e : JsError) : string :=
  match e with
  | Error m => m
  | RangeError m => m
  | TypeError m => m
  end.

(** [String(err)], that is [Error.prototype.toString]: the name alone when
    the message is empty. *)
Definition errorToString (e : JsError) : string :=
  if truthy (message e) then errorName e ++ ": " ++ message e
  else errorName e.

Inductive Result (A : Type) :=
| Ok (a : A)
| Throw (e : JsError).
Arguments Ok {A} a.
Arguments Throw {A} e.

(** A call that changes the state it runs on either returns or throws, and
    what it did before throwing stays done. *)
Inductive Outcome (W : Type) :=
| Returned (w : W)
| Thrown (e : JsError) (w : W).
Arguments Returned {W} w.
Arguments Thrown {W} e w.

(** ** ConflictResolver (conflictResolver.ts) *)

Module ConflictResolver.

Inductive Action := push | pull | skip | new_local | new_remote.

(** The [reason] strings are templates over the session title and, for the
    two timestamp branches, the two dates; they are kept structured. *)
Inductive Reason :=
| NewLocalWillPush (title : string)
| NewRemoteWillPull (title : string)
| UpToDate (title : string)
| LocalIsNewer (title : string) (localTime remoteTime : Z)
| RemoteIsNewer (title : string) (remoteTime localTime : Z)
| SameTimestampDifferentContent (title : string)
| IdenticalOnBothSides (title : string)
| NoSessionData.

Record ConflictAction := { action : Action; reason : Reason }.

#[global] Instance Action_eq_dec : EqDecision Action.
Proof. solve_decision. Defined.

(** The range of a [Date]: 8.64e15 ms on either side of the epoch. *)
Definition maxTime : Z := 8640000000000000.

Definition validTime (t : Z) : bool := (- maxTime <=? t) && (t <=? maxTime).

Definition invalidTime : JsError := RangeError "Invalid time value".

(** [new Date(t).toISOString()]: a time value out of range makes an invalid
    date, on which [toISOString] throws.  The text of a valid date is kept
    as its time value. *)
Definition toISOString (t : Z) : Result Z :=
  if validTime t then Ok t else Throw invalidTime.

(** The two dates of a reason, formatted in the order of the template. *)
Definition formatDates (first second : Z) : Result (Z * Z) :=
  match toISOString first with
  | Ok firstText =>
      match toISOString second with
      | Ok secondText => Ok (firstText, secondText)
      | Throw e => Throw e
      end
  | Throw e => Throw e
  end.

Definition resolve (local : option CopilotSession)
    (remote : option SyncManifestEntry)
    (localContentHash : option string) : Result ConflictAction :=
  match local, remote with
  | Some l, None =>
      Ok {| action := new_local;
            reason := NewLocalWillPush (cs_customTitle l) |}
  | None, Some r =>
      Ok {| action := new_remote;
            reason := NewRemoteWillPull (me_customTitle r) |}
  | Some l, Some r =>
      if truthy_opt localContentHash
         && bool_decide (localContentHash = Some (me_sha r))
      then Ok {| action := skip; reason := UpToDate (cs_customTitle l) |}
      else
        let localTime := cs_lastMessageDate l in
        let remoteTime := me_lastMessageDate r in
        if localTime >? remoteTime then
          match formatDates localTime remoteTime with
          | Ok (localText, remoteText) =>
              Ok {| action := push;
                    reason :=
                      LocalIsNewer (cs_customTitle l) localText remoteText |}
          | Throw e => Throw e
          end
        else if remoteTime >? localTime then
          match formatDates remoteTime localTime with
          | Ok (remoteText, localText) =>
              Ok {| action := pull;
                    reason :=
                      RemoteIsNewer (cs_customTitle l) remoteText localText |}
          | Throw e => Throw e
          end
        else if truthy_opt localContentHash
                && negb (bool_decide (localContentHash = Some (me_sha r)))
        then Ok {| action := push;
                   reason :=
                     SameTimestampDifferentContent (cs_customTitle l) |}
        else Ok {| action := skip;
                   reason := IdenticalOnBothSides (cs_customTitle l) |}
  | None, None => Ok {| action := skip; reason := NoSessionData |}
  end.

(** [new Set([...a, ...b])]: first occurrences, in order. *)
Fixpoint unique_ids (seen ids : list string) : list string :=
  match ids with
  | [] => []
  | i :: rest =>
      if bool_decide (i ∈ seen) then unique_ids seen rest
      else i :: unique_ids (i :: seen) rest
  end.

(** One turn of the loop of [resolveAll]: an exception of [resolve] leaves
    the loop, and the function. *)
Definition resolveStep (localSessions : JsMap.t CopilotSession)
    (remoteEntries : JsMap.t SyncManifestEntry)
    (localHashes : JsMap.t string) (results : Result (JsMap.t ConflictAction))
    (id : string) : Result (JsMap.t ConflictAction) :=
  match results with
  | Ok results' =>
      match
        resolve (JsMap.get localSessions id) (JsMap.get remoteEntries id)
          (JsMap.get localHashes id)
      with
      | Ok a => Ok (JsMap.set results' id a)
      | Throw e => Throw e
      end
  | Throw e => Throw e
  end.

Definition resolveAll (localSessions : JsMap.t CopilotSession)
    (remoteEntries : JsMap.t SyncManifestEntry)
    (localHashes : JsMap.t string) : Result (JsMap.t ConflictAction) :=
  let allIds :=
    unique_ids [] (JsMap.keys localSessions ++ JsMap.keys remoteEntries) in
  fold_left (resolveStep localSessions remoteEntries localHashes) allIds
    (Ok []).

(** [backupPath]; [timestamp] is the value [Date.now()] returned, rendered
    in decimal by the template string. *)
Definition backupPath (timestamp : Z) (sessionId : string) : string :=
  "sessions/backups/" ++ sessionId ++ ".backup-" ++ pretty timestamp ++ ".enc".

End ConflictResolver.

(** ** SessionReader (sessionReader.ts, the metadata-scanning revision) *)

Module SessionReader.

(** What [extractMinimalMetadata] returns. *)
Record MinimalMetadata := {
  mm_customTitle : string;
  mm_creationDate : Z;
  mm_lastMessageDate : Z
}.

(** The header object of a session file as [JSON.parse] yields it: each
    property may be missing or [null]. *)
Record RawHeader := {
  raw_customTitle : option string;
  raw_creationDate : option Z;
  raw_lastMessageDate : option Z
}.

(** The first record of a [.jsonl] log: [{ kind, value }]. *)
Record LogEntry := {
  entry_kind : Z;
  entry_value : option RawHeader
}.

(** What the extractor sees of the file on disk.  [None] stands for every
    way of not getting a parsed object: the read or [JSON.parse] throws, or
    the first line of the log is blank. *)
Inductive SessionFile :=
| JsonlFile (firstLine : option LogEntry)
| JsonFile (raw : option RawHeader).

Definition defaults : MinimalMetadata :=
  {| mm_customTitle := "Untitled Session";
     mm_creationDate := 0;
     mm_lastMessageDate := 0 |}.

(** [a ?? b] *)
Definition nullish {A : Type} (a : option A) (b : A) : A :=
  match a with Some x => x | None => b end.

Definition extractMinimalMetadata (file : SessionFile) : MinimalMetadata :=
  match file with
  | JsonlFile (Some entry) =>
      match entry_value entry with
      | Some value =>
          if Z.eqb (entry_kind entry) 0 then
            {| mm_customTitle :=
                 nullish (raw_customTitle value) (mm_customTitle defaults);
               mm_creationDate :=
                 nullish (raw_creationDate value) (mm_creationDate defaults);
               mm_lastMessageDate :=
                 nullish (raw_lastMessageDate value)
                   (mm_lastMessageDate defaults) |}
          else defaults
      | None => defaults
      end
  | JsonlFile None => defaults
  | JsonFile (Some raw) =>
      {| mm_customTitle :=
           nullish (raw_customTitle raw) (mm_customTitle defaults);
         mm_creationDate :=
           nullish (raw_creationDate raw) (mm_creationDate defaults);
         mm_lastMessageDate :=
           nullish (raw_lastMessageDate raw) (mm_lastMessageDate defaults) |}
  | JsonFile None => defaults
  end.

(** The file system's view of one session: [fs.stat] and the file itself. *)
Record StoredSession := {
  ss_sessionId : string;
  ss_workspaceId : string;
  ss_workspacePath : string;
  ss_ext : string;
  ss_filePath : string;
  ss_mtimeMs : Z;
  ss_size : Z;
  ss_file : SessionFile
}.

(** [readSessionMetadata] once the file has been resolved and [stat] has
    succeeded. *)
Definition readSessionMetadata (s : StoredSession) : SessionMetadata :=
  let meta := extractMinimalMetadata (ss_file s) in
  {| md_id := ss_sessionId s;
     md_workspaceId := ss_workspaceId s;
     md_workspacePath := ss_workspacePath s;
     md_fileExtension := ss_ext s;
     md_mtimeMs := ss_mtimeMs s;
     md_sizeBytes := ss_size s;
     md_filePath := ss_filePath s;
     md_customTitle := mm_customTitle meta;
     md_creationDate := mm_creationDate meta;
     md_lastMessageDate := mm_lastMessageDate meta |}.

(** [readRecentSessionMetadata]: [now] is the reading of [Date.now()] and
    [all] the result of [readAllSessionMetadata]. *)
Definition readRecentSessionMetadata (now maxAgeDays : Z)
    (all : list SessionMetadata) : list SessionMetadata :=
  let cutoff := now - maxAgeDays * 24 * 60 * 60 * 1000 in
  List.filter (fun m => md_lastMessageDate m >=? cutoff) all.

End SessionReader.

(** The earlier revision of sessionReader.ts, which reads whole sessions
    ([readRecentSessions], second revision in src/src/sessionReader.ts). *)
Module SessionReaderBlob.

Definition readRecentSessions (now maxAgeDays : Z)
    (all : list CopilotSession) : list CopilotSession :=
  let cutoff := now - maxAgeDays * 24 * 60 * 60 * 1000 in
  List.filter
    (fun s =>
       if Z.eqb (cs_lastMessageDate s) 0 && Z.eqb (cs_creationDate s) 0
       then true
       else
         (* [s.lastMessageDate || s.creationDate]: 0 is falsy *)
         (if Z.eqb (cs_lastMessageDate s) 0 then cs_creationDate s
          else cs_lastMessageDate s) >=? cutoff)
    all.

End SessionReaderBlob.

(** ** GitHubRepo (githubRepo.ts) *)

Module GitHubRepo.

Record RepoFile := { path : string; content : string }.

(** What the network and the GitHub API do to the requests of one cycle.
    [get_fails p]: the contents request for [p] is answered with an error
    other than 404, so [request] throws. *)
Record Network := {
  auth_fails : bool;
  get_fails : string -> bool;
  put_fails : string -> bool;
  batch_fails : bool
}.

Definition api_error (method endpoint : string) : JsError :=
  Error ("GitHub API error: (" ++ method ++ " " ++ endpoint ++ ")").

(** The files of the default branch, each with its content as
    [getFileContent] decodes it; a missing path answers 404. *)
Definition getFileContent (net : Network) (store : gmap string string)
    (filePath : string) : Result (option string) :=
  if get_fails net filePath then Throw (api_error "GET" filePath)
  else Ok (store !! filePath).

(** [putFile] looks the file up for its blob sha, then PUTs the content. *)
Definition putFile (net : Network) (store : gmap string string)
    (filePath fileContent : string) : Result (gmap string string) :=
  if get_fails net filePath then Throw (api_error "GET" filePath)
  else if put_fails net filePath then Throw (api_error "PUT" filePath)
  else Ok (<[filePath := fileContent]> store).

(** The tree a batch commit creates: the base tree overlaid with every file,
    then without the deleted paths. *)
Definition overlay (store : gmap string string) (files : list RepoFile)
    (deletePaths : list string) : gmap string string :=
  fold_left (fun s p => delete p s) deletePaths
    (fold_left (fun s f => <[path f := content f]> s) files store).

(** [batchCommit]: any of its six requests may fail, and the branch moves
    only with the last one. *)
Definition batchCommit (net : Network) (store : gmap string string)
    (files : list RepoFile) (deletePaths : list string)
    : Result (gmap string string) :=
  match files, deletePaths with
  | [], [] => Ok store
  | _, _ =>
      if batch_fails net then Throw (api_error "POST" "git/trees")
      else Ok (overlay store files deletePaths)
  end.

End GitHubRepo.

(** ** SyncEngine (syncEngine.ts) *)

Module SyncEngine.
Import GitHubRepo.

(** Cached hash entry stored in globalState. *)
Record CachedHashEntry := {
  hash : string;
  mtimeMs : Z;
  sizeBytes : Z
}.

Inductive SyncStatus := idle | syncing | error | disabled | setup_required.

Record SyncStatusInfo := {
  status : SyncStatus;
  lastSyncTime : option Z;
  sessionCount : nat;
  errorMessage : option string
}.

(** The settings of [copilotSessionSync] the engine reads. *)
Record Config := {
  enabled : bool;
  maxSessionAgeDays : Z;
  maxSessionSizeMB : Z
}.

(** The object a push serialises and encrypts for one session. *)
Record SessionPayload := {
  sp_rawContent : string;
  sp_fileExtension : string;
  sp_workspacePath : string;
  sp_customTitle : string;
  sp_creationDate : Z;
  sp_lastMessageDate : Z
}.

(** The same object as a pull parses it back: any property may be missing. *)
Record ParsedPayload := {
  pp_rawContent : option string;
  pp_fileExtension : option string;
  pp_workspacePath : option string;
  pp_customTitle : option string;
  pp_creationDate : option Z;
  pp_lastMessageDate : option Z
}.

(** What [JSON.parse] makes of the decrypted manifest text, as far as the
    engine looks at it: a falsy value ([null], [false], [0], ['']), which
    the engine takes for no manifest; a truthy value whose [entries] is
    [undefined] or [null], on which [Object.entries] throws; or a manifest.
    [Falsy] is also the [null] that [getRemoteManifest] returns itself. *)
Inductive ManifestJson :=
| Falsy
| WithoutEntries
| Manifest (manifest : SyncManifest).

(** [Object.entries(undefined)] *)
Definition noEntries : JsError :=
  TypeError "Cannot convert undefined or null to object".

(** The collaborators of the engine, over a local disk of type [Disk]:
    [SessionReader] on that disk, [Encryption] under the passphrase given,
    [JSON], the clock and the installation's device id.  A [None] from
    [decryptFromString], a parser or [writeSession] is a thrown exception;
    the [nat] of [encryptToString] numbers the calls to the cached encryptor
    (each draws a fresh IV) and that of [dateNow] the readings of the
    clock. *)
Record Host (Disk : Type) := {
  readAllSessionMetadata : Disk -> list SessionMetadata;
  readSessionContent : Disk -> string -> string -> option string;
  writeSession : Disk -> CopilotSession -> option Disk;
  hashContent : string -> string;
  decryptFromString : string -> string -> option string;
  encryptToString : string -> nat -> string -> string;
  parseManifest : string -> option ManifestJson;
  parseSessionPayload : string -> option ParsedPayload;
  stringifyPayload : SessionPayload -> string;
  stringifyManifest : SyncManifest -> string;
  dateNow : nat -> Z;
  deviceId : string;
  currentWorkspaceStorageId : option string
}.
Arguments readAllSessionMetadata {Disk} _ _.
Arguments readSessionContent {Disk} _ _ _ _.
Arguments writeSession {Disk} _ _ _.
Arguments hashContent {Disk} _ _.
Arguments decryptFromString {Disk} _ _ _.
Arguments encryptToString {Disk} _ _ _ _.
Arguments parseManifest {Disk} _ _.
Arguments parseSessionPayload {Disk} _ _.
Arguments stringifyPayload {Disk} _ _.
Arguments stringifyManifest {Disk} _ _.
Arguments dateNow {Disk} _ _.
Arguments deviceId {Disk} _.
Arguments currentWorkspaceStorageId {Disk} _.

(** What a cycle does to the outside, in order. *)
Inductive Effect :=
| BatchCommitted (files : list RepoFile)
| FilePut (file : RepoFile)
| SessionWritten (session : CopilotSession).

(** The state a cycle runs on: the remote branch, the local disk, the
    persisted hash cache, the status shown, the number of clock readings so
    far and the effects so far. *)
Record World (Disk : Type) := {
  w_remote : gmap string string;
  w_disk : Disk;
  w_hashCache : gmap string CachedHashEntry;
  w_status : SyncStatusInfo;
  w_ticks : nat;
  w_trace : list Effect
}.
Arguments w_remote {Disk} _.
Arguments w_disk {Disk} _.
Arguments w_hashCache {Disk} _.
Arguments w_status {Disk} _.
Arguments w_ticks {Disk} _.
Arguments w_trace {Disk} _.

(** What [getContentHash] returns, with the cache as it leaves it and the
    content reads it made. *)
Record HashLookup := {
  hl_hash : string;
  hl_needsRead : bool;
  hl_cache : gmap string CachedHashEntry;
  hl_reads : list (string * string)
}.

(** One element of [toPush]. *)
Record PushItem := {
  pi_sessionId : string;
  pi_meta : SessionMetadata;
  pi_hash : string;
  pi_action : ConflictResolver.ConflictAction
}.

(** The variables of the staging loop of [pushToRemote]. *)
Record Staging := {
  st_filesToPush : list RepoFile;
  st_backupFiles : list RepoFile;
  st_manifest : SyncManifest;
  st_ticks : nat;
  st_encryptions : nat
}.

Section Engine.
Context {Disk : Type} (H : Host Disk) (cfg : Config) (net : Network).
Context (passphrase : option string).

Definition sessionPath (sessionId : string) : string :=
  "sessions/" ++ sessionId ++ ".enc".

Definition getContentHash (disk : Disk) (meta : SessionMetadata)
    (hashCache : gmap string CachedHashEntry) : HashLookup :=
  let fresh :=
    match readSessionContent H disk (md_workspaceId meta) (md_id meta) with
    | Some fileContent =>
        if truthy fileContent then
          let h := hashContent H fileContent in
          {| hl_hash := h; hl_needsRead := true;
             hl_cache :=
               <[md_id meta :=
                   {| hash := h; mtimeMs := md_mtimeMs meta;
                      sizeBytes := md_sizeBytes meta |}]> hashCache;
             hl_reads := [(md_workspaceId meta, md_id meta)] |}
        else
          {| hl_hash := ""; hl_needsRead := false; hl_cache := hashCache;
             hl_reads := [(md_workspaceId meta, md_id meta)] |}
    | None =>
        {| hl_hash := ""; hl_needsRead := false; hl_cache := hashCache;
           hl_reads := [(md_workspaceId meta, md_id meta)] |}
    end in
  match hashCache !! md_id meta with
  | Some cached =>
      if Z.eqb (mtimeMs cached) (md_mtimeMs meta)
         && Z.eqb (sizeBytes cached) (md_sizeBytes meta)
      then {| hl_hash := hash cached; hl_needsRead := false;
              hl_cache := hashCache; hl_reads := [] |}
      else fresh
  | None => fresh
  end.

Definition updateStatus (now : Z) (s : SyncStatus) (msg : option string)
    (info : SyncStatusInfo) : SyncStatusInfo :=
  let info1 :=
    match s with
    | idle =>
        {| status := s; lastSyncTime := Some now;
           sessionCount := sessionCount info; errorMessage := None |}
    | _ =>
        {| status := s; lastSyncTime := lastSyncTime info;
           sessionCount := sessionCount info;
           errorMessage := errorMessage info |}
    end in
  if truthy_opt msg then
    {| status := status info1; lastSyncTime := lastSyncTime info1;
       sessionCount := sessionCount info1; errorMessage := msg |}
  else info1.

Definition getRemoteManifest (w : World Disk) : Result ManifestJson :=
  match passphrase with
  | Some pass =>
      if truthy pass then
        match getFileContent net (w_remote w) "manifest.json" with
        | Throw e => Throw e
        | Ok (Some fileContent) =>
            if truthy fileContent then
              match decryptFromString H fileContent pass with
              | Some decrypted =>
                  match parseManifest H decrypted with
                  | Some parsed => Ok parsed
                  | None => Ok Falsy
                  end
              | None => Ok Falsy
              end
            else Ok Falsy
        | Ok None => Ok Falsy
        end
      else Ok Falsy
  | None => Ok Falsy
  end.

(** The lightweight [CopilotSession] both phases build for the resolver. *)
Definition sessionOfMetadata (meta : SessionMetadata) : CopilotSession :=
  {| cs_id := md_id meta;
     cs_workspaceId := md_workspaceId meta;
     cs_workspacePath := md_workspacePath meta;
     cs_fileExtension := md_fileExtension meta;
     cs_rawContent := "";
     cs_customTitle := md_customTitle meta;
     cs_creationDate := md_creationDate meta;
     cs_lastMessageDate := md_lastMessageDate meta |}.

(** The variables of the hashing loop of both phases: the cache,
    [localHashes] and [localMap]. *)
Definition HashState : Type :=
  gmap string CachedHashEntry * JsMap.t string * JsMap.t CopilotSession.

Definition hashStep (disk : Disk) (acc : HashState)
    (meta : SessionMetadata) : HashState :=
  let '(hashCache, localHashes, localMap) := acc in
  let r := getContentHash disk meta hashCache in
  if truthy (hl_hash r) then
    (hl_cache r, JsMap.set localHashes (md_id meta) (hl_hash r),
     JsMap.set localMap (md_id meta) (sessionOfMetadata meta))
  else (hl_cache r, localHashes, localMap).

Definition hashAll (disk : Disk) (hashCache : gmap string CachedHashEntry)
    (metadata : list SessionMetadata) : HashState :=
  fold_left (hashStep disk) metadata (hashCache, [], []).

(** *** State updates *)

Definition with_remote (w : World Disk) (r : gmap string string) : World Disk :=
  {| w_remote := r; w_disk := w_disk w; w_hashCache := w_hashCache w;
     w_status := w_status w; w_ticks := w_ticks w; w_trace := w_trace w |}.

Definition with_disk (w : World Disk) (d : Disk) : World Disk :=
  {| w_remote := w_remote w; w_disk := d; w_hashCache := w_hashCache w;
     w_status := w_status w; w_ticks := w_ticks w; w_trace := w_trace w |}.

Definition with_hashCache (w : World Disk)
    (c : gmap string CachedHashEntry) : World Disk :=
  {| w_remote := w_remote w; w_disk := w_disk w; w_hashCache := c;
     w_status := w_status w; w_ticks := w_ticks w; w_trace := w_trace w |}.

Definition with_status (w : World Disk) (s : SyncStatusInfo) : World Disk :=
  {| w_remote := w_remote w; w_disk := w_disk w; w_hashCache := w_hashCache w;
     w_status := s; w_ticks := w_ticks w; w_trace := w_trace w |}.

Definition with_ticks (w : World Disk) (n : nat) : World Disk :=
  {| w_remote := w_remote w; w_disk := w_disk w; w_hashCache := w_hashCache w;
     w_status := w_status w; w_ticks := n; w_trace := w_trace w |}.

Definition emit (w : World Disk) (e : Effect) : World Disk :=
  {| w_remote := w_remote w; w_disk := w_disk w; w_hashCache := w_hashCache w;
     w_status := w_status w; w_ticks := w_ticks w;
     w_trace := w_trace w ++ [e] |}.

(** [Date.now()]: the next reading of the clock. *)
Definition now (w : World Disk) : Z := dateNow H (w_ticks w).
Definition tick (w : World Disk) : World Disk := with_ticks w (S (w_ticks w)).

(** *** Pull *)

(** [payload.x ?? entry.x]: reading [entry.x] off a missing entry throws.
    The last defaults of the chain (['.jsonl'], ['Synced Session'], [0])
    stand in for a field the entry lacks, which [SyncManifestEntry]
    excludes. *)
Definition orEntry {A : Type} (fromPayload : option A)
    (entry : option SyncManifestEntry) (field : SyncManifestEntry -> A)
    : option A :=
  match fromPayload with
  | Some v => Some v
  | None => option_map field entry
  end.

(** [pullSession], as its caller sees it: whatever is thrown inside is caught
    and logged by the loop of [pullFromRemote], leaving the state as it
    was.  The registration with the editor's session index that follows the
    write is left out. *)
Definition pullSession (w : World Disk) (sessionId : string)
    (entry : option SyncManifestEntry) (currentWsId : string) : World Disk :=
  match getFileContent net (w_remote w) (sessionPath sessionId), passphrase with
  | Ok (Some encryptedContent), Some pass =>
      if truthy encryptedContent then
        match decryptFromString H encryptedContent pass with
        | Some decrypted =>
            match parseSessionPayload H decrypted with
            | Some payload =>
                if truthy_opt (pp_rawContent payload) then
                  match
                    pp_rawContent payload,
                    orEntry (pp_workspacePath payload) entry me_workspacePath,
                    orEntry (pp_fileExtension payload) entry me_fileExtension,
                    orEntry (pp_customTitle payload) entry me_customTitle,
                    orEntry (pp_creationDate payload) entry me_creationDate,
                    orEntry (pp_lastMessageDate payload) entry
                      me_lastMessageDate
                  with
                  | Some raw, Some wsPath, Some ext, Some title, Some created,
                    Some last =>
                      let session :=
                        {| cs_id := sessionId;
                           cs_workspaceId := currentWsId;
                           cs_workspacePath := wsPath;
                           cs_fileExtension := ext;
                           cs_rawContent := raw;
                           cs_customTitle := title;
                           cs_creationDate := created;
                           cs_lastMessageDate := last |} in
                      match writeSession H (w_disk w) session with
                      | Some disk' =>
                          emit (with_disk w disk') (SessionWritten session)
                      | None => w
                      end
                  | _, _, _, _, _, _ => w
                  end
                else w
            | None => w
            end
        | None => w
        end
      else w
  | _, _ => w
  end.

Definition wantsPull (a : ConflictResolver.ConflictAction) : bool :=
  match ConflictResolver.action a with
  | ConflictResolver.pull | ConflictResolver.new_remote => true
  | _ => false
  end.

Definition pullFromRemote (w : World Disk) : Outcome (World Disk) :=
  match currentWorkspaceStorageId H with
  | None => Returned w
  | Some currentWsId =>
      match getRemoteManifest w with
      | Throw e => Thrown e w
      | Ok Falsy => Returned w
      | Ok WithoutEntries =>
          (* [readRecentSessionMetadata] has read the clock *)
          Thrown noEntries (tick w)
      | Ok (Manifest manifest) =>
          let localMetadata :=
            SessionReader.readRecentSessionMetadata (now w)
              (maxSessionAgeDays cfg)
              (readAllSessionMetadata H (w_disk w)) in
          let w1 := tick w in
          let localMetaMap :=
            fold_left (fun m meta => JsMap.set m (md_id meta) meta)
              localMetadata [] in
          let remoteMap := sm_entries manifest in
          let '(hashCache, localHashes, localMap) :=
            hashAll (w_disk w1) (w_hashCache w1) (map snd localMetaMap) in
          let w2 := with_hashCache w1 hashCache in
          match ConflictResolver.resolveAll localMap remoteMap localHashes with
          | Throw e => Thrown e w2
          | Ok actions =>
              Returned
                (fold_left
                   (fun w' '(sessionId, a) =>
                      if wantsPull a then
                        pullSession w' sessionId
                          (JsMap.get (sm_entries manifest) sessionId)
                          currentWsId
                      else w')
                   actions w2)
          end
      end
  end.

(** *** Push *)

Definition wantsPush (a : ConflictResolver.ConflictAction) : bool :=
  match ConflictResolver.action a with
  | ConflictResolver.push | ConflictResolver.new_local => true
  | _ => false
  end.

(** Step 5: the sessions that need pushing, in the order of [actions]. *)
Definition collectToPush (metadata : list SessionMetadata)
    (localHashes : JsMap.t string)
    (actions : JsMap.t ConflictResolver.ConflictAction) : list PushItem :=
  flat_map
    (fun '(sessionId, a) =>
       if wantsPush a then
         match
           List.find (fun m => String.eqb (md_id m) sessionId) metadata,
           JsMap.get localHashes sessionId
         with
         | Some meta, Some h =>
             if truthy h then
               [{| pi_sessionId := sessionId; pi_meta := meta; pi_hash := h;
                   pi_action := a |}]
             else []
         | _, _ => []
         end
       else [])
    actions.

(** The backup the staging loop takes of the remote copy of [sessionId], if
    it takes one: only for a [push] of a session the manifest lists, and only
    when the stored object is fetched and not empty ("best effort"). *)
Definition backupOf (remote : gmap string string)
    (remoteMap : JsMap.t SyncManifestEntry) (timestamp : Z) (item : PushItem)
    : option RepoFile :=
  if bool_decide
       (ConflictResolver.action (pi_action item) = ConflictResolver.push)
     && JsMap.has remoteMap (pi_sessionId item)
  then
    match getFileContent net remote (sessionPath (pi_sessionId item)) with
    | Ok (Some existingContent) =>
        if truthy existingContent then
          Some {| path :=
                    ConflictResolver.backupPath timestamp (pi_sessionId item);
                  content := existingContent |}
        else None
    | Ok None => None
    | Throw _ => None
    end
  else None.

Definition withEntry (m : SyncManifest) (sessionId : string)
    (entry : SyncManifestEntry) : SyncManifest :=
  {| sm_version := sm_version m;
     sm_deviceId := sm_deviceId m;
     sm_lastSyncTimestamp := sm_lastSyncTimestamp m;
     sm_entries := JsMap.set (sm_entries m) sessionId entry |}.

(** Step 7, the body of the staging loop. *)
Definition stageSession (pass : string) (remote : gmap string string)
    (disk : Disk) (remoteMap : JsMap.t SyncManifestEntry)
    (st : Staging) (item : PushItem) : Staging :=
  let sessionId := pi_sessionId item in
  let meta := pi_meta item in
  match readSessionContent H disk (md_workspaceId meta) sessionId with
  | Some rawContent =>
      if truthy rawContent then
        let payload :=
          stringifyPayload H
            {| sp_rawContent := rawContent;
               sp_fileExtension := md_fileExtension meta;
               sp_workspacePath := md_workspacePath meta;
               sp_customTitle := md_customTitle meta;
               sp_creationDate := md_creationDate meta;
               sp_lastMessageDate := md_lastMessageDate meta |} in
        let encrypted := encryptToString H pass (st_encryptions st) payload in
        let backup :=
          backupOf remote remoteMap (dateNow H (st_ticks st)) item in
        let ticks1 :=
          match backup with
          | Some _ => S (st_ticks st)
          | None => st_ticks st
          end in
        {| st_filesToPush :=
             st_filesToPush st
             ++ [{| path := sessionPath sessionId; content := encrypted |}];
           st_backupFiles :=
             st_backupFiles st
             ++ match backup with Some b => [b] | None => [] end;
           st_manifest :=
             withEntry (st_manifest st) sessionId
               {| me_sessionId := sessionId;
                  me_workspaceId := md_workspaceId meta;
                  me_workspacePath := md_workspacePath meta;
                  me_fileExtension := md_fileExtension meta;
                  me_customTitle := md_customTitle meta;
                  me_lastMessageDate := md_lastMessageDate meta;
                  me_creationDate := md_creationDate meta;
                  me_sha := pi_hash item;
                  me_deviceId := deviceId H;
                  me_updatedAt := dateNow H ticks1 |};
           st_ticks := S ticks1;
           st_encryptions := S (st_encryptions st) |}
      else st
  | None => st
  end.

Definition stageAll (pass : string) (remote : gmap string string)
    (disk : Disk) (remoteMap : JsMap.t SyncManifestEntry)
    (toPush : list PushItem) (st : Staging) : Staging :=
  fold_left (stageSession pass remote disk remoteMap) toPush st.

(** The fallback of step 9: one [putFile] per staged file, in order; the
    first one that throws ends the loop. *)
Fixpoint putAll (files : list RepoFile) (w : World Disk)
    : Outcome (World Disk) :=
  match files with
  | [] => Returned w
  | file :: rest =>
      match putFile net (w_remote w) (path file) (content file) with
      | Ok remote' => putAll rest (emit (with_remote w remote') (FilePut file))
      | Throw e => Thrown e w
      end
  end.

(** Step 9: the batch commit, and the fallback when it throws. *)
Definition commitFiles (files : list RepoFile) (w : World Disk)
    : Outcome (World Disk) :=
  match batchCommit net (w_remote w) files [] with
  | Ok remote' => Returned (emit (with_remote w remote') (BatchCommitted files))
  | Throw _ => putAll files w
  end.

Definition withSessionCount (w : World Disk) (n : nat) : World Disk :=
  with_status w
    {| status := status (w_status w);
       lastSyncTime := lastSyncTime (w_status w);
       sessionCount := n;
       errorMessage := errorMessage (w_status w) |}.

(** Steps 8 and 9: the files handed to the commit, in order. *)
Definition filesToCommit (pass : string) (st : Staging) : list RepoFile :=
  let manifest :=
    {| sm_version := sm_version (st_manifest st);
       sm_deviceId := deviceId H;
       sm_lastSyncTimestamp := dateNow H (st_ticks st);
       sm_entries := sm_entries (st_manifest st) |} in
  let manifestEncrypted :=
    encryptToString H pass (st_encryptions st) (stringifyManifest H manifest) in
  st_filesToPush st
  ++ [{| path := "manifest.json"; content := manifestEncrypted |}]
  ++ st_backupFiles st.

(** Steps 3 to 9 of [pushToRemote], from the manifest it settled on.
    [createCachedEncryptor(this.passphrase!)] on a [null] passphrase throws
    in the key derivation; [sync] never gets there. *)
Definition pushWithManifest (manifest : SyncManifest)
    (metadata : list SessionMetadata) (w : World Disk)
    : Outcome (World Disk) :=
  let remoteMap := sm_entries manifest in
  let '(hashCache, localHashes, localMap) :=
    hashAll (w_disk w) (w_hashCache w) metadata in
  let w1 := with_hashCache w hashCache in
  match ConflictResolver.resolveAll localMap remoteMap localHashes with
  | Throw e => Thrown e w1
  | Ok actions =>
      match collectToPush metadata localHashes actions with
      | [] => Returned w1
      | toPush =>
          match passphrase with
          | Some pass =>
              let st :=
                stageAll pass (w_remote w1) (w_disk w1) remoteMap toPush
                  {| st_filesToPush := []; st_backupFiles := [];
                     st_manifest := manifest; st_ticks := w_ticks w1;
                     st_encryptions := 0 |} in
              match st_filesToPush st with
              | [] => Returned (with_ticks w1 (st_ticks st))
              | _ =>
                  match
                    commitFiles (filesToCommit pass st)
                      (with_ticks w1 (S (st_ticks st)))
                  with
                  | Returned w2 =>
                      Returned
                        (withSessionCount w2
                           (length (sm_entries (st_manifest st))))
                  | Thrown e w2 => Thrown e w2
                  end
              end
          | None => Thrown (Error "The passphrase must be a string.") w1
          end
      end
  end.

Definition freshManifest (timestamp : Z) : SyncManifest :=
  {| sm_version := 1;
     sm_deviceId := deviceId H;
     sm_lastSyncTimestamp := timestamp;
     sm_entries := [] |}.

Definition pushToRemote (w : World Disk) : Outcome (World Disk) :=
  let allMetadata :=
    SessionReader.readRecentSessionMetadata (now w) (maxSessionAgeDays cfg)
      (readAllSessionMetadata H (w_disk w)) in
  let w1 := tick w in
  let maxSizeBytes := maxSessionSizeMB cfg * 1024 * 1024 in
  let metadata :=
    List.filter (fun m => negb (md_sizeBytes m >? maxSizeBytes)) allMetadata in
  match metadata with
  | [] => Returned w1
  | _ =>
      match getRemoteManifest w1 with
      | Throw e => Thrown e w1
      | Ok (Manifest manifest) => pushWithManifest manifest metadata w1
      | Ok WithoutEntries => Thrown noEntries w1
      | Ok Falsy =>
          pushWithManifest (freshManifest (now w1)) metadata (tick w1)
      end
  end.

(** *** The cycle *)

(** The end of [sync]: [idle] when the cycle returned, [error] with
    [String(err)] of what it threw otherwise. *)
Definition finishCycle (cycle : Outcome (World Disk)) : World Disk :=
  match cycle with
  | Returned w3 =>
      (* one reading for [syncState], one for [updateStatus('idle')] *)
      let w4 := tick w3 in
      tick (with_status w4 (updateStatus (now w4) idle None (w_status w4)))
  | Thrown e w3 =>
      with_status w3
        (updateStatus (now w3) error (Some (errorToString e)) (w_status w3))
  end.

Definition sync (w : World Disk) : World Disk :=
  if negb (enabled cfg) then
    with_status w (updateStatus (now w) disabled None (w_status w))
  else if negb (truthy_opt passphrase) then
    with_status w (updateStatus (now w) setup_required None (w_status w))
  else
    match status (w_status w) with
    | syncing => w
    | _ =>
        let w1 :=
          with_status w (updateStatus (now w) syncing None (w_status w)) in
        finishCycle
          (if auth_fails net then
             Thrown
               (Error "GitHub authentication failed. Please sign in to GitHub.")
               w1
           else
             match pullFromRemote w1 with
             | Returned w2 => pushToRemote w2
             | Thrown e w2 => Thrown e w2
             end)
    end.

End Engine.
End SyncEngine.

(** ** JavaScript strings as the cipher sees them *)

(** A JS string is a sequence of UTF-16 code units; a surrogate that is not
    half of a high-low pair is a lone surrogate. *)
Module JsString.

Definition isCodeUnit (u : N) : Prop := (u < 65536)%N.
Definition isHigh (u : N) : bool := ((0xD800 <=? u) && (u <=? 0xDBFF))%N.
Definition isLow (u : N) : bool := ((0xDC00 <=? u) && (u <=? 0xDFFF))%N.

(** [String.prototype.toWellFormed]: every lone surrogate becomes U+FFFD. *)
Fixpoint toWellFormed (s : list N) : list N :=
  match s with
  | [] => []
  | u :: rest =>
      if isHigh u then
        match rest with
        | v :: rest' =>
            if isLow v then u :: v :: toWellFormed rest'
            else 0xFFFD%N :: toWellFormed rest
        | [] => [0xFFFD%N]
        end
      else if isLow u then 0xFFFD%N :: toWellFormed rest
      else u :: toWellFormed rest
  end.

(** [String.prototype.isWellFormed] *)
Definition isWellFormed (s : list N) : Prop := toWellFormed s = s.

(** A string literal of the model as a JS string (ASCII only). *)
Definition ofString (s : string) : list N :=
  map Ascii.N_of_ascii (String.list_ascii_of_string s).

End JsString.

(** ** Encryption (encryption.ts) *)

Module Encryption.

Abbreviation bytes := (list Byte.byte).

Record EncryptedPayload := {
  salt : string;
  iv : string;
  ciphertext : string;
  version : Z
}.

(** Node's [crypto] and [Buffer] as the class calls them.
    - [pbkdf2Sync passphrase salt iterations keylen digest];
    - [cipher algorithm key iv authTagLength plain]: [createCipheriv], then
      [update] and [final] concatenated, and [getAuthTag];
    - [createDecipheriv algorithm key iv authTagLength] and
      [setAuthTag authTagLength tag]: [Some e] when the call throws [e];
    - [decipher algorithm key iv tag data]: [update] and [final]
      concatenated, [None] when [final] throws because the tag does not
      verify;
    - [utf8Encode], [utf8Decode]: a string to and from a Buffer in 'utf-8';
    - [toBase64], [fromBase64]: a Buffer to and from a 'base64' string;
    - [sha256Hex]: [createHash('sha256').update(s).digest('hex')]. *)
Record Node := {
  pbkdf2Sync : string -> bytes -> Z -> Z -> string -> bytes;
  cipher : string -> bytes -> bytes -> Z -> bytes -> bytes * bytes;
  createDecipheriv : string -> bytes -> bytes -> Z -> option JsError;
  setAuthTag : Z -> bytes -> option JsError;
  decipher : string -> bytes -> bytes -> bytes -> bytes -> option bytes;
  utf8Encode : list N -> bytes;
  utf8Decode : bytes -> list N;
  toBase64 : bytes -> string;
  fromBase64 : string -> bytes;
  sha256Hex : list N -> string
}.

Definition ALGORITHM : string := "aes-256-gcm".
Definition KEY_LENGTH : Z := 32.
Definition IV_LENGTH : Z := 12.
Definition SALT_LENGTH : Z := 16.
Definition PBKDF2_ITERATIONS : Z := 100000.
Definition PBKDF2_DIGEST : string := "sha512".
Definition AUTH_TAG_LENGTH : Z := 16.
Definition CURRENT_VERSION : Z := 1.

(** [buf.subarray(start, end)]: a negative index counts from the end, and
    both are clamped to the buffer. *)
Definition subarray (b : bytes) (start end_ : Z) : bytes :=
  let len := Z.of_nat (length b) in
  let clamp i := if i <? 0 then Z.max (len + i) 0 else Z.min i len in
  firstn (Z.to_nat (clamp end_ - clamp start))
    (skipn (Z.to_nat (clamp start)) b).

Definition unsupportedVersion (v : Z) : JsError :=
  Error ("Unsupported encryption version: " ++ pretty v).

Definition decryptionFailed : JsError :=
  Error "Decryption failed — wrong passphrase or corrupted data.".

Section Encryption.
Context (node : Node).

Definition deriveKey (passphrase : string) (saltBytes : bytes) : bytes :=
  pbkdf2Sync node passphrase saltBytes PBKDF2_ITERATIONS KEY_LENGTH
    PBKDF2_DIGEST.

(** [encrypt]; [saltBytes] and [ivBytes] are what the two calls of
    [crypto.randomBytes] returned. *)
Definition encrypt (saltBytes ivBytes : bytes) (data : list N)
    (passphrase : string) : EncryptedPayload :=
  let key := deriveKey passphrase saltBytes in
  let '(encrypted, authTag) :=
    cipher node ALGORITHM key ivBytes AUTH_TAG_LENGTH (utf8Encode node data) in
  let ciphertextWithTag := (encrypted ++ authTag)%list in
  {| salt := toBase64 node saltBytes;
     iv := toBase64 node ivBytes;
     ciphertext := toBase64 node ciphertextWithTag;
     version := CURRENT_VERSION |}.

Definition decrypt (payload : EncryptedPayload) (passphrase : string)
    : Result (list N) :=
  if negb (Z.eqb (version payload) CURRENT_VERSION) then
    Throw (unsupportedVersion (version payload))
  else
    let saltBytes := fromBase64 node (salt payload) in
    let ivBytes := fromBase64 node (iv payload) in
    let ciphertextWithTag := fromBase64 node (ciphertext payload) in
    let len := Z.of_nat (length ciphertextWithTag) in
    let data := subarray ciphertextWithTag 0 (len - AUTH_TAG_LENGTH) in
    let authTag := subarray ciphertextWithTag (len - AUTH_TAG_LENGTH) len in
    let key := deriveKey passphrase saltBytes in
    match createDecipheriv node ALGORITHM key ivBytes AUTH_TAG_LENGTH with
    | Some e => Throw e
    | None =>
        match setAuthTag node AUTH_TAG_LENGTH authTag with
        | Some e => Throw e
        | None =>
            match decipher node ALGORITHM key ivBytes authTag data with
            | Some decrypted => Ok (utf8Decode node decrypted)
            | None => Throw decryptionFailed
            end
        end
    end.

Definition hashContent (fileContent : list N) : string :=
  sha256Hex node fileContent.

(** Modelled from the spec: [Encryption.createCachedEncryptor] and the
    [CachedEncryptor] class are missing from encryption.ts as given (the
    engine and the tests call them).  After section 4.1: the key is derived
    once, from one fresh salt, when the encryptor is created; each
    encryption reuses salt and key and draws a fresh IV, and is otherwise
    [encrypt]. *)
Record CachedEncryptor := {
  ce_salt : bytes;
  ce_key : bytes
}.

(** Modelled from the spec: [createCachedEncryptor], [saltBytes] being the
    one salt drawn. *)
Definition createCachedEncryptor (saltBytes : bytes) (passphrase : string)
    : CachedEncryptor :=
  {| ce_salt := saltBytes; ce_key := deriveKey passphrase saltBytes |}.

(** Modelled from the spec: [CachedEncryptor.encrypt], [ivBytes] being the IV
    drawn for this call. *)
Definition cachedEncrypt (encryptor : CachedEncryptor) (ivBytes : bytes)
    (data : list N) : EncryptedPayload :=
  let '(encrypted, authTag) :=
    cipher node ALGORITHM (ce_key encryptor) ivBytes AUTH_TAG_LENGTH
      (utf8Encode node data) in
  {| salt := toBase64 node (ce_salt encryptor);
     iv := toBase64 node ivBytes;
     ciphertext := toBase64 node (encrypted ++ authTag)%list;
     version := CURRENT_VERSION |}.

End Encryption.

(** What the class relies on from Node: the documented behaviour of
    [pbkdf2Sync], of AES-256-GCM with a 96-bit IV and a 128-bit tag, and of
    the two Buffer encodings. *)
Class NodeLaws (node : Node) : Prop := {
  pbkdf2_length passphrase saltBytes iterations keylen digest :
    0 <= keylen ->
    length (pbkdf2Sync node passphrase saltBytes iterations keylen digest)
    = Z.to_nat keylen;
  cipher_tag_length key ivBytes plain :
    length (cipher node ALGORITHM key ivBytes AUTH_TAG_LENGTH plain).2 = 16%nat;
  createDecipheriv_accepts key ivBytes :
    length key = 32%nat -> length ivBytes = 12%nat ->
    createDecipheriv node ALGORITHM key ivBytes AUTH_TAG_LENGTH = None;
  setAuthTag_accepts tag :
    length tag = 16%nat -> setAuthTag node AUTH_TAG_LENGTH tag = None;
  decipher_cipher key ivBytes plain :
    decipher node ALGORITHM key ivBytes
      (cipher node ALGORITHM key ivBytes AUTH_TAG_LENGTH plain).2
      (cipher node ALGORITHM key ivBytes AUTH_TAG_LENGTH plain).1
    = Some plain;
  utf8_round_trip s :
    Forall JsString.isCodeUnit s ->
    utf8Decode node (utf8Encode node s) = JsString.toWellFormed s;
  base64_round_trip b : fromBase64 node (toBase64 node b) = b
}.

(** What authenticated encryption adds, for AES-256-GCM with a 128-bit tag:
    [setAuthTag] takes a tag of 16 bytes only; whatever [decipher] accepts
    is what [cipher] makes of the plaintext it returns, ciphertext and tag;
    the ciphertext determines the plaintext; and, but for a [weak] key, two
    ciphertexts that differ in one byte do not have the same tag.  For AES
    the weak keys are those that encrypt the zero block to itself: the tag
    they give does not depend on the ciphertext. *)
Class GcmLaws (node : Node) (weak : bytes -> Prop) : Prop := {
  setAuthTag_length tag :
    setAuthTag node AUTH_TAG_LENGTH tag = None -> length tag = 16%nat;
  decipher_genuine key ivBytes tag data plain :
    length key = 32%nat -> length tag = 16%nat ->
    decipher node ALGORITHM key ivBytes tag data = Some plain ->
    cipher node ALGORITHM key ivBytes AUTH_TAG_LENGTH plain = (data, tag);
  cipher_injective key ivBytes plain plain' :
    (cipher node ALGORITHM key ivBytes AUTH_TAG_LENGTH plain).1
    = (cipher node ALGORITHM key ivBytes AUTH_TAG_LENGTH plain').1 ->
    plain = plain';
  cipher_tag_one_byte key ivBytes plain plain' (i : nat) x x' :
    length key = 32%nat -> ~ weak key ->
    (cipher node ALGORITHM key ivBytes AUTH_TAG_LENGTH plain).1 !! i
    = Some x ->
    x' <> x ->
    (cipher node ALGORITHM key ivBytes AUTH_TAG_LENGTH plain').1
    = <[i := x']>
        (cipher node ALGORITHM key ivBytes AUTH_TAG_LENGTH plain).1 ->
    (cipher node ALGORITHM key ivBytes AUTH_TAG_LENGTH plain').2
    <> (cipher node ALGORITHM key ivBytes AUTH_TAG_LENGTH plain).2
}.

End Encryption.

(** ** A reference platform

    An executable [Node] on which the laws of [NodeLaws] hold: the UTF-8 and
    base64 codecs are the real ones; key derivation and the authenticated
    cipher are small stand-ins with the same interface (the laws do not ask
    for secrecy).  It shows the laws can be met together and gives the
    claims concrete runs. *)

Module ReferenceNode.
Import Encryption.
Local Open Scope N_scope.

#[global] Instance byte_eq_dec : EqDecision Byte.byte := Byte.byte_eq_dec.

Definition byteOfN (n : N) : Byte.byte :=
  match Byte.of_N (n mod 256) with
  | Some b => b
  | None => Byte.x00
  end.

(** *** UTF-8 *)

Definition encodeCodePoint (c : N) : bytes :=
  if c <? 0x80 then [byteOfN c]
  else if c <? 0x800 then
    [byteOfN (0xC0 + c / 64); byteOfN (0x80 + c mod 64)]
  else if c <? 0x10000 then
    [byteOfN (0xE0 + c / 4096); byteOfN (0x80 + (c / 64) mod 64);
     byteOfN (0x80 + c mod 64)]
  else
    [byteOfN (0xF0 + c / 262144); byteOfN (0x80 + (c / 4096) mod 64);
     byteOfN (0x80 + (c / 64) mod 64); byteOfN (0x80 + c mod 64)].

(** A surrogate pair is one code point; a lone surrogate is encoded as
    U+FFFD. *)
Fixpoint utf8Encode (s : list N) : bytes :=
  match s with
  | [] => []
  | u :: rest =>
      if JsString.isHigh u then
        match rest with
        | v :: rest' =>
            if JsString.isLow v then
              encodeCodePoint (0x10000 + (u - 0xD800) * 1024 + (v - 0xDC00))
              ++ utf8Encode rest'
            else encodeCodePoint 0xFFFD ++ utf8Encode rest
        | [] => encodeCodePoint 0xFFFD
        end
      else if JsString.isLow u then encodeCodePoint 0xFFFD ++ utf8Encode rest
      else encodeCodePoint u ++ utf8Encode rest
  end.

Definition inRange (lo hi : N) (b : Byte.byte) : bool :=
  (lo <=? Byte.to_N b) && (Byte.to_N b <=? hi).

(** The bounds of the second byte of a sequence, by its first byte. *)
Definition secondLo (b0 : N) : N :=
  if b0 =? 0xE0 then 0xA0 else if b0 =? 0xF0 then 0x90 else 0x80.
Definition secondHi (b0 : N) : N :=
  if b0 =? 0xED then 0x9F else if b0 =? 0xF4 then 0x8F else 0xBF.

Definition tail6 (b : Byte.byte) : N := Byte.to_N b - 0x80.

(** The code units of a code point. *)
Definition codeUnits (c : N) : list N :=
  if c <? 0x10000 then [c]
  else [0xD800 + (c - 0x10000) / 1024; 0xDC00 + (c - 0x10000) mod 1024].

(** One step of the decoder at the first byte [b0] of what is left, [decode]
    decoding the rest.  An ill-formed run is replaced by one U+FFFD and the
    decoder goes on from the byte that broke it. *)
Definition decodeStep (decode : bytes -> list N) (b0 : Byte.byte)
    (r0 : bytes) : list N :=
  let n0 := Byte.to_N b0 in
  if n0 <? 0x80 then n0 :: decode r0
  else if (0xC2 <=? n0) && (n0 <=? 0xDF) then
    match r0 with
    | b1 :: r1 =>
        if inRange 0x80 0xBF b1 then
          ((n0 - 0xC0) * 64 + tail6 b1) :: decode r1
        else 0xFFFD :: decode r0
    | [] => [0xFFFD]
    end
  else if (0xE0 <=? n0) && (n0 <=? 0xEF) then
    match r0 with
    | b1 :: r1 =>
        if inRange (secondLo n0) (secondHi n0) b1 then
          match r1 with
          | b2 :: r2 =>
              if inRange 0x80 0xBF b2 then
                ((n0 - 0xE0) * 4096 + tail6 b1 * 64 + tail6 b2) :: decode r2
              else 0xFFFD :: decode r1
          | [] => [0xFFFD]
          end
        else 0xFFFD :: decode r0
    | [] => [0xFFFD]
    end
  else if (0xF0 <=? n0) && (n0 <=? 0xF4) then
    match r0 with
    | b1 :: r1 =>
        if inRange (secondLo n0) (secondHi n0) b1 then
          match r1 with
          | b2 :: r2 =>
              if inRange 0x80 0xBF b2 then
                match r2 with
                | b3 :: r3 =>
                    if inRange 0x80 0xBF b3 then
                      codeUnits
                        ((n0 - 0xF0) * 262144 + tail6 b1 * 4096
                         + tail6 b2 * 64 + tail6 b3)
                      ++ decode r3
                    else 0xFFFD :: decode r2
                | [] => [0xFFFD]
                end
              else 0xFFFD :: decode r1
          | [] => [0xFFFD]
          end
        else 0xFFFD :: decode r0
    | [] => [0xFFFD]
    end
  else 0xFFFD :: decode r0.

Fixpoint utf8Decode (bs : bytes) : list N :=
  match bs with
  | [] => []
  | b0 :: r0 => decodeStep utf8Decode b0 r0
  end.

(** *** base64 *)

Definition alphabet : list Ascii.ascii :=
  String.list_ascii_of_string
    "ABCDEFGHIJKLMNOPQRSTUVWXYZabcdefghijklmnopqrstuvwxyz0123456789+/".

Definition digit (n : N) : Ascii.ascii :=
  nth (N.to_nat n) alphabet (Ascii.ascii_of_nat 61).

Fixpoint indexOf (c : Ascii.ascii) (l : list Ascii.ascii) : option N :=
  match l with
  | [] => None
  | x :: rest =>
      if Ascii.eqb x c then Some 0
      else
        match indexOf c rest with
        | Some i => Some (N.succ i)
        | None => None
        end
  end.

Definition value (c : Ascii.ascii) : option N := indexOf c alphabet.

Fixpoint toBase64 (bs : bytes) : string :=
  match bs with
  | [] => ""
  | [a] =>
      let x := Byte.to_N a in
      String (digit (x / 4)) (String (digit ((x mod 4) * 16)) "==")
  | [a; b] =>
      let x := Byte.to_N a in
      let y := Byte.to_N b in
      String (digit (x / 4))
        (String (digit ((x mod 4) * 16 + y / 16))
           (String (digit ((y mod 16) * 4)) "="))
  | a :: b :: c :: rest =>
      let x := Byte.to_N a in
      let y := Byte.to_N b in
      let z := Byte.to_N c in
      String (digit (x / 4))
        (String (digit ((x mod 4) * 16 + y / 16))
           (String (digit ((y mod 16) * 4 + z / 64))
              (String (digit (z mod 64)) (toBase64 rest))))
  end.

(** Decoding stops at the padding, or at a character outside the alphabet. *)
Fixpoint fromBase64 (s : string) : bytes :=
  match s with
  | String c1 (String c2 (String c3 (String c4 rest))) =>
      match value c1, value c2 with
      | Some v1, Some v2 =>
          byteOfN (v1 * 4 + v2 / 16)
          :: match value c3 with
             | Some v3 =>
                 byteOfN ((v2 mod 16) * 16 + v3 / 4)
                 :: match value c4 with
                    | Some v4 =>
                        byteOfN ((v3 mod 4) * 64 + v4) :: fromBase64 rest
                    | None => []
                    end
             | None => []
             end
      | _, _ => []
      end
  | _ => []
  end.

(** *** Stand-ins for PBKDF2 and AES-GCM *)

Definition bytesOfString (s : string) : bytes :=
  map Ascii.byte_of_ascii (String.list_ascii_of_string s).

Definition total (bs : bytes) : N :=
  fold_right (fun b acc => Byte.to_N b + acc) 0 bs.

Definition pbkdf2Sync (passphrase : string) (saltBytes : bytes)
    (iterations keylen : Z) (digest : string) : bytes :=
  firstn (Z.to_nat keylen)
    (bytesOfString passphrase ++ saltBytes
     ++ repeat Byte.x00 (Z.to_nat keylen)).

Definition shiftOf (key ivBytes : bytes) : N :=
  (total key + total ivBytes) mod 256.

Definition tagOf (key ivBytes data : bytes) (authTagLength : Z) : bytes :=
  firstn (Z.to_nat authTagLength)
    (map (fun k => byteOfN (Byte.to_N k + total data + total ivBytes)) key
     ++ repeat Byte.x00 (Z.to_nat authTagLength)).

Definition cipher (algorithm : string) (key ivBytes : bytes)
    (authTagLength : Z) (plain : bytes) : bytes * bytes :=
  let data :=
    map (fun p => byteOfN (Byte.to_N p + shiftOf key ivBytes)) plain in
  (data, tagOf key ivBytes data authTagLength).

Definition createDecipheriv (algorithm : string) (key ivBytes : bytes)
    (authTagLength : Z) : option JsError :=
  if negb (Nat.eqb (length key) 32) then Some (Error "Invalid key length")
  else if Nat.eqb (length ivBytes) 0 then
    Some (Error "Invalid initialization vector")
  else None.

Definition setAuthTag (authTagLength : Z) (tag : bytes) : option JsError :=
  if Z.eqb (Z.of_nat (length tag)) authTagLength then None
  else
    Some (Error ("Invalid authentication tag length: "
                 ++ pretty (Z.of_nat (length tag)))).

Definition decipher (algorithm : string) (key ivBytes tag data : bytes)
    : option bytes :=
  if bool_decide (tag = tagOf key ivBytes data (Z.of_nat (length tag))) then
    Some
      (map (fun c => byteOfN (Byte.to_N c + 256 - shiftOf key ivBytes)) data)
  else None.

Definition sha256Hex (s : list N) : string :=
  pretty (fold_right N.add 0 s).

Definition node : Node :=
  {| Encryption.pbkdf2Sync := pbkdf2Sync;
     Encryption.cipher := cipher;
     Encryption.createDecipheriv := createDecipheriv;
     Encryption.setAuthTag := setAuthTag;
     Encryption.decipher := decipher;
     Encryption.utf8Encode := utf8Encode;
     Encryption.utf8Decode := utf8Decode;
     Encryption.toBase64 := toBase64;
     Encryption.fromBase64 := fromBase64;
     Encryption.sha256Hex := sha256Hex |}.

End ReferenceNode.

(** ** Notions the properties are stated with *)

Module Notions.
Import GitHubRepo SyncEngine Encryption.

(** The entry for [meta] is in the cache with the fingerprint of [meta]. *)
Definition cacheHit (meta : SessionMetadata)
    (hashCache : gmap string CachedHashEntry) (cached : CachedHashEntry)
    : Prop :=
  hashCache !! md_id meta = Some cached
  /\ mtimeMs cached = md_mtimeMs meta
  /\ sizeBytes cached = md_sizeBytes meta.

Section Staging.
Context {Disk : Type} (H : Host Disk) (net : Network).
Context (remote : gmap string string) (disk : Disk).
Context (remoteMap : JsMap.t SyncManifestEntry).

(** The item's content is read from the disk and is not empty, so the
    staging loop stages it. *)
Definition staged (item : PushItem) : bool :=
  match
    readSessionContent H disk (md_workspaceId (pi_meta item))
      (pi_sessionId item)
  with
  | Some rawContent => truthy rawContent
  | None => false
  end.

(** The stored copy the loop backs up: the item is a [push], the manifest
    lists it, and its object is fetched and not empty. *)
Definition storedCopy (item : PushItem) : option string :=
  if bool_decide
       (ConflictResolver.action (pi_action item) = ConflictResolver.push)
     && JsMap.has remoteMap (pi_sessionId item)
  then
    match getFileContent net remote (sessionPath (pi_sessionId item)) with
    | Ok (Some existingContent) =>
        if truthy existingContent then Some existingContent else None
    | _ => None
    end
  else None.

Definition backedUp (item : PushItem) : bool :=
  staged item && bool_decide (is_Some (storedCopy item)).

End Staging.

Section Cycle.
Context {Disk : Type} (H : Host Disk) (cfg : Config).

(** The state after every file has been put, one by one. *)
Definition afterPuts (files : list RepoFile) (w : World Disk) : World Disk :=
  fold_left
    (fun w' file =>
       emit (with_remote w' (<[path file := content file]> (w_remote w')))
         (FilePut file))
    files w.

(** The manifest is not there to read: the store has no [manifest.json] or
    an empty one, or what it has does not decrypt under [pass], or the
    decrypted text does not parse, or parses to a falsy value. *)
Definition manifestUnreadable (pass : string) (remote : gmap string string)
    : Prop :=
  remote !! "manifest.json" = None
  \/ remote !! "manifest.json" = Some ""
  \/ exists fileContent,
       remote !! "manifest.json" = Some fileContent
       /\ (decryptFromString H fileContent pass = None
           \/ exists decrypted,
                decryptFromString H fileContent pass = Some decrypted
                /\ (parseManifest H decrypted = None
                    \/ parseManifest H decrypted = Some Falsy)).

(** The metadata a push starts from: recent and not oversized. *)
Definition pushable (w : World Disk) : list SessionMetadata :=
  List.filter
    (fun m => negb (md_sizeBytes m >? maxSessionSizeMB cfg * 1024 * 1024))
    (SessionReader.readRecentSessionMetadata (now H w)
       (maxSessionAgeDays cfg) (readAllSessionMetadata H (w_disk w))).

End Cycle.

(** The action [resolve] answers with, when it returns. *)
Definition answer (r : Result ConflictResolver.ConflictAction)
    : Result ConflictResolver.Action :=
  match r with
  | Ok a => Ok (ConflictResolver.action a)
  | Throw e => Throw e
  end.

(** A Unicode scalar value: a code point that is not a surrogate. *)
Definition isScalar (c : N) : Prop :=
  (c < 0x110000 /\ ~ (0xD800 <= c <= 0xDFFF))%N.

(** The byte [b] with bit [j] flipped, bit 0 being the lowest. *)
Definition flipBit (j : nat) (b : Byte.byte) : Byte.byte :=
  let '(b0, (b1, (b2, (b3, (b4, (b5, (b6, b7))))))) := Byte.to_bits b in
  Byte.of_bits
    (xorb b0 (Nat.eqb j 0),
     (xorb b1 (Nat.eqb j 1),
      (xorb b2 (Nat.eqb j 2),
       (xorb b3 (Nat.eqb j 3),
        (xorb b4 (Nat.eqb j 4),
         (xorb b5 (Nat.eqb j 5),
          (xorb b6 (Nat.eqb j 6), xorb b7 (Nat.eqb j 7)))))))).

(** The bytes with bit [j] of byte [i] flipped. *)
Definition flipAt (i j : nat) (bs : bytes) : bytes :=
  match bs !! i with
  | Some b => <[i := flipBit j b]> bs
  | None => bs
  end.

Section Pieces.
Context (node : Node).

(** The pieces [decrypt] cuts the payload into. *)
Definition ivOf (payload : EncryptedPayload) : bytes :=
  fromBase64 node (iv payload).

Definition keyOf (payload : EncryptedPayload) (passphrase : string) : bytes :=
  deriveKey node passphrase (fromBase64 node (salt payload)).

Definition dataOf (payload : EncryptedPayload) : bytes :=
  let ciphertextWithTag := fromBase64 node (ciphertext payload) in
  subarray ciphertextWithTag 0
    (Z.of_nat (length ciphertextWithTag) - AUTH_TAG_LENGTH).

Definition authTagOf (payload : EncryptedPayload) : bytes :=
  let ciphertextWithTag := fromBase64 node (ciphertext payload) in
  subarray ciphertextWithTag
    (Z.of_nat (length ciphertextWithTag) - AUTH_TAG_LENGTH)
    (Z.of_nat (length ciphertextWithTag)).

(** Node takes the key, the IV and the tag: neither [createDecipheriv] nor
    [setAuthTag] throws. *)
Definition accepted (payload : EncryptedPayload) (passphrase : string)
    : Prop :=
  createDecipheriv node ALGORITHM (keyOf payload passphrase) (ivOf payload)
    AUTH_TAG_LENGTH = None
  /\ setAuthTag node AUTH_TAG_LENGTH (authTagOf payload) = None.

(** The plaintext bytes, when the authentication tag verifies. *)
Definition verified (payload : EncryptedPayload) (passphrase : string)
    : option bytes :=
  decipher node ALGORITHM (keyOf payload passphrase) (ivOf payload)
    (authTagOf payload) (dataOf payload).

(** The payload is what the cipher makes of [plain] under the key of the
    passphrase and the payload's IV: its ciphertext and its tag. *)
Definition encrypts (payload : EncryptedPayload) (passphrase : string)
    (plain : bytes) : Prop :=
  cipher node ALGORITHM (keyOf payload passphrase) (ivOf payload)
    AUTH_TAG_LENGTH plain
  = (dataOf payload, authTagOf payload).

(** The payload with bit [j] of byte [i] of its ciphertext and tag
    flipped. *)
Definition tamperedAt (i j : nat) (payload : EncryptedPayload)
    : EncryptedPayload :=
  {| salt := salt payload;
     iv := iv payload;
     ciphertext :=
       toBase64 node (flipAt i j (fromBase64 node (ciphertext payload)));
     version := version payload |}.

End Pieces.

End Notions.

(** ** Fixtures *)

Module Fixtures.
Import GitHubRepo SessionReader SyncEngine.

(** The fixtures of the test suite ([makeSession], [makeManifestEntry]). *)
Definition makeSession (lastMessageDate : Z) : CopilotSession :=
  {| cs_id := "session-1"; cs_workspaceId := "ws-1";
     cs_workspacePath := "/home/user/project"; cs_fileExtension := ".jsonl";
     cs_rawContent := "{}"; cs_customTitle := "Test Session";
     cs_creationDate := 1000; cs_lastMessageDate := lastMessageDate |}.

Definition makeManifestEntry (lastMessageDate : Z) (sha : string)
    : SyncManifestEntry :=
  {| me_sessionId := "session-1"; me_workspaceId := "ws-1";
     me_workspacePath := "/home/user/project"; me_fileExtension := ".jsonl";
     me_customTitle := "Test Session"; me_lastMessageDate := lastMessageDate;
     me_creationDate := 1000; me_sha := sha; me_deviceId := "device-1";
     me_updatedAt := 3000 |}.

(** The clock of the fixtures, in epoch milliseconds. *)
Definition nowMs : Z := 1700000000000.

(** A session whose log has no readable header, touched just now: [stat]
    succeeds, the first line does not parse. *)
Definition headerless : StoredSession :=
  {| ss_sessionId := "session-1"; ss_workspaceId := "ws-1";
     ss_workspacePath := "/home/user/project"; ss_ext := ".jsonl";
     ss_filePath := "/storage/ws-1/chatSessions/session-1.jsonl";
     ss_mtimeMs := nowMs; ss_size := 17; ss_file := JsonlFile None |}.

(** A session created a minute ago whose header has no [lastMessageDate]. *)
Definition createdOnly : StoredSession :=
  {| ss_sessionId := "session-2"; ss_workspaceId := "ws-1";
     ss_workspacePath := "/home/user/project"; ss_ext := ".json";
     ss_filePath := "/storage/ws-1/chatSessions/session-2.json";
     ss_mtimeMs := nowMs; ss_size := 64;
     ss_file :=
       JsonFile
         (Some {| raw_customTitle := Some "Draft";
                  raw_creationDate := Some (nowMs - 60000);
                  raw_lastMessageDate := None |}) |}.

(** The session [s1] as the local disk has it, and as the remote manifest
    lists it: the local copy is the newer one. *)
Definition localMeta : SessionMetadata :=
  {| md_id := "s1"; md_workspaceId := "ws-1";
     md_workspacePath := "/home/user/project"; md_fileExtension := ".jsonl";
     md_mtimeMs := nowMs - 500; md_sizeBytes := 8;
     md_filePath := "/storage/ws-1/chatSessions/s1.jsonl";
     md_customTitle := "Test Session"; md_creationDate := nowMs - 9000;
     md_lastMessageDate := nowMs - 1000 |}.

Definition remoteEntry : SyncManifestEntry :=
  {| me_sessionId := "s1"; me_workspaceId := "ws-0";
     me_workspacePath := "/home/user/project"; me_fileExtension := ".jsonl";
     me_customTitle := "Test Session"; me_lastMessageDate := nowMs - 2000;
     me_creationDate := nowMs - 9000; me_sha := "sha256(remote-v1)";
     me_deviceId := "device-1"; me_updatedAt := nowMs - 1500 |}.

Definition remoteManifest : SyncManifest :=
  {| sm_version := 1; sm_deviceId := "device-1";
     sm_lastSyncTimestamp := nowMs - 1500;
     sm_entries := [("s1", remoteEntry)] |}.

Definition stripPrefix (p s : string) : option string :=
  if String.prefix p s then
    Some
      (String.substring (String.length p)
         (String.length s - String.length p) s)
  else None.

(** A host by tables.  The disk is the list of its session files, metadata
    and content, and writing a session replaces the file of that workspace
    and id; "encryption" under [pass] prefixes the text with
    [enc(pass)]; a payload is its raw content after [payload:]; the one
    manifest text that parses to a manifest is [manifest-v1]. *)
Definition host : Host (list (SessionMetadata * string)) :=
  {| readAllSessionMetadata := fun disk => map fst disk;
     readSessionContent := fun disk ws sid =>
       option_map snd
         (List.find
            (fun f => String.eqb (md_workspaceId f.1) ws
                      && String.eqb (md_id f.1) sid) disk);
     writeSession := fun disk s =>
       Some
         (List.filter
            (fun f =>
               negb (String.eqb (md_workspaceId f.1) (cs_workspaceId s)
                     && String.eqb (md_id f.1) (cs_id s))) disk
          ++ [({| md_id := cs_id s; md_workspaceId := cs_workspaceId s;
                  md_workspacePath := cs_workspacePath s;
                  md_fileExtension := cs_fileExtension s;
                  md_mtimeMs := nowMs;
                  md_sizeBytes := Z.of_nat (String.length (cs_rawContent s));
                  md_filePath := cs_id s ++ cs_fileExtension s;
                  md_customTitle := cs_customTitle s;
                  md_creationDate := cs_creationDate s;
                  md_lastMessageDate := cs_lastMessageDate s |},
               cs_rawContent s)])%list;
     hashContent := fun c => "sha256(" ++ c ++ ")";
     decryptFromString := fun c pass => stripPrefix ("enc(" ++ pass ++ ")") c;
     encryptToString := fun pass n text => "enc(" ++ pass ++ ")" ++ text;
     parseManifest := fun text =>
       if String.eqb text "manifest-v1" then Some (Manifest remoteManifest)
       else if String.eqb text "null" then Some Falsy
       else if String.eqb text "{}" then Some WithoutEntries
       else None;
     parseSessionPayload := fun text =>
       match stripPrefix "payload:" text with
       | Some raw =>
           Some {| pp_rawContent := Some raw; pp_fileExtension := None;
                   pp_workspacePath := None; pp_customTitle := None;
                   pp_creationDate := None; pp_lastMessageDate := None |}
       | None => None
       end;
     stringifyPayload := fun p => "payload:" ++ sp_rawContent p;
     stringifyManifest := fun m => "manifest-v2";
     dateNow := fun n => nowMs + Z.of_nat n;
     deviceId := "device-2";
     currentWorkspaceStorageId := Some "ws-1" |}.

Definition config : Config :=
  {| enabled := true; maxSessionAgeDays := 90; maxSessionSizeMB := 50 |}.

Definition idleStatus : SyncStatusInfo :=
  {| status := idle; lastSyncTime := None; sessionCount := 0;
     errorMessage := None |}.

(** The state before a cycle: [s1] on both sides, the local copy newer. *)
Definition world : World (list (SessionMetadata * string)) :=
  {| w_remote :=
       {[ "manifest.json" := "enc(pw)manifest-v1";
          "sessions/s1.enc" := "enc(pw)payload:remote-v1" ]};
     w_disk := [(localMeta, "local-v2")];
     w_hashCache := ∅;
     w_status := idleStatus;
     w_ticks := 0;
     w_trace := [] |}.

(** The same with the manifest written under another passphrase. *)
Definition foreignManifest : World (list (SessionMetadata * string)) :=
  with_remote world
    {[ "manifest.json" := "enc(other)manifest-v1";
       "sessions/s1.enc" := "enc(pw)payload:remote-v1" ]}.

(** Every request is answered. *)
Definition calm : Network :=
  {| auth_fails := false; get_fails := fun _ => false;
     put_fails := fun _ => false; batch_fails := false |}.

(** The stored object of [s1] cannot be fetched. *)
Definition sessionUnreadable : Network :=
  {| auth_fails := false;
     get_fails := fun p => String.eqb p "sessions/s1.enc";
     put_fails := fun _ => false; batch_fails := false |}.

(** The manifest cannot be fetched: the request is answered with an error. *)
Definition manifestUnreachable : Network :=
  {| auth_fails := false;
     get_fails := fun p => String.eqb p "manifest.json";
     put_fails := fun _ => false; batch_fails := false |}.

(** The batch commit is refused, single files are accepted. *)
Definition batchRefused : Network :=
  {| auth_fails := false; get_fails := fun _ => false;
     put_fails := fun _ => false; batch_fails := true |}.

(** The batch commit is refused, and so is the single put of the manifest. *)
Definition manifestRefused : Network :=
  {| auth_fails := false; get_fails := fun _ => false;
     put_fails := fun p => String.eqb p "manifest.json";
     batch_fails := true |}.

(** The state with the local copy of [s1] older than the one the manifest
    lists. *)
Definition remoteAhead : World (list (SessionMetadata * string)) :=
  with_disk world
    [({| md_id := "s1"; md_workspaceId := "ws-1";
         md_workspacePath := "/home/user/project";
         md_fileExtension := ".jsonl"; md_mtimeMs := nowMs - 5000;
         md_sizeBytes := 8;
         md_filePath := "/storage/ws-1/chatSessions/s1.jsonl";
         md_customTitle := "Test Session"; md_creationDate := nowMs - 9000;
         md_lastMessageDate := nowMs - 3000 |},
      "local-v0")].

(** A salt and an IV as [crypto.randomBytes] may return them. *)
Definition sampleSalt : Encryption.bytes := repeat Byte.x01 16.
Definition sampleIv : Encryption.bytes := repeat Byte.x02 12.

(** What the reference platform makes of "hi there" under "secret-pass" with
    that salt and that IV, at a given version. *)
Definition samplePayload (version : Z) : Encryption.EncryptedPayload :=
  {| Encryption.salt := "AQEBAQEBAQEBAQEBAQEBAQ==";
     Encryption.iv := "AgICAgICAgICAgIC";
     Encryption.ciphertext := "+vuyBvr3BPckFhQjFiXeIRIkJLKysrKy";
     Encryption.version := version |}.

End Fixtures.

(** ** Encryption: the string forms (encryption.ts) *)

Module EncryptionStrings.
Import Encryption.

(** [JSON] on encrypted payloads.  [parse text] is [Throw e] when
    [JSON.parse] throws [e], and also when it returns a value that is not a
    payload object, [e] being what [decrypt] then throws reading it. *)
Record Json := {
  stringify : EncryptedPayload -> list N;
  parse : list N -> Result EncryptedPayload
}.

Definition knownPlaintext : list N :=
  JsString.ofString "copilot-session-sync-verification-v1".

Section Strings.
Context (node : Node) (json : Json).

(** [encryptToString]; [saltBytes] and [ivBytes] as for [encrypt]. *)
Definition encryptToString (saltBytes ivBytes : bytes) (data : list N)
    (passphrase : string) : string :=
  let payload := encrypt node saltBytes ivBytes data passphrase in
  toBase64 node (utf8Encode node (stringify json payload)).

Definition decryptFromString (encoded passphrase : string)
    : Result (list N) :=
  let payloadJson := utf8Decode node (fromBase64 node encoded) in
  match parse json payloadJson with
  | Ok payload => decrypt node payload passphrase
  | Throw e => Throw e
  end.

Definition createVerificationToken (saltBytes ivBytes : bytes)
    (passphrase : string) : string :=
  encryptToString saltBytes ivBytes knownPlaintext passphrase.

Definition verifyPassphrase (passphrase verificationToken : string) : bool :=
  match decryptFromString verificationToken passphrase with
  | Ok decrypted => bool_decide (decrypted = knownPlaintext)
  | Throw _ => false
  end.

(** [JSON] gives the payload back: [JSON.parse (JSON.stringify payload)] is
    the payload, and the text is a well-formed string. *)
Definition givesBack (payload : EncryptedPayload) : Prop :=
  parse json (stringify json payload) = Ok payload
  /\ Forall JsString.isCodeUnit (stringify json payload)
  /\ JsString.isWellFormed (stringify json payload).

End Strings.
End EncryptionStrings.

(** A reader and a writer for the JSON text of a payload whose strings need
    no escape, as the base64 texts of [encrypt] do. *)
Module ReferenceJson.
Import Encryption EncryptionStrings.

Definition quote : Ascii.ascii := Ascii.ascii_of_nat 34.

Definition quoted (s : string) : string := String quote (s ++ String quote "").

Definition text (p : EncryptedPayload) : string :=
  "{" ++ quoted "salt" ++ ":" ++ quoted (salt p) ++ ","
  ++ quoted "iv" ++ ":" ++ quoted (iv p) ++ ","
  ++ quoted "ciphertext" ++ ":" ++ quoted (ciphertext p) ++ ","
  ++ quoted "version" ++ ":" ++ pretty (version p) ++ "}".

Definition stringify (p : EncryptedPayload) : list N :=
  JsString.ofString (text p).

Definition syntaxError : JsError := Error "Unexpected token in JSON".

(** The text of a string of ASCII code units. *)
Fixpoint asciiText (units : list N) : option string :=
  match units with
  | [] => Some ""
  | u :: rest =>
      if (u <? 128)%N then
        option_map (String (Ascii.ascii_of_N u)) (asciiText rest)
      else None
  end.

(** What follows [prefix] in [s]. *)
Fixpoint after (prefix s : string) : option string :=
  match prefix, s with
  | EmptyString, _ => Some s
  | String c prefix', String d s' =>
      if Ascii.eqb c d then after prefix' s' else None
  | String _ _, EmptyString => None
  end.

(** The characters up to the closing quote, and what follows it. *)
Fixpoint untilQuote (s : string) : option (string * string) :=
  match s with
  | EmptyString => None
  | String c rest =>
      if Ascii.eqb c quote then Some ("", rest)
      else if Ascii.eqb c (Ascii.ascii_of_nat 92) then None
      else
        match untilQuote rest with
        | Some (body, rest') => Some (String c body, rest')
        | None => None
        end
  end.

Definition readQuoted (s : string) : option (string * string) :=
  match s with
  | String c rest => if Ascii.eqb c quote then untilQuote rest else None
  | EmptyString => None
  end.

Definition digitOf (c : Ascii.ascii) : option Z :=
  let n := Z.of_N (Ascii.N_of_ascii c) in
  if (48 <=? n) && (n <=? 57) then Some (n - 48) else None.

(** The decimal digits at the head of [s], as a number, and what follows. *)
Fixpoint readDigits (s : string) (acc : option Z) : option (Z * string) :=
  match s with
  | String c rest =>
      match digitOf c with
      | Some d =>
          readDigits rest
            (Some (match acc with Some a => a * 10 + d | None => d end))
      | None => option_map (fun a => (a, s)) acc
      end
  | EmptyString => option_map (fun a => (a, s)) acc
  end.

Definition member (key : string) (s : string) : option (string * string) :=
  match after (quoted key ++ ":") s with
  | Some rest => readQuoted rest
  | None => None
  end.

Definition parseText (s : string) : option EncryptedPayload :=
  match after "{" s with
  | Some s1 =>
      match member "salt" s1 with
      | Some (saltText, s2) =>
          match after "," s2 with
          | Some s3 =>
              match member "iv" s3 with
              | Some (ivText, s4) =>
                  match after "," s4 with
                  | Some s5 =>
                      match member "ciphertext" s5 with
                      | Some (cipherText, s6) =>
                          match after ("," ++ quoted "version" ++ ":") s6 with
                          | Some s7 =>
                              match readDigits s7 None with
                              | Some (v, s8) =>
                                  if String.eqb s8 "}" then
                                    Some
                                      {| salt := saltText; iv := ivText;
                                         ciphertext := cipherText;
                                         version := v |}
                                  else None
                              | None => None
                              end
                          | None => None
                          end
                      | None => None
                      end
                  | None => None
                  end
              | None => None
              end
          | None => None
          end
      | None => None
      end
  | None => None
  end.

Definition parse (units : list N) : Result EncryptedPayload :=
  match asciiText units with
  | Some s =>
      match parseText s with
      | Some p => Ok p
      | None => Throw syntaxError
      end
  | None => Throw syntaxError
  end.

Definition json : Json :=
  {| EncryptionStrings.stringify := stringify;
     EncryptionStrings.parse := parse |}.

End ReferenceJson.

(** ** SessionReader: the session files (sessionReader.ts) *)

Module SessionFiles.

(** A [chatSessions] directory: file name to content, the names in the order
    [readdir] lists them.  The file system keeps names apart as they are
    written; a file that exists is a regular file that can be read, and a
    write to a name of a directory that exists succeeds. *)
Definition Dir := JsMap.t string.

(** [workspaceStorage]: the name of a workspace's directory to its
    [chatSessions] directory, for the workspaces that have one. *)
Definition Storage := gmap string Dir.

(** A character that ends a path segment: [/], and [\], which is a
    separator on Windows; the file system takes no name with a NUL. *)
Definition isSeparator (c : Ascii.ascii) : bool :=
  Ascii.eqb c (Ascii.ascii_of_nat 47)
  || Ascii.eqb c (Ascii.ascii_of_nat 92)
  || Ascii.eqb c (Ascii.ascii_of_nat 0).

Fixpoint hasSeparator (s : string) : bool :=
  match s with
  | EmptyString => false
  | String c rest => isSeparator c || hasSeparator rest
  end.

(** A name [path.join] leaves as it is, one segment below the directory it
    is joined to: no separator in it, and not one of the segments it drops
    or resolves against the path so far. *)
Definition plainName (name : string) : bool :=
  negb (hasSeparator name)
  && negb (String.eqb name "")
  && negb (String.eqb name ".")
  && negb (String.eqb name "..").

(** What a call on the files gives, as far as the directories above
    describe it: [path.join] normalises what it joins, so that a workspace
    id or a file name that is no plain name leads to another directory, at
    any depth, of which [Storage] says nothing.  Such a call is [Beyond]. *)
Inductive Covered (A : Type) :=
| Within (a : A)
| Beyond.
Arguments Within {A} _.
Arguments Beyond {A}.

Definition andThen {A B : Type} (m : Covered A) (f : A -> Covered B)
    : Covered B :=
  match m with
  | Within a => f a
  | Beyond => Beyond
  end.

(** A loop that appends what each round gives. *)
Fixpoint gather {A B : Type} (f : A -> Covered (list B)) (l : list A)
    : Covered (list B) :=
  match l with
  | [] => Within []
  | a :: rest =>
      andThen (f a) (fun found =>
      andThen (gather f rest) (fun more => Within (found ++ more)%list))
  end.

(** [path.join (this.workspaceStorageDir, workspaceId, 'chatSessions')]:
    the directory, [None] when it does not exist. *)
Definition chatDirOf (storage : Storage) (workspaceId : string)
    : Covered (option Dir) :=
  if plainName workspaceId then Within (storage !! workspaceId) else Beyond.

(** [fs.existsSync (path.join (chatDir, name))] *)
Definition existsSync (chatDir : option Dir) (name : string) : Covered bool :=
  if plainName name then
    Within
      match chatDir with
      | Some dir => JsMap.has dir name
      | None => false
      end
  else Beyond.

(** [fs.promises.readFile] of a file that was found in [chatDir]; [None]
    when it throws. *)
Definition readFile (chatDir : option Dir) (name : string) : option string :=
  match chatDir with
  | Some dir => JsMap.get dir name
  | None => None
  end.

(** [s] without [suffix], when it ends with it. *)
Fixpoint stripSuffix (suffix s : string) : option string :=
  if String.eqb s suffix then Some ""
  else
    match s with
    | EmptyString => None
    | String c rest => option_map (String c) (stripSuffix suffix rest)
    end.

(** [s.endsWith (suffix)] *)
Definition endsWith (s suffix : string) : bool :=
  match stripSuffix suffix s with
  | Some _ => true
  | None => false
  end.

(** [f.replace (/\.(json|jsonl)$/, '')]: the pattern matches at the end of
    the name only, one of the two extensions. *)
Definition withoutExtension (f : string) : string :=
  match stripSuffix ".json" f with
  | Some id => id
  | None =>
      match stripSuffix ".jsonl" f with
      | Some id => id
      | None => f
      end
  end.

(** [scanChatSessionFiles]; [None] when the directory does not exist. *)
Definition scanChatSessionFiles (chatDir : option Dir) : list string :=
  match chatDir with
  | None => []
  | Some dir =>
      map withoutExtension
        (List.filter (fun f => endsWith f ".json" || endsWith f ".jsonl")
           (JsMap.keys dir))
  end.

(** [resolveSessionFilePath]: the file name in the directory stands for the
    path. *)
Definition resolveSessionFilePath (storage : Storage)
    (workspaceId sessionId : string) : Covered (option (string * string)) :=
  andThen (chatDirOf storage workspaceId) (fun chatDir =>
  andThen (existsSync chatDir (sessionId ++ ".jsonl")) (fun found : bool =>
  if found then Within (Some (sessionId ++ ".jsonl", ".jsonl"))
  else
    andThen (existsSync chatDir (sessionId ++ ".json")) (fun found : bool =>
    if found then Within (Some (sessionId ++ ".json", ".json"))
    else Within None))).

Definition readSessionContent (storage : Storage)
    (workspaceId sessionId : string) : Covered (option string) :=
  andThen (resolveSessionFilePath storage workspaceId sessionId)
    (fun resolved =>
       match resolved with
       | Some (fileName, _) =>
           Within (readFile (storage !! workspaceId) fileName)
       | None => Within None
       end).

(** [session.fileExtension || '.jsonl'] *)
Definition extensionOf (session : CopilotSession) : string :=
  if truthy (cs_fileExtension session) then cs_fileExtension session
  else ".jsonl".

(** [writeSession]: [mkdir] makes the directory when it is not there. *)
Definition writeSession (storage : Storage) (session : CopilotSession)
    : Covered Storage :=
  andThen (chatDirOf storage (cs_workspaceId session)) (fun chatDir =>
  let dir :=
    match chatDir with
    | Some dir => dir
    | None => []
    end in
  if plainName (cs_id session ++ extensionOf session) then
    Within
      (<[cs_workspaceId session :=
           JsMap.set dir (cs_id session ++ extensionOf session)
             (cs_rawContent session)]> storage)
  else Beyond).

End SessionFiles.

(** ** More notions: what the phases do and carry *)

Module EngineNotions.
Import GitHubRepo SyncEngine.

(** An effect on the remote store. *)
Definition isRemoteWrite (e : Effect) : Prop :=
  match e with
  | SessionWritten _ => False
  | _ => True
  end.

(** The payload the staging loop serialises for an item. *)
Definition payloadOf (item : PushItem) (rawContent : string)
    : SessionPayload :=
  {| sp_rawContent := rawContent;
     sp_fileExtension := md_fileExtension (pi_meta item);
     sp_workspacePath := md_workspacePath (pi_meta item);
     sp_customTitle := md_customTitle (pi_meta item);
     sp_creationDate := md_creationDate (pi_meta item);
     sp_lastMessageDate := md_lastMessageDate (pi_meta item) |}.

(** The payload as [JSON.parse] gives it back, every property present. *)
Definition parsed (p : SessionPayload) : ParsedPayload :=
  {| pp_rawContent := Some (sp_rawContent p);
     pp_fileExtension := Some (sp_fileExtension p);
     pp_workspacePath := Some (sp_workspacePath p);
     pp_customTitle := Some (sp_customTitle p);
     pp_creationDate := Some (sp_creationDate p);
     pp_lastMessageDate := Some (sp_lastMessageDate p) |}.

(** The session a pull makes of a payload, in the workspace it writes to. *)
Definition pulledSession (sessionId currentWsId : string)
    (p : SessionPayload) : CopilotSession :=
  {| cs_id := sessionId;
     cs_workspaceId := currentWsId;
     cs_workspacePath := sp_workspacePath p;
     cs_fileExtension := sp_fileExtension p;
     cs_rawContent := sp_rawContent p;
     cs_customTitle := sp_customTitle p;
     cs_creationDate := sp_creationDate p;
     cs_lastMessageDate := sp_lastMessageDate p |}.

(** The state a phase leaves, returning or not. *)
Definition after {Disk : Type} (o : Outcome (World Disk)) : World Disk :=
  match o with
  | Returned w => w
  | Thrown _ w => w
  end.

(** The files an effect writes to the remote store. *)
Definition filesOf (e : Effect) : list RepoFile :=
  match e with
  | BatchCommitted files => files
  | FilePut file => [file]
  | SessionWritten _ => []
  end.

End EngineNotions.

(** ** More fixtures *)

Module EngineFixtures.
Import GitHubRepo SyncEngine Fixtures EngineNotions.

(** The item a push makes of [s1] in the fixture's state. *)
Definition localItem : PushItem :=
  {| pi_sessionId := "s1"; pi_meta := localMeta;
     pi_hash := "sha256(local-v2)";
     pi_action :=
       {| ConflictResolver.action := ConflictResolver.push;
          ConflictResolver.reason :=
            ConflictResolver.LocalIsNewer "Test Session" (nowMs - 1000)
              (nowMs - 2000) |} |}.

(** The staging loop's variables as a push starts it on the fixture's
    manifest. *)
Definition emptyStaging : Staging :=
  {| st_filesToPush := []; st_backupFiles := [];
     st_manifest := remoteManifest; st_ticks := 1; st_encryptions := 0 |}.

(** The lightweight copy of the older local [s1] of [remoteAhead]. *)
Definition olderLocal : CopilotSession :=
  {| cs_id := "s1"; cs_workspaceId := "ws-1";
     cs_workspacePath := "/home/user/project"; cs_fileExtension := ".jsonl";
     cs_rawContent := ""; cs_customTitle := "Test Session";
     cs_creationDate := nowMs - 9000; cs_lastMessageDate := nowMs - 3000 |}.

(** The fixture's host with a payload text that carries every property: the
    one text it parses is that of the payload of [localItem]. *)
Definition payloadText (p : SessionPayload) : string :=
  "payload:" ++ sp_rawContent p ++ "|" ++ sp_fileExtension p ++ "|"
  ++ sp_workspacePath p ++ "|" ++ sp_customTitle p ++ "|"
  ++ pretty (sp_creationDate p) ++ "|" ++ pretty (sp_lastMessageDate p).

Definition jsonHost : Host (list (SessionMetadata * string)) :=
  {| readAllSessionMetadata := readAllSessionMetadata host;
     readSessionContent := readSessionContent host;
     writeSession := writeSession host;
     hashContent := hashContent host;
     decryptFromString := decryptFromString host;
     encryptToString := encryptToString host;
     parseManifest := parseManifest host;
     parseSessionPayload := fun text =>
       if String.eqb text (payloadText (payloadOf localItem "local-v2"))
       then Some (parsed (payloadOf localItem "local-v2"))
       else None;
     stringifyPayload := payloadText;
     stringifyManifest := stringifyManifest host;
     dateNow := dateNow host;
     deviceId := deviceId host;
     currentWorkspaceStorageId := Some "ws-9" |}.

(** Another device: nothing on its disk, and in the store the object of [s1]
    as [jsonHost] stages it. *)
Definition otherDevice : World (list (SessionMetadata * string)) :=
  with_disk
    (with_remote world
       {[ sessionPath "s1" :=
            encryptToString jsonHost "pw" 0
              (payloadText (payloadOf localItem "local-v2")) ]})
    [].

(** A local copy of [s1] dated beyond the range of a [Date]. *)
Definition farDated : World (list (SessionMetadata * string)) :=
  with_disk world
    [({| md_id := "s1"; md_workspaceId := "ws-1";
         md_workspacePath := "/home/user/project";
         md_fileExtension := ".jsonl"; md_mtimeMs := nowMs - 500;
         md_sizeBytes := 8;
         md_filePath := "/storage/ws-1/chatSessions/s1.jsonl";
         md_customTitle := "Test Session";
         md_creationDate := nowMs - 9000;
         md_lastMessageDate := 8640000000000001 |},
      "local-v2")].

End EngineFixtures.

(** ** A push after a push *)

Module PushNotions.
Import GitHubRepo SyncEngine ConflictResolver.

(** The record of [metadata] with a given id, as step 5 of a push finds
    it. *)
Definition withId (id : string) (metadata : list SessionMetadata)
    : option SessionMetadata :=
  List.find (fun m => String.eqb (md_id m) id) metadata.

Section Push.
Context {Disk : Type} (H : Host Disk) (net : Network) (pass : string).

(** The variables of the staging loop as a push leaves them, from the
    manifest it settled on: steps 3 to 7.  When the resolver throws the
    loop is not reached, and the variables are as they start. *)
Definition stagingOf (manifest : SyncManifest)
    (metadata : list SessionMetadata) (w : World Disk) : Staging :=
  let '(_, localHashes, localMap) :=
    hashAll H (w_disk w) (w_hashCache w) metadata in
  let initial :=
    {| st_filesToPush := []; st_backupFiles := [];
       st_manifest := manifest; st_ticks := w_ticks w;
       st_encryptions := 0 |} in
  match resolveAll localMap (sm_entries manifest) localHashes with
  | Ok actions =>
      stageAll H net pass (w_remote w) (w_disk w) (sm_entries manifest)
        (collectToPush metadata localHashes actions) initial
  | Throw _ => initial
  end.

End Push.

Section Plan.
Context {Disk : Type} (H : Host Disk) (cfg : Config) (net : Network).
Context (pass : string).

(** The manifest a push settles on, the one it fetched or a fresh one, with
    the state it goes on from: steps 1 and 2.  [None] when the push ends
    there: nothing to push, or an exception. *)
Definition settled (w : World Disk) : option (SyncManifest * World Disk) :=
  match Notions.pushable H cfg w with
  | [] => None
  | _ =>
      match getRemoteManifest H net (Some pass) (tick w) with
      | Ok (Manifest manifest) => Some (manifest, tick w)
      | Ok Falsy => Some (freshManifest H (now H (tick w)), tick (tick w))
      | Ok WithoutEntries => None
      | Throw _ => None
      end
  end.

(** The sessions the push finds to push: step 5. *)
Definition toPushOf (w : World Disk) : list PushItem :=
  match settled w with
  | Some (manifest, w0) =>
      let '(_, localHashes, localMap) :=
        hashAll H (w_disk w0) (w_hashCache w0) (Notions.pushable H cfg w) in
      match resolveAll localMap (sm_entries manifest) localHashes with
      | Ok actions =>
          collectToPush (Notions.pushable H cfg w) localHashes actions
      | Throw _ => []
      end
  | None => []
  end.

(** The files the push hands to the commit, in order: step 9.  None when the
    push ends before. *)
Definition committed (w : World Disk) : list RepoFile :=
  match settled w with
  | Some (manifest, w0) =>
      let st := stagingOf H net pass manifest (Notions.pushable H cfg w) w0 in
      match st_filesToPush st with
      | [] => []
      | _ => filesToCommit H pass st
      end
  | None => []
  end.

End Plan.

End PushNotions.

(** A host whose manifest text can be read back: the fields of the manifest,
    numbered by [encode] and written in binary. *)
Module ManifestCodec.
Import GitHubRepo SyncEngine Fixtures.

Definition zero : Ascii.ascii := Ascii.ascii_of_nat 48.
Definition one : Ascii.ascii := Ascii.ascii_of_nat 49.

Fixpoint bitsOf (p : positive) : string :=
  match p with
  | xH => ""
  | xO q => String zero (bitsOf q)
  | xI q => String one (bitsOf q)
  end.

Fixpoint ofBits (s : string) : option positive :=
  match s with
  | EmptyString => Some xH
  | String c rest =>
      match ofBits rest with
      | Some q =>
          if Ascii.eqb c zero then Some (xO q)
          else if Ascii.eqb c one then Some (xI q)
          else None
      | None => None
      end
  end.

Definition EntryFields : Type :=
  ((string * string) * (string * string))
  * ((string * Z) * (Z * string)) * (string * Z).

Definition entryFields (e : SyncManifestEntry) : EntryFields :=
  (((me_sessionId e, me_workspaceId e),
    (me_workspacePath e, me_fileExtension e)),
   ((me_customTitle e, me_lastMessageDate e),
    (me_creationDate e, me_sha e)),
   (me_deviceId e, me_updatedAt e)).

Definition ofEntryFields (f : EntryFields) : SyncManifestEntry :=
  let '(((sessionId, workspaceId), (workspacePath, fileExtension)),
        ((customTitle, lastMessageDate), (creationDate, sha)),
        (device, updatedAt)) := f in
  {| me_sessionId := sessionId; me_workspaceId := workspaceId;
     me_workspacePath := workspacePath; me_fileExtension := fileExtension;
     me_customTitle := customTitle; me_lastMessageDate := lastMessageDate;
     me_creationDate := creationDate; me_sha := sha;
     me_deviceId := device; me_updatedAt := updatedAt |}.

Definition ManifestFields : Type :=
  ((Z * string) * (Z * list (string * EntryFields))).

Definition manifestFields (m : SyncManifest) : ManifestFields :=
  ((sm_version m, sm_deviceId m),
   (sm_lastSyncTimestamp m,
    map (fun b => (b.1, entryFields b.2)) (sm_entries m))).

Definition ofManifestFields (f : ManifestFields) : SyncManifest :=
  let '((version, device), (lastSync, entries)) := f in
  {| sm_version := version; sm_deviceId := device;
     sm_lastSyncTimestamp := lastSync;
     sm_entries := map (fun b => (b.1, ofEntryFields b.2)) entries |}.

Definition manifestText (m : SyncManifest) : string :=
  bitsOf (encode (manifestFields m)).

Definition readManifest (text : string) : option ManifestJson :=
  match ofBits text with
  | Some p => option_map (fun f => Manifest (ofManifestFields f)) (decode p)
  | None => None
  end.

(** The fixture's host with that manifest text. *)
Definition host : Host (list (SessionMetadata * string)) :=
  {| readAllSessionMetadata := readAllSessionMetadata Fixtures.host;
     readSessionContent := readSessionContent Fixtures.host;
     writeSession := writeSession Fixtures.host;
     hashContent := hashContent Fixtures.host;
     decryptFromString := decryptFromString Fixtures.host;
     encryptToString := encryptToString Fixtures.host;
     parseManifest := readManifest;
     parseSessionPayload := parseSessionPayload Fixtures.host;
     stringifyPayload := stringifyPayload Fixtures.host;
     stringifyManifest := manifestText;
     dateNow := dateNow Fixtures.host;
     deviceId := deviceId Fixtures.host;
     currentWorkspaceStorageId := currentWorkspaceStorageId Fixtures.host |}.

(** The fixture's disk before a store that holds nothing yet. *)
Definition world : World (list (SessionMetadata * string)) :=
  with_remote Fixtures.world ∅.

End ManifestCodec.

(** ** SyncEngine: the passphrase and the first run (syncEngine.ts) *)

Module PassphraseSetup.
Import GitHubRepo SyncEngine Encryption.

(** [this.passphrase] and the secret [syncPassphrase]. *)
Record Keys := { held : option string; secret : option string }.

(** What the user does with the dialogs, in order: the answers to the input
    boxes and the buttons clicked on the error messages that offer a choice,
    [None] for a dialog that is dismissed.  A dialog past the end of a list
    is dismissed. *)
Record User := {
  typed : list (option string);
  clicked : list (option string)
}.

Definition setPassphrase (passphrase : string) (k : Keys) : Keys :=
  {| held := Some passphrase; secret := Some passphrase |}.

Definition loadPassphrase (k : Keys) : bool * Keys :=
  match secret k with
  | Some stored =>
      if truthy stored then
        (true, {| held := Some stored; secret := secret k |})
      else (false, k)
  | None => (false, k)
  end.

Definition showInputBox (u : User) : option string * User :=
  match typed u with
  | answer :: rest => (answer, {| typed := rest; clicked := clicked u |})
  | [] => (None, u)
  end.

Definition showErrorMessage (u : User) : option string * User :=
  match clicked u with
  | answer :: rest => (answer, {| typed := typed u; clicked := rest |})
  | [] => (None, u)
  end.

Definition promptForPassphrase (isNewSetup : bool) (k : Keys) (u : User)
    : bool * Keys * User :=
  let '(passphrase, u1) := showInputBox u in
  match passphrase with
  | Some p =>
      if truthy p then
        if isNewSetup then
          let '(confirm, u2) := showInputBox u1 in
          if bool_decide (confirm = Some p) then (true, setPassphrase p k, u2)
          else (false, k, u2)
        else (true, setPassphrase p k, u1)
      else (false, k, u1)
  | None => (false, k, u1)
  end.

Definition maxAttempts : Z := 3.

(** A string a truthiness test lets through. *)
Definition present (o : option string) : option string :=
  if truthy_opt o then o else None.

(** The state [initialize] works on: the keys, the files of the repository,
    the status shown and what the user is going to do. *)
Record Setup := {
  keys : Keys;
  store : gmap string string;
  shown : SyncStatusInfo;
  user : User
}.

Section Setup.
Context (node : Node) (json : EncryptionStrings.Json).

(** [Encryption.verifyPassphrase(this.passphrase!, token)]: on [null] the
    key derivation throws, which [verifyPassphrase] catches. *)
Definition verifyHeld (k : Keys) (verificationToken : string) : bool :=
  match held k with
  | Some p => EncryptionStrings.verifyPassphrase node json p verificationToken
  | None => false
  end.

(** The loop of [promptAndVerifyPassphrase] over the attempts left. *)
Fixpoint verifyAttempts (attempts : list Z) (verificationToken : string)
    (k : Keys) (u : User) : bool * Keys * User :=
  match attempts with
  | [] => (false, k, u)
  | attempt :: rest =>
      let '(success, k1, u1) := promptForPassphrase false k u in
      if success then
        if verifyHeld k1 verificationToken then (true, k1, u1)
        else
          let k2 := {| held := None; secret := None |} in
          if attempt <? maxAttempts then
            let '(retry, u2) := showErrorMessage u1 in
            if bool_decide (retry = Some "Try Again") then
              verifyAttempts rest verificationToken k2 u2
            else (false, k2, u2)
          else verifyAttempts rest verificationToken k2 u1
      else (false, k1, u1)
  end.

Definition promptAndVerifyPassphrase (verificationToken : string)
    (k : Keys) (u : User) : bool * Keys * User :=
  verifyAttempts (seqZ 1 maxAttempts) verificationToken k u.

(** [initialize].  [front] is what comes before the passphrase: [Ok false]
    when the user does not connect to GitHub, [Throw e] when
    [ensureRepo] throws [e]; [now] is the reading of the clock at the end;
    [saltBytes] and [ivBytes] are the random bytes of the token of a first
    setup. *)
Definition initialize (front : Result bool) (net : Network)
    (saltBytes ivBytes : bytes) (now : Z) (s : Setup) : bool * Setup :=
  let ended (result : bool) (status : SyncStatus) (msg : option string)
      (k : Keys) (u : User) (files : gmap string string) :=
    (result,
     {| keys := k; store := files;
        shown := updateStatus now status msg (shown s); user := u |}) in
  let failed (e : JsError) (k : Keys) (u : User) :=
    ended false error (Some ("Error: " ++ message e)) k u (store s) in
  match front with
  | Throw e => failed e (keys s) (user s)
  | Ok false => ended false setup_required None (keys s) (user s) (store s)
  | Ok true =>
      let '(hasPassphrase, k1) := loadPassphrase (keys s) in
      if negb hasPassphrase then
        match getFileContent net (store s) "verification.token" with
        | Throw e => failed e k1 (user s)
        | Ok verificationToken =>
            match present verificationToken with
            | Some token =>
                let '(verified, k2, u2) :=
                  promptAndVerifyPassphrase token k1 (user s) in
                if verified then ended true idle None k2 u2 (store s)
                else ended false setup_required None k2 u2 (store s)
            | None =>
                let '(success, k2, u2) :=
                  promptForPassphrase true k1 (user s) in
                if success then
                  match held k2 with
                  | Some p =>
                      let token :=
                        EncryptionStrings.createVerificationToken node json
                          saltBytes ivBytes p in
                      match
                        putFile net (store s) "verification.token" token
                      with
                      | Ok files => ended true idle None k2 u2 files
                      | Throw e => failed e k2 u2
                      end
                  | None =>
                      failed (Error "The passphrase must be a string.") k2 u2
                  end
                else ended false setup_required None k2 u2 (store s)
            end
        end
      else
        match getFileContent net (store s) "verification.token" with
        | Throw e => failed e k1 (user s)
        | Ok verificationToken =>
            match present verificationToken with
            | Some token =>
                if negb (truthy_opt (held k1)) || negb (verifyHeld k1 token)
                then
                  let '(verified, k2, u2) :=
                    promptAndVerifyPassphrase token
                      {| held := None; secret := None |} (user s) in
                  if verified then ended true idle None k2 u2 (store s)
                  else ended false setup_required None k2 u2 (store s)
                else ended true idle None k1 (user s) (store s)
            | None => ended true idle None k1 (user s) (store s)
            end
        end
  end.

End Setup.

End PassphraseSetup.

(** ** SessionReader: the session index and the listing (sessionReader.ts) *)

Module SessionIndex.
Import SessionReader SessionFiles.

(** An element of [index.entries] when that is an array (the old format),
    as [e.sessionId] meets it. *)
Inductive Element :=
| Null
| NoId
| Id (sessionId : string)
| OtherId.

(** [index.entries], [index] being what [JSON.parse] gives: an object (its
    keys as [Object.keys] lists them), an array, or anything else, which
    includes an [index] that has no such property. *)
Inductive Entries :=
| Dict (keys : list string)
| Items (elements : list Element)
| NoEntries.

(** [state.vscdb] as [readSessionIndexFromDb] meets it: a file that does
    not open as a database or has no [ItemTable]; no row for the key, or one
    with an empty value; a value that [JSON.parse] rejects; [null], of which
    no property can be read; or an index. *)
Inductive StateDb :=
| Unreadable
| NoRow
| Unparsable
| NullIndex
| Index (entries : Entries).

Definition isNull (e : Element) : bool :=
  match e with
  | Null => true
  | _ => false
  end.

(** [entries.map (e => e.sessionId).filter (Boolean)] over elements none of
    which is [null].  [NoId] is an element without a [sessionId], or with
    one that is falsy; a [sessionId] that is truthy and no string
    ([OtherId]) would stay in the list, which then is no list of strings. *)
Definition sessionIdsOf (elements : list Element) : Covered (list string) :=
  gather
    (fun e =>
       match e with
       | Id sessionId => Within (if truthy sessionId then [sessionId] else [])
       | OtherId => Beyond
       | _ => Within []
       end)
    elements.

(** [readSessionIndexFromDb].  Whatever is thrown inside gives [[]]: by the
    database, by [JSON.parse], by [index.entries] on [null] and by
    [e.sessionId] on a [null] element. *)
Definition readSessionIndexFromDb (db : StateDb) : Covered (list string) :=
  match db with
  | Index (Dict keys) => Within keys
  | Index (Items elements) =>
      if existsb isNull elements then Within [] else sessionIdsOf elements
  | _ => Within []
  end.

(** The disk as the reader sees it: the [chatSessions] directories, the
    [state.vscdb] of the workspaces that have one, what [getWorkspacePath]
    gives for a workspace, what [fs.stat] gives for a file of a workspace
    ([mtimeMs], [size]), and the parsers of the first line of a log and of a
    whole JSON file. *)
Record Disk := {
  chatSessions : Storage;
  databases : gmap string StateDb;
  getWorkspacePath : string -> string;
  stat : string -> string -> Z * Z;
  firstEntry : string -> option LogEntry;
  header : string -> option RawHeader
}.

(** What the [try] block of [getSessionIndex] has for [sessionIds]; none
    when there is no [state.vscdb]. *)
Definition indexed (disk : Disk) (workspaceId : string)
    : Covered (list string) :=
  if plainName workspaceId then
    match databases disk !! workspaceId with
    | Some db => readSessionIndexFromDb db
    | None => Within []
    end
  else Beyond.

Definition getSessionIndex (disk : Disk) (workspaceId : string)
    : Covered (list string) :=
  andThen (chatDirOf (chatSessions disk) workspaceId) (fun chatDir =>
  andThen (indexed disk workspaceId) (fun sessionIds =>
  if (0 <? length sessionIds)%nat then Within sessionIds
  else Within (scanChatSessionFiles chatDir))).

(** The file as [extractMinimalMetadata] sees it. *)
Definition fileOf (disk : Disk) (ext : string) (fileContent : option string)
    : SessionFile :=
  if String.eqb ext ".jsonl" then JsonlFile (fileContent ≫= firstEntry disk)
  else JsonFile (fileContent ≫= header disk).

(** [readSessionMetadata], the file name standing for the path. *)
Definition readSessionMetadata (disk : Disk) (workspaceId sessionId : string)
    : Covered (option SessionMetadata) :=
  andThen (resolveSessionFilePath (chatSessions disk) workspaceId sessionId)
    (fun resolved =>
       match resolved with
       | Some (fileName, ext) =>
           Within
             (Some
                (SessionReader.readSessionMetadata
                   {| ss_sessionId := sessionId;
                      ss_workspaceId := workspaceId;
                      ss_workspacePath := getWorkspacePath disk workspaceId;
                      ss_ext := ext;
                      ss_filePath := fileName;
                      ss_mtimeMs := (stat disk workspaceId fileName).1;
                      ss_size := (stat disk workspaceId fileName).2;
                      ss_file :=
                        fileOf disk ext
                          (readFile (chatSessions disk !! workspaceId)
                             fileName) |}))
       | None => Within None
       end).

(** [listWorkspaceIds]: the workspaces with a [chatSessions] directory, in
    the order [readdir] gives. *)
Definition listWorkspaceIds (disk : Disk) : list string :=
  map fst (map_to_list (chatSessions disk)).

(** [excludedWorkspaces.some (excluded => wsPath.startsWith (excluded))] *)
Definition isExcluded (excludedWorkspaces : list string) (wsPath : string)
    : bool :=
  existsb (fun excluded => String.prefix excluded wsPath) excludedWorkspaces.

Definition readAllSessionMetadata (disk : Disk)
    (excludedWorkspaces : list string) : Covered (list SessionMetadata) :=
  gather
    (fun wsId =>
       if isExcluded excludedWorkspaces (getWorkspacePath disk wsId) then
         Within []
       else
         andThen (getSessionIndex disk wsId) (fun sessionIds =>
         gather
           (fun sessionId =>
              andThen (readSessionMetadata disk wsId sessionId) (fun meta =>
              Within
                match meta with
                | Some meta => [meta]
                | None => []
                end))
           sessionIds))
    (listWorkspaceIds disk).

(** A disk with one workspace: two session files, and a database whose
    index is an array of the old format naming the first. *)
Definition sampleDisk : Disk :=
  {| chatSessions :=
       {[ "ws-1" := [("a.jsonl", "{}"); ("b.json", "{}")] ]};
     databases := {[ "ws-1" := Index (Items [Id "a"; NoId]) ]};
     getWorkspacePath := fun workspaceId => "/home/user/project";
     stat := fun workspaceId fileName => (Fixtures.nowMs, 2);
     firstEntry := fun fileContent => None;
     header := fun fileContent => None |}.

(** The record of [a] on the sample disk. *)
Definition sampleMeta : SessionMetadata :=
  {| md_id := "a"; md_workspaceId := "ws-1";
     md_workspacePath := "/home/user/project"; md_fileExtension := ".jsonl";
     md_mtimeMs := Fixtures.nowMs; md_sizeBytes := 2;
     md_filePath := "a.jsonl"; md_customTitle := "Untitled Session";
     md_creationDate := 0; md_lastMessageDate := 0 |}.

End SessionIndex.

(** * Properties *)

(** ** JavaScript values *)

Lemma truthy_true (s : string) : truthy s = true <-> s <> "".
Proof. destruct s; simpl; split; congruence. Qed.

Lemma truthy_false (s : string) : truthy s = false <-> s = "".
Proof. destruct s; simpl; split; congruence. Qed.

(** ** JavaScript maps *)

Module JsMapFacts.
Section Facts.
Context {V : Type}.
Implicit Types (m : JsMap.t V) (k : string) (v : V).

Lemma get_set m k v k' :
  JsMap.get (JsMap.set m k v) k'
  = if String.eqb k k' then Some v else JsMap.get m k'.
Proof.
  induction m as [|[k0 v0] m IH]; simpl; [done|].
  destruct (String.eqb_spec k0 k) as [->|Hne]; simpl.
  - by destruct (String.eqb k k').
  - rewrite IH.
    destruct (String.eqb_spec k0 k'), (String.eqb_spec k k'); congruence.
Qed.

Lemma has_keys m k : JsMap.has m k = bool_decide (k ∈ JsMap.keys m).
Proof.
  unfold JsMap.has, JsMap.keys.
  induction m as [|[k0 v0] m IH]; simpl; [done|].
  destruct (String.eqb_spec k0 k) as [->|Hne].
  - symmetry. apply bool_decide_eq_true. by left.
  - rewrite IH. apply bool_decide_ext. rewrite elem_of_cons.
    split; [by right | by intros [?|?]].
Qed.

(** A loop that sets, for each key of [ids], a value computed from the
    key. *)
Lemma get_fold_set (f : string -> V) (ids : list string) m k :
  JsMap.get (fold_left (fun results i => JsMap.set results i (f i)) ids m) k
  = if bool_decide (k ∈ ids) then Some (f k) else JsMap.get m k.
Proof.
  revert m. induction ids as [|i rest IH]; intros m; simpl.
  - done.
  - rewrite IH, get_set.
    destruct (String.eqb_spec i k) as [->|Hne].
    + rewrite (bool_decide_eq_true_2 (k ∈ k :: rest)) by by left.
      by case_bool_decide.
    + apply (f_equal (fun b : bool => if b then Some (f k) else JsMap.get m k)).
      apply bool_decide_ext. rewrite elem_of_cons. intuition congruence.
Qed.

End Facts.
End JsMapFacts.

(** ** ConflictResolver *)

Module ConflictResolverFacts.
Import ConflictResolver Fixtures Notions.

(** The hash test of the resolver, [localContentHash && localContentHash
    === remote.sha], holds exactly for a non-empty hash equal to the remote
    one. *)
Lemma hash_matches_iff (h : option string) (r : SyncManifestEntry) :
  truthy_opt h && bool_decide (h = Some (me_sha r)) = true
  <-> exists s, h = Some s /\ s <> "" /\ s = me_sha r.
Proof.
  rewrite andb_true_iff, bool_decide_eq_true. split.
  - intros [Ht ->]. exists (me_sha r). simpl in Ht.
    apply truthy_true in Ht. done.
  - intros (s & -> & Hne & ->). split; [by apply truthy_true | done].
Qed.

(** The tie-break test, [localContentHash && localContentHash !==
    remote.sha], holds exactly for a non-empty hash other than the remote
    one. *)
Lemma hash_differs_iff (h : option string) (r : SyncManifestEntry) :
  truthy_opt h && negb (bool_decide (h = Some (me_sha r))) = true
  <-> exists s, h = Some s /\ s <> "" /\ s <> me_sha r.
Proof.
  rewrite andb_true_iff, negb_true_iff, bool_decide_eq_false. split.
  - intros [Ht Hne]. destruct h as [s|]; [|done]. exists s.
    simpl in Ht. apply truthy_true in Ht. split_and!; [done..|congruence].
  - intros (s & -> & Hne & Hd). split; [by apply truthy_true | congruence].
Qed.

(** Formatting two dates returns them when both are in range and throws the
    [RangeError] otherwise. *)
Lemma formatDates_cases (first second : Z) :
  formatDates first second
  = if validTime first && validTime second then Ok (first, second)
    else Throw invalidTime.
Proof.
  unfold formatDates, toISOString.
  by destruct (validTime first), (validTime second).
Qed.

(** [resolve] throws nothing but the [RangeError] of a date out of range,
    and only while it formats the two dates of a session that both sides
    hold with different timestamps. *)
Lemma resolve_thrown (local : option CopilotSession)
    (remote : option SyncManifestEntry) (h : option string) (e : JsError) :
  resolve local remote h = Throw e ->
  e = invalidTime
  /\ exists l r,
       local = Some l /\ remote = Some r
       /\ cs_lastMessageDate l <> me_lastMessageDate r
       /\ validTime (cs_lastMessageDate l)
          && validTime (me_lastMessageDate r) = false.
Proof.
  destruct local as [l|], remote as [r|]; unfold resolve; [|done..].
  destruct (truthy_opt h && bool_decide (h = Some (me_sha r))); [done|].
  cbv zeta.
  destruct (Z.gtb_spec (cs_lastMessageDate l) (me_lastMessageDate r)).
  { rewrite formatDates_cases.
    destruct (validTime _ && validTime _) eqn:Hv; [done|].
    intros [= <-]. split; [done|]. exists l, r.
    split_and!; [done | done | lia | done]. }
  destruct (Z.gtb_spec (me_lastMessageDate r) (cs_lastMessageDate l)).
  { rewrite formatDates_cases.
    destruct (validTime _ && validTime _) eqn:Hv; [done|].
    intros [= <-]. split; [done|]. exists l, r.
    split_and!; [done | done | lia | by rewrite andb_comm]. }
  by destruct (truthy_opt h && negb _).
Qed.


(** And it fails on a date no [Date] can hold: the local session is the
    newer one, by a [lastMessageDate] one millisecond beyond the range, and
    the resolver throws while it formats the reason. *)
Example resolve_far_date_throws :
  cs_lastMessageDate (makeSession 8640000000000001)
  > me_lastMessageDate (makeManifestEntry 2000 "abc123")
  /\ resolve (Some (makeSession 8640000000000001))
       (Some (makeManifestEntry 2000 "abc123")) (Some "different-hash")
     = Throw (RangeError "Invalid time value").
Proof. split; [reflexivity | reflexivity]. Qed.



(** C10: with both sides present and equal timestamps, no local hash
    supplied means [skip]; and whenever such a tie is resolved as [push], a
    local hash was supplied and differs from the remote one. *)
Theorem resolve_tie_without_hash (l : CopilotSession) (r : SyncManifestEntry)
    (h : option string) :
  cs_lastMessageDate l = me_lastMessageDate r ->
  answer (resolve (Some l) (Some r) None) = Ok skip
  /\ (answer (resolve (Some l) (Some r) h) = Ok push ->
      exists s, h = Some s /\ s <> me_sha r).
Proof.
  intros Heq. unfold resolve. cbv zeta. rewrite Heq.
  destruct (Z.gtb_spec (me_lastMessageDate r) (me_lastMessageDate r));
    [lia|].
  split; [reflexivity|].
  destruct (truthy_opt h && bool_decide (h = Some (me_sha r))); [done|].
  destruct (truthy_opt h && negb (bool_decide (h = Some (me_sha r)))) eqn:E;
    [|done].
  intros _. apply hash_differs_iff in E as (s & -> & _ & Hd). eauto.
Qed.

Lemma resolve_tie_without_hash_witness :
  answer
    (resolve (Some (makeSession 2000))
       (Some (makeManifestEntry 2000 "abc123")) None)
  = Ok skip
  /\ (answer
        (resolve (Some (makeSession 2000))
           (Some (makeManifestEntry 2000 "abc123")) (Some "different-hash"))
      = Ok push ->
      exists s, Some "different-hash" = Some s
                /\ s <> me_sha (makeManifestEntry 2000 "abc123")).
Proof.
  apply (resolve_tie_without_hash (makeSession 2000)
           (makeManifestEntry 2000 "abc123") (Some "different-hash")).
  reflexivity.
Defined.

(** The ids [new Set] keeps are those of the list that were not seen. *)
Lemma unique_ids_elem (seen ids : list string) (i : string) :
  i ∈ unique_ids seen ids <-> i ∈ ids /\ i ∉ seen.
Proof.
  revert seen. induction ids as [|j rest IH]; intros seen; simpl.
  - rewrite elem_of_nil. tauto.
  - case_bool_decide as Hseen.
    + rewrite IH, elem_of_cons. intuition (subst; tauto).
    + rewrite !elem_of_cons, IH, elem_of_cons.
      destruct (decide (i = j)); intuition (subst; tauto).
Qed.

Section Loop.
Context (localSessions : JsMap.t CopilotSession).
Context (remoteEntries : JsMap.t SyncManifestEntry).
Context (localHashes : JsMap.t string).

(** What [resolve] is called with for an id. *)
Let resolveAt (id : string) : Result ConflictAction :=
  resolve (JsMap.get localSessions id) (JsMap.get remoteEntries id)
    (JsMap.get localHashes id).

Lemma resolveLoop_thrown (ids : list string) (e : JsError) :
  fold_left (resolveStep localSessions remoteEntries localHashes) ids
    (Throw e)
  = Throw e.
Proof. induction ids as [|i rest IH]; [done | apply IH]. Qed.

(** The loop of [resolveAll] when it returns: every id got the answer of
    [resolve], and the other keys are as they were. *)
Lemma resolveLoop_returned (ids : list string)
    (results actions : JsMap.t ConflictAction) :
  fold_left (resolveStep localSessions remoteEntries localHashes) ids
    (Ok results)
  = Ok actions ->
  forall id,
    if bool_decide (id ∈ ids) then
      exists a, resolveAt id = Ok a /\ JsMap.get actions id = Some a
    else JsMap.get actions id = JsMap.get results id.
Proof.
  revert results. induction ids as [|i rest IH]; intros results; simpl.
  - intros [= <-] id. done.
  - fold (resolveAt i). destruct (resolveAt i) as [a|e] eqn:Hi;
      [|by rewrite resolveLoop_thrown].
    intros Hrest id. specialize (IH _ Hrest id).
    destruct (decide (id ∈ rest)) as [Hin|Hout].
    + rewrite bool_decide_eq_true_2 in IH by done.
      rewrite bool_decide_eq_true_2 by by right. done.
    + rewrite bool_decide_eq_false_2 in IH by done.
      rewrite IH, JsMapFacts.get_set.
      destruct (String.eqb_spec i id) as [->|Hne].
      * rewrite bool_decide_eq_true_2 by by left. eauto.
      * rewrite bool_decide_eq_false_2; [done|].
        rewrite elem_of_cons. intuition congruence.
Qed.

(** The loop throws what [resolve] throws on one of the ids. *)
Lemma resolveLoop_throws (ids : list string)
    (results : JsMap.t ConflictAction) (e : JsError) :
  fold_left (resolveStep localSessions remoteEntries localHashes) ids
    (Ok results)
  = Throw e ->
  exists id, id ∈ ids /\ resolveAt id = Throw e.
Proof.
  revert results. induction ids as [|i rest IH]; intros results; simpl;
    [done|].
  fold (resolveAt i). destruct (resolveAt i) as [a|e'] eqn:Hi.
  - intros Hrest. destruct (IH _ Hrest) as (id & Hin & Hid).
    exists id. split; [by right | done].
  - rewrite resolveLoop_thrown. intros [= <-]. exists i.
    split; [by left | done].
Qed.

(** And it returns when [resolve] returns on each id. *)
Lemma resolveLoop_returns (ids : list string)
    (results : JsMap.t ConflictAction) :
  (forall id, id ∈ ids -> exists a, resolveAt id = Ok a) ->
  exists actions,
    fold_left (resolveStep localSessions remoteEntries localHashes) ids
      (Ok results)
    = Ok actions.
Proof.
  intros Hall.
  destruct (fold_left _ ids (Ok results)) as [actions|e] eqn:Hloop;
    [by eexists|].
  apply resolveLoop_throws in Hloop as (id & Hin & Hid).
  destruct (Hall id Hin) as [a Ha]. congruence.
Qed.

Lemma allIds_elem (id : string) :
  id ∈ unique_ids [] (JsMap.keys localSessions ++ JsMap.keys remoteEntries)
  <-> JsMap.has localSessions id || JsMap.has remoteEntries id = true.
Proof.
  rewrite unique_ids_elem, elem_of_app, elem_of_nil, orb_true_iff.
  rewrite !JsMapFacts.has_keys, !bool_decide_eq_true. tauto.
Qed.

(** What [resolveAll] returns, id by id. *)
Lemma resolveAll_get (actions : JsMap.t ConflictAction) (id : string) :
  resolveAll localSessions remoteEntries localHashes = Ok actions ->
  if JsMap.has localSessions id || JsMap.has remoteEntries id then
    exists a, resolveAt id = Ok a /\ JsMap.get actions id = Some a
  else JsMap.get actions id = None.
Proof.
  intros Hall. apply resolveLoop_returned with (id := id) in Hall.
  destruct (JsMap.has localSessions id || JsMap.has remoteEntries id)
    eqn:Hid.
  - apply allIds_elem in Hid. by rewrite bool_decide_eq_true_2 in Hall.
  - rewrite bool_decide_eq_false_2 in Hall; [done|].
    rewrite allIds_elem. congruence.
Qed.

Lemma resolveAll_returns :
  (forall id, exists a, resolveAt id = Ok a) ->
  exists actions,
    resolveAll localSessions remoteEntries localHashes = Ok actions.
Proof. intros Hall. apply resolveLoop_returns. intros id _. apply Hall. Qed.

(** [resolveAll] has an answer for exactly the ids of either side, and the
    answer is that of [resolve] on what the three maps hold for the id; it
    throws what [resolve] throws on one of these ids, and returns when
    [resolve] returns on all of them. *)
Theorem resolveAll_applies_resolve :
  (forall actions id,
     resolveAll localSessions remoteEntries localHashes = Ok actions ->
     if JsMap.has localSessions id || JsMap.has remoteEntries id then
       exists a,
         resolve (JsMap.get localSessions id) (JsMap.get remoteEntries id)
           (JsMap.get localHashes id)
         = Ok a
         /\ JsMap.get actions id = Some a
     else JsMap.get actions id = None)
  /\ (forall e,
        resolveAll localSessions remoteEntries localHashes = Throw e ->
        exists id,
          JsMap.has localSessions id || JsMap.has remoteEntries id = true
          /\ resolve (JsMap.get localSessions id)
               (JsMap.get remoteEntries id) (JsMap.get localHashes id)
             = Throw e)
  /\ ((forall id,
         JsMap.has localSessions id || JsMap.has remoteEntries id = true ->
         exists a,
           resolve (JsMap.get localSessions id) (JsMap.get remoteEntries id)
             (JsMap.get localHashes id)
           = Ok a) ->
      exists actions,
        resolveAll localSessions remoteEntries localHashes = Ok actions).
Proof.
  split_and!.
  - intros actions id Hall. by apply resolveAll_get.
  - intros e Hall. apply resolveLoop_throws in Hall as (id & Hin & Hid).
    exists id. split; [by apply allIds_elem | done].
  - intros Hall. apply resolveLoop_returns. intros id Hin.
    by apply Hall, allIds_elem.
Qed.

End Loop.

End ConflictResolverFacts.

(** ** SessionReader: the recency filter *)

Module SessionReaderFacts.
Import SessionReader Fixtures.

(** The filter keeps exactly the items whose [lastMessageDate] is at or
    after the cut-off; [creationDate] plays no part. *)
Lemma readRecentSessionMetadata_spec (nowMs maxAgeDays : Z)
    (all : list SessionMetadata) (m : SessionMetadata) :
  In m (readRecentSessionMetadata nowMs maxAgeDays all)
  <-> In m all
      /\ nowMs - maxAgeDays * 24 * 60 * 60 * 1000 <= md_lastMessageDate m.
Proof.
  unfold readRecentSessionMetadata. rewrite List.filter_In.
  rewrite Z.geb_le. reflexivity.
Qed.

(** C4, where the code departs from it: with the default 90 days and the
    clock at 1 700 000 000 000 ms, a session with neither timestamp and a
    session with only a recent creation time are both dropped by
    [readRecentSessionMetadata]. *)
Lemma recent_filter_drops_undated :
  let undated := readSessionMetadata headerless in
  let created := readSessionMetadata createdOnly in
  md_lastMessageDate undated = 0 /\ md_creationDate undated = 0
  /\ md_lastMessageDate created = 0 /\ md_creationDate created = nowMs - 60000
  /\ readRecentSessionMetadata nowMs 90 [undated; created] = [].
Proof. cbv zeta. split_and!; reflexivity. Qed.

(** The earlier revision of the reader keeps both, as the claim says. *)
Lemma readRecentSessions_keeps_undated (nowMs maxAgeDays : Z)
    (all : list CopilotSession) (s : CopilotSession) :
  In s all ->
  (cs_lastMessageDate s = 0 /\ cs_creationDate s = 0)
  \/ (cs_lastMessageDate s = 0
      /\ nowMs - maxAgeDays * 24 * 60 * 60 * 1000 <= cs_creationDate s) ->
  In s (SessionReaderBlob.readRecentSessions nowMs maxAgeDays all).
Proof.
  intros Hin Hs. unfold SessionReaderBlob.readRecentSessions.
  apply List.filter_In. split; [done|].
  destruct Hs as [[-> ->] | [-> Hc]]; simpl; [done|].
  destruct (Z.eqb_spec (cs_creationDate s) 0); simpl; [done|].
  by apply Z.geb_le.
Qed.

End SessionReaderFacts.

(** ** SyncEngine: the hash cache *)

Module HashCacheFacts.
Import SyncEngine Notions.

Section Cache.
Context {Disk : Type} (H : Host Disk).

Lemma getContentHash_miss (disk : Disk) (meta : SessionMetadata)
    (hashCache : gmap string CachedHashEntry) :
  (forall cached, ~ cacheHit meta hashCache cached) ->
  getContentHash H disk meta hashCache
  = match readSessionContent H disk (md_workspaceId meta) (md_id meta) with
    | Some fileContent =>
        if truthy fileContent then
          {| hl_hash := hashContent H fileContent; hl_needsRead := true;
             hl_cache :=
               <[md_id meta :=
                   {| hash := hashContent H fileContent;
                      mtimeMs := md_mtimeMs meta;
                      sizeBytes := md_sizeBytes meta |}]> hashCache;
             hl_reads := [(md_workspaceId meta, md_id meta)] |}
        else
          {| hl_hash := ""; hl_needsRead := false; hl_cache := hashCache;
             hl_reads := [(md_workspaceId meta, md_id meta)] |}
    | None =>
        {| hl_hash := ""; hl_needsRead := false; hl_cache := hashCache;
           hl_reads := [(md_workspaceId meta, md_id meta)] |}
    end.
Proof.
  intros Hmiss. unfold getContentHash.
  destruct (hashCache !! md_id meta) as [cached|] eqn:E; [|done].
  destruct (Z.eqb_spec (mtimeMs cached) (md_mtimeMs meta)); [|done].
  destruct (Z.eqb_spec (sizeBytes cached) (md_sizeBytes meta)); [|done].
  exfalso. by apply (Hmiss cached).
Qed.

(** C7, amended: on a cache entry for the item's identity whose fingerprint
    (size, modification time) equals the metadata's, [getContentHash]
    returns the cached hash with [needsRead = false], reads nothing and
    leaves the cache as it is.  Otherwise it reads the content once; if that
    yields a non-empty content it returns its hash with [needsRead = true]
    and stores hash and fingerprint under the identity; if the content is
    missing or empty it returns the empty hash with [needsRead = false] and
    leaves the cache as it is. *)
Theorem getContentHash_cases (disk : Disk) (meta : SessionMetadata)
    (hashCache : gmap string CachedHashEntry) :
  (forall cached, cacheHit meta hashCache cached ->
     getContentHash H disk meta hashCache
     = {| hl_hash := hash cached; hl_needsRead := false;
          hl_cache := hashCache; hl_reads := [] |})
  /\ ((forall cached, ~ cacheHit meta hashCache cached) ->
      forall fileContent,
        readSessionContent H disk (md_workspaceId meta) (md_id meta)
        = Some fileContent ->
        fileContent <> "" ->
        getContentHash H disk meta hashCache
        = {| hl_hash := hashContent H fileContent; hl_needsRead := true;
             hl_cache :=
               <[md_id meta :=
                   {| hash := hashContent H fileContent;
                      mtimeMs := md_mtimeMs meta;
                      sizeBytes := md_sizeBytes meta |}]> hashCache;
             hl_reads := [(md_workspaceId meta, md_id meta)] |})
  /\ ((forall cached, ~ cacheHit meta hashCache cached) ->
      readSessionContent H disk (md_workspaceId meta) (md_id meta) = None
      \/ readSessionContent H disk (md_workspaceId meta) (md_id meta)
         = Some "" ->
      getContentHash H disk meta hashCache
      = {| hl_hash := ""; hl_needsRead := false; hl_cache := hashCache;
           hl_reads := [(md_workspaceId meta, md_id meta)] |}).
Proof.
  split_and!.
  - intros cached (Hc & Hm & Hs). unfold getContentHash. rewrite Hc.
    rewrite Hm, Hs, !Z.eqb_refl. reflexivity.
  - intros Hmiss fileContent Hread Hne.
    rewrite (getContentHash_miss _ _ _ Hmiss), Hread.
    apply truthy_true in Hne. by rewrite Hne.
  - intros Hmiss Hread. rewrite (getContentHash_miss _ _ _ Hmiss).
    destruct Hread as [-> | ->]; reflexivity.
Qed.

(** Once a session has been hashed, asking again with the same metadata is
    answered from the cache: no read, the same hash, the cache as it is. *)
Theorem getContentHash_again (disk : Disk) (meta : SessionMetadata)
    (hashCache : gmap string CachedHashEntry) :
  let first := getContentHash H disk meta hashCache in
  hl_hash first <> "" ->
  getContentHash H disk meta (hl_cache first)
  = {| hl_hash := hl_hash first; hl_needsRead := false;
       hl_cache := hl_cache first; hl_reads := [] |}.
Proof.
  cbv zeta. unfold getContentHash.
  destruct (hashCache !! md_id meta) as [cached|] eqn:Hc;
    [destruct (Z.eqb (mtimeMs cached) (md_mtimeMs meta)
               && Z.eqb (sizeBytes cached) (md_sizeBytes meta)) eqn:Hf|].
  - intros _. simpl. by rewrite Hc, Hf.
  - destruct (readSessionContent _ _ _ _) as [fileContent|]; [|done].
    destruct (truthy fileContent); [|done].
    intros _. simpl. by rewrite lookup_insert_eq, !Z.eqb_refl.
  - destruct (readSessionContent _ _ _ _) as [fileContent|]; [|done].
    destruct (truthy fileContent); [|done].
    intros _. simpl. by rewrite lookup_insert_eq, !Z.eqb_refl.
Qed.

(** The cache only grows: [getContentHash] drops no identity from it. *)
Theorem getContentHash_keeps_identities (disk : Disk)
    (meta : SessionMetadata) (hashCache : gmap string CachedHashEntry) :
  dom hashCache ⊆ dom (hl_cache (getContentHash H disk meta hashCache)).
Proof.
  unfold getContentHash.
  destruct (hashCache !! md_id meta) as [cached|];
    [destruct (Z.eqb _ _ && Z.eqb _ _); [done|]|];
    (destruct (readSessionContent _ _ _ _) as [fileContent|]; [|done]);
    (destruct (truthy fileContent); [|done]);
    apply dom_insert_subseteq.
Qed.

End Cache.

(** The two cases on the fixture's session: an empty cache makes the engine
    read and hash the file and remember the hash with the file's
    fingerprint; a cache that holds that fingerprint is answered from. *)
Lemma getContentHash_cases_witness :
  let disk := [(Fixtures.localMeta, "local-v2")] in
  let entry hash :=
    {| hash := hash; mtimeMs := Fixtures.nowMs - 500; sizeBytes := 8 |} in
  getContentHash Fixtures.host disk Fixtures.localMeta ∅
  = {| hl_hash := "sha256(local-v2)"; hl_needsRead := true;
       hl_cache := <["s1" := entry "sha256(local-v2)"]> ∅;
       hl_reads := [("ws-1", "s1")] |}
  /\ getContentHash Fixtures.host disk Fixtures.localMeta
       (<["s1" := entry "sha256(local-v1)"]> ∅)
     = {| hl_hash := "sha256(local-v1)"; hl_needsRead := false;
          hl_cache := <["s1" := entry "sha256(local-v1)"]> ∅;
          hl_reads := [] |}.
Proof.
  intros disk entry. split.
  - refine
      (proj1 (proj2
         (getContentHash_cases Fixtures.host disk Fixtures.localMeta ∅))
         _ "local-v2" _ _).
    + intros cached [Hc _]. vm_compute in Hc. discriminate.
    + reflexivity.
    + discriminate.
  - refine
      (proj1
         (getContentHash_cases Fixtures.host disk Fixtures.localMeta
            (<["s1" := entry "sha256(local-v1)"]> ∅))
         (entry "sha256(local-v1)") _).
    split_and!; vm_compute; reflexivity.
Defined.

(** The fixture's session hashed twice: the second call reads nothing. *)
Lemma getContentHash_again_witness :
  let disk := [(Fixtures.localMeta, "local-v2")] in
  let first := getContentHash Fixtures.host disk Fixtures.localMeta ∅ in
  getContentHash Fixtures.host disk Fixtures.localMeta (hl_cache first)
  = {| hl_hash := "sha256(local-v2)"; hl_needsRead := false;
       hl_cache := hl_cache first; hl_reads := [] |}.
Proof.
  cbv zeta.
  rewrite (getContentHash_again Fixtures.host
             [(Fixtures.localMeta, "local-v2")] Fixtures.localMeta ∅)
    by (vm_compute; discriminate).
  reflexivity.
Defined.

(** C7, as stated, fails: the cache has no entry for the session and its
    file cannot be read, so nothing is hashed or stored and [needsRead] is
    [false]. *)
Lemma getContentHash_unreadable_content :
  (∅ : gmap string CachedHashEntry) !! md_id Fixtures.localMeta = None
  /\ readSessionContent Fixtures.host [] "ws-1" "s1" = None
  /\ getContentHash Fixtures.host [] Fixtures.localMeta ∅
     = {| hl_hash := ""; hl_needsRead := false; hl_cache := ∅;
          hl_reads := [("ws-1", "s1")] |}.
Proof. split_and!; reflexivity. Qed.

End HashCacheFacts.

(** ** SyncEngine: staging, commit and the cycle *)

Module SyncEngineFacts.
Import GitHubRepo SyncEngine Notions.

Lemma string_length_app (s1 s2 : string) :
  String.length (s1 ++ s2) = (String.length s1 + String.length s2)%nat.
Proof. induction s1 as [|a s1 IH]; simpl; [done | by rewrite IH]. Qed.

(** A backup path is never the live path of the same session. *)
Lemma backupPath_not_sessionPath (timestamp : Z) (sessionId : string) :
  ConflictResolver.backupPath timestamp sessionId <> sessionPath sessionId.
Proof.
  unfold ConflictResolver.backupPath, sessionPath. intros Heq.
  apply (f_equal String.length) in Heq.
  rewrite !string_length_app in Heq. simpl in Heq. lia.
Qed.

Section Staging.
Context {Disk : Type} (H : Host Disk) (net : Network).
Context (pass : string) (remote : gmap string string) (disk : Disk).
Context (remoteMap : JsMap.t SyncManifestEntry).

Lemma backupOf_storedCopy (timestamp : Z) (item : PushItem) :
  backupOf net remote remoteMap timestamp item
  = option_map
      (fun c =>
         {| path := ConflictResolver.backupPath timestamp (pi_sessionId item);
            content := c |})
      (storedCopy net remote remoteMap item).
Proof.
  unfold backupOf, storedCopy.
  destruct (bool_decide _ && JsMap.has _ _); [|done].
  destruct (getFileContent _ _ _) as [[c|]|]; [|done..].
  by destruct (truthy c).
Qed.

Lemma storedCopy_spec (item : PushItem) (c : string) :
  storedCopy net remote remoteMap item = Some c
  <-> ConflictResolver.action (pi_action item) = ConflictResolver.push
      /\ JsMap.has remoteMap (pi_sessionId item) = true
      /\ getFileContent net remote (sessionPath (pi_sessionId item))
         = Ok (Some c)
      /\ c <> "".
Proof.
  unfold storedCopy. split.
  - destruct (bool_decide _ && JsMap.has _ _) eqn:E; [|done].
    apply andb_true_iff in E as [Ha Hh]. apply bool_decide_eq_true in Ha.
    destruct (getFileContent _ _ _) as [[c'|]|]; [|done..].
    destruct (truthy c') eqn:Ht; [|done].
    intros [= ->]. by apply truthy_true in Ht.
  - intros (Ha & Hh & -> & Hne). rewrite Hh.
    rewrite bool_decide_eq_true_2 by done. simpl.
    apply truthy_true in Hne. by rewrite Hne.
Qed.

(** One turn of the staging loop: what it adds to the two lists. *)
Lemma stageSession_lists (st : Staging) (item : PushItem) :
  let st' := stageSession H net pass remote disk remoteMap st item in
  st_backupFiles st'
  = (st_backupFiles st
     ++ if staged H disk item then
          match
            backupOf net remote remoteMap (dateNow H (st_ticks st)) item
          with
          | Some b => [b]
          | None => []
          end
        else [])%list
  /\ map path (st_filesToPush st')
     = (map path (st_filesToPush st)
        ++ if staged H disk item then [sessionPath (pi_sessionId item)]
           else [])%list.
Proof.
  cbv zeta. unfold stageSession, staged.
  destruct (readSessionContent _ _ _ _) as [rawContent|];
    [|by rewrite !app_nil_r].
  destruct (truthy rawContent); [|by rewrite !app_nil_r].
  simpl. by rewrite map_app.
Qed.

(** The backups the staging loop adds, item by item. *)
Lemma stageAll_backedUp (toPush : list PushItem) (st : Staging) :
  exists backups,
    st_backupFiles (stageAll H net pass remote disk remoteMap toPush st)
    = (st_backupFiles st ++ backups)%list
    /\ Forall2
         (fun item b =>
            exists tickNo existingContent,
              getFileContent net remote (sessionPath (pi_sessionId item))
              = Ok (Some existingContent)
              /\ existingContent <> ""
              /\ b = {| path :=
                          ConflictResolver.backupPath (dateNow H tickNo)
                            (pi_sessionId item);
                        content := existingContent |}
              /\ path b <> sessionPath (pi_sessionId item))
         (List.filter (backedUp H net remote disk remoteMap) toPush) backups.
Proof.
  revert st. induction toPush as [|item rest IH]; intros st.
  - exists []. simpl. rewrite app_nil_r. split; [done | constructor].
  - unfold stageAll in *. simpl.
    destruct (IH (stageSession H net pass remote disk remoteMap st item))
      as (backups & Heq & Hall).
    destruct (stageSession_lists st item) as [Hb _]. cbv zeta in Hb.
    rewrite Heq, Hb, backupOf_storedCopy. unfold backedUp.
    destruct (staged H disk item); simpl.
    + destruct (storedCopy net remote remoteMap item) as [c|] eqn:Hc; simpl.
      * eexists (_ :: backups). rewrite <- app_assoc. split; [done|].
        constructor; [|done].
        apply storedCopy_spec in Hc as (_ & _ & Hget & Hne).
        exists (st_ticks st), c. split_and!; [done..|].
        apply backupPath_not_sessionPath.
      * exists backups. by rewrite app_nil_r.
    + exists backups. by rewrite app_nil_r.
Qed.

(** The session objects the staging loop adds: one for each item whose
    content it reads, at the live path of the item, holding the payload of
    that content encrypted. *)
Lemma stageAll_sessionFiles (toPush : list PushItem) (st : Staging) :
  exists sessionFiles,
    st_filesToPush (stageAll H net pass remote disk remoteMap toPush st)
    = (st_filesToPush st ++ sessionFiles)%list
    /\ Forall2
         (fun item file =>
            path file = sessionPath (pi_sessionId item)
            /\ exists encryptionNo rawContent,
                 readSessionContent H disk (md_workspaceId (pi_meta item))
                   (pi_sessionId item)
                 = Some rawContent
                 /\ rawContent <> ""
                 /\ content file
                    = encryptToString H pass encryptionNo
                        (stringifyPayload H
                           (EngineNotions.payloadOf item rawContent)))
         (List.filter (staged H disk) toPush) sessionFiles.
Proof.
  revert st. induction toPush as [|item rest IH]; intros st.
  - exists []. simpl. rewrite app_nil_r. split; [done | constructor].
  - unfold stageAll in *. simpl.
    destruct (IH (stageSession H net pass remote disk remoteMap st item))
      as (sessionFiles & Heq & Hall).
    rewrite Heq. unfold stageSession, staged.
    destruct (readSessionContent _ _ _ _) as [rawContent|] eqn:Hread;
      [|by exists sessionFiles].
    destruct (truthy rawContent) eqn:Ht; [|by exists sessionFiles].
    simpl. eexists (_ :: sessionFiles). rewrite <- app_assoc.
    split; [reflexivity|]. constructor; [|done].
    split; [reflexivity|]. exists (st_encryptions st), rawContent.
    split_and!; [done | by apply truthy_true | reflexivity].
Qed.

(** C5, amended: the staging loop of a push takes exactly one backup for
    every item it stages whose action is [push], whose identity the remote
    manifest lists and whose stored object is fetched without error and is
    not empty, and none for any other item: the backups added correspond,
    one to one and in order, to those items; each holds the stored content
    of its item, at [sessions/backups/<id>.backup-<clock reading>.enc],
    which is not the item's live path; and all of them are handed to the
    commit together with the live objects. *)
Theorem staging_backs_up_fetched_copies (toPush : list PushItem)
    (st : Staging) :
  exists backups,
    st_backupFiles (stageAll H net pass remote disk remoteMap toPush st)
    = (st_backupFiles st ++ backups)%list
    /\ Forall2
         (fun item b =>
            exists tickNo existingContent,
              getFileContent net remote (sessionPath (pi_sessionId item))
              = Ok (Some existingContent)
              /\ existingContent <> ""
              /\ b = {| path :=
                          ConflictResolver.backupPath (dateNow H tickNo)
                            (pi_sessionId item);
                        content := existingContent |}
              /\ path b <> sessionPath (pi_sessionId item))
         (List.filter (backedUp H net remote disk remoteMap) toPush) backups
    /\ (forall b, In b backups ->
          In b
            (filesToCommit H pass
               (stageAll H net pass remote disk remoteMap toPush st))).
Proof.
  destruct (stageAll_backedUp toPush st) as (backups & Heq & Hall).
  exists backups. split_and!; [done..|].
  intros b Hin. unfold filesToCommit. rewrite Heq, !in_app_iff. auto.
Qed.

End Staging.

(** C5, as stated, fails: the local copy of [s1] is newer than the one the
    manifest lists (action [push]) and an object is stored for it, but the
    request for that object is answered with an error; the push goes on
    ("best effort backup") and overwrites the stored object in a commit that
    holds no backup. *)
Lemma push_overwrites_without_backup :
  answer
    (ConflictResolver.resolve
       (Some (sessionOfMetadata Fixtures.localMeta))
       (JsMap.get (sm_entries Fixtures.remoteManifest) "s1")
       (Some "sha256(local-v2)"))
  = Ok ConflictResolver.push
  /\ w_remote Fixtures.world !! "sessions/s1.enc"
     = Some "enc(pw)payload:remote-v1"
  /\ exists w',
       pushToRemote Fixtures.host Fixtures.config Fixtures.sessionUnreadable
         (Some "pw") Fixtures.world
       = Returned w'
       /\ w_trace w'
          = [BatchCommitted
               [{| path := "sessions/s1.enc";
                   content := "enc(pw)payload:local-v2" |};
                {| path := "manifest.json";
                   content := "enc(pw)manifest-v2" |}]]
       /\ w_remote w' !! "sessions/s1.enc" = Some "enc(pw)payload:local-v2".
Proof.
  split_and!; [vm_compute; reflexivity | vm_compute; reflexivity |].
  eexists. split; [vm_compute; reflexivity|].
  split; vm_compute; reflexivity.
Qed.

(** *** The commit *)

Section Commit.
Context {Disk : Type}.

Lemma afterPuts_remote (files : list RepoFile) (w : World Disk) :
  w_remote (afterPuts files w) = overlay (w_remote w) files [].
Proof.
  unfold overlay, afterPuts. simpl. revert w.
  induction files as [|file rest IH]; intros w; [done|].
  simpl. by rewrite IH.
Qed.

Lemma afterPuts_trace (files : list RepoFile) (w : World Disk) :
  w_trace (afterPuts files w) = (w_trace w ++ map FilePut files)%list.
Proof.
  unfold afterPuts. revert w.
  induction files as [|file rest IH]; intros w; simpl.
  - by rewrite app_nil_r.
  - rewrite IH. simpl. by rewrite <- app_assoc.
Qed.

(** When every request of the loop is answered, [putAll] puts every file. *)
Lemma putAll_all_accepted (net : Network) (files : list RepoFile)
    (w : World Disk) :
  (forall file, In file files ->
     get_fails net (path file) = false /\ put_fails net (path file) = false) ->
  putAll net files w = Returned (afterPuts files w).
Proof.
  revert w. induction files as [|file rest IH]; intros w Hok; [done|].
  simpl. unfold putFile.
  destruct (Hok file) as [-> ->]; [by left|].
  apply IH. intros f Hf. apply Hok. by right.
Qed.

(** The [try]/[catch] around [batchCommit]: when the commit is refused the
    files go through [putFile] one by one, in order, and leave the branch as
    the commit would have. *)
Lemma commitFiles_fallback (refusing accepting : Network)
    (files : list RepoFile) (w : World Disk) :
  files <> [] ->
  batch_fails refusing = true ->
  batch_fails accepting = false ->
  (forall file, In file files ->
     get_fails refusing (path file) = false
     /\ put_fails refusing (path file) = false) ->
  commitFiles refusing files w = Returned (afterPuts files w)
  /\ commitFiles accepting files w
     = Returned
         (emit (with_remote w (overlay (w_remote w) files []))
            (BatchCommitted files)).
Proof.
  intros Hne Hrefuse Haccept Hputs.
  unfold commitFiles, batchCommit. rewrite Hrefuse, Haccept.
  destruct files as [|file rest]; [done|].
  split; [by apply putAll_all_accepted | reflexivity].
Qed.

End Commit.

(** The sequential puts, however they end: what was put is a front part of
    the list, written over the branch in order. *)
Lemma putAll_outcome {Disk : Type} (net : Network) (files : list RepoFile)
    (w : World Disk) :
  exists done,
    (exists rest, files = done ++ rest)%list
    /\ EngineNotions.after (putAll net files w) = afterPuts done w.
Proof.
  revert w. induction files as [|file rest IH]; intros w.
  - exists []. split; [by exists [] | done].
  - simpl.
    destruct (putFile net (w_remote w) (path file) (content file))
      as [remote'|e] eqn:Hput.
    + destruct (IH (emit (with_remote w remote') (FilePut file)))
        as (done & [rest' ->] & Hafter).
      exists (file :: done). split; [by exists rest'|].
      rewrite Hafter. unfold afterPuts. simpl.
      unfold putFile in Hput.
      destruct (get_fails net (path file)); [done|].
      destruct (put_fails net (path file)); [done|].
      by injection Hput as <-.
    + exists []. split; [by eexists | done].
Qed.

(** *** Reading the manifest *)

(** [getRemoteManifest] throws only when the request for the manifest
    does. *)
Lemma getRemoteManifest_answers {Disk : Type} (H : Host Disk) (net : Network)
    (passphrase : option string) (w : World Disk) :
  get_fails net "manifest.json" = false ->
  exists manifest, getRemoteManifest H net passphrase w = Ok manifest.
Proof.
  intros Hget. unfold getRemoteManifest, getFileContent. rewrite Hget.
  destruct passphrase as [pass|]; [|by eexists].
  destruct (truthy pass); [|by eexists].
  destruct (w_remote w !! "manifest.json") as [c|]; [|by eexists].
  destruct (truthy c); [|by eexists].
  destruct (decryptFromString H c pass) as [decrypted|]; [|by eexists].
  destruct (parseManifest H decrypted); by eexists.
Qed.

(** And then what it throws is the error of that request, whatever the
    state. *)
Lemma getRemoteManifest_unreachable {Disk : Type} (H : Host Disk)
    (net : Network) (pass : string) (w : World Disk) :
  pass <> "" ->
  get_fails net "manifest.json" = true ->
  getRemoteManifest H net (Some pass) w
  = Throw (api_error "GET" "manifest.json").
Proof.
  intros Hpass Hget. unfold getRemoteManifest, getFileContent.
  apply truthy_true in Hpass. by rewrite Hpass, Hget.
Qed.

(** *** A push whose batch commit is refused *)

Section Fallback.
Context {Disk : Type} (H : Host Disk) (cfg : Config).
Context (refusing accepting : Network) (pass : string).

(** The two stores differ in the batch commit only: every other request is
    answered by both. *)
Hypothesis batch_refused : batch_fails refusing = true.
Hypothesis batch_accepted : batch_fails accepting = false.
Hypothesis gets_answered :
  forall p, get_fails refusing p = false /\ get_fails accepting p = false.
Hypothesis puts_answered : forall p, put_fails refusing p = false.

Lemma getFileContent_agree (store : gmap string string) (p : string) :
  getFileContent refusing store p = getFileContent accepting store p.
Proof.
  unfold getFileContent. by destruct (gets_answered p) as [-> ->].
Qed.

Lemma getRemoteManifest_agree (w : World Disk) :
  getRemoteManifest H refusing (Some pass) w
  = getRemoteManifest H accepting (Some pass) w.
Proof. unfold getRemoteManifest. by rewrite getFileContent_agree. Qed.

Lemma stageAll_agree (remote : gmap string string) (disk : Disk)
    (remoteMap : JsMap.t SyncManifestEntry) (toPush : list PushItem)
    (st : Staging) :
  stageAll H refusing pass remote disk remoteMap toPush st
  = stageAll H accepting pass remote disk remoteMap toPush st.
Proof.
  unfold stageAll. revert st.
  induction toPush as [|item rest IH]; intros st; [done|].
  simpl. rewrite IH. f_equal.
  unfold stageSession, backupOf. by rewrite getFileContent_agree.
Qed.

Lemma filesToCommit_not_empty (st : Staging) : filesToCommit H pass st <> [].
Proof.
  unfold filesToCommit. intros Heq.
  apply (f_equal (@length RepoFile)) in Heq.
  rewrite !length_app in Heq. simpl in Heq. lia.
Qed.

(** Steps 3 to 9 under the two stores: the refused push puts, one by one,
    the files the staging loop left, which the accepted push commits; and
    when the accepted push throws, before the commit, so does the other. *)
Lemma pushWithManifest_fallback (manifest : SyncManifest)
    (metadata : list SessionMetadata) (w : World Disk) :
  let st := PushNotions.stagingOf H refusing pass manifest metadata w in
  let files :=
    match st_filesToPush st with
    | [] => []
    | _ => filesToCommit H pass st
    end in
  match pushWithManifest H accepting (Some pass) manifest metadata w with
  | Returned viaBatch =>
      exists viaPuts,
        pushWithManifest H refusing (Some pass) manifest metadata w
        = Returned viaPuts
        /\ w_trace viaPuts = (w_trace w ++ map FilePut files)%list
        /\ w_trace viaBatch
           = (w_trace w
              ++ match files with
                 | [] => []
                 | _ => [BatchCommitted files]
                 end)%list
        /\ w_remote viaPuts = w_remote viaBatch
        /\ w_remote viaPuts = overlay (w_remote w) files []
  | Thrown e w' =>
      pushWithManifest H refusing (Some pass) manifest metadata w
      = Thrown e w'
      /\ files = []
      /\ w_trace w' = w_trace w
  end.
Proof.
  unfold pushWithManifest, PushNotions.stagingOf.
  destruct (hashAll H (w_disk w) (w_hashCache w) metadata)
    as [[hashCache localHashes] localMap].
  destruct (ConflictResolver.resolveAll _ _ _) as [actions|e]; [|done].
  destruct (collectToPush _ _ _) as [|item rest].
  { exists (with_hashCache w hashCache). simpl. by rewrite app_nil_r. }
  simpl w_remote. simpl w_disk. simpl w_ticks.
  rewrite stageAll_agree.
  set (st := stageAll H accepting pass _ _ _ _ _).
  destruct (st_filesToPush st) as [|f fs] eqn:Hstaged.
  { cbv zeta.
    exists (with_ticks (with_hashCache w hashCache) (st_ticks st)).
    simpl. by rewrite app_nil_r. }
  cbv zeta.
  set (w1 := with_ticks (with_hashCache w hashCache) (S (st_ticks st))).
  destruct (commitFiles_fallback refusing accepting (filesToCommit H pass st)
              w1) as [-> ->];
    [apply filesToCommit_not_empty | done | done | |].
  { intros file _. split; [apply gets_answered | apply puts_answered]. }
  eexists. split_and!; [reflexivity | | | |].
  - unfold withSessionCount. simpl. by rewrite afterPuts_trace.
  - pose proof (filesToCommit_not_empty st).
    by destruct (filesToCommit H pass st).
  - unfold withSessionCount. simpl. by rewrite afterPuts_remote.
  - unfold withSessionCount. simpl. by rewrite afterPuts_remote.
Qed.

(** The state a push goes on from, once it has settled on a manifest, is
    the state it started in but for the clock. *)
Lemma settled_state (net : Network) (w w0 : World Disk)
    (manifest : SyncManifest) :
  PushNotions.settled H cfg net pass w = Some (manifest, w0) ->
  w_disk w0 = w_disk w /\ w_remote w0 = w_remote w
  /\ w_trace w0 = w_trace w.
Proof.
  unfold PushNotions.settled.
  destruct (pushable H cfg w); [done|].
  destruct (getRemoteManifest H net (Some pass) (tick w)) as [[| |m]|e];
    [|done| |done]; by intros [= _ <-].
Qed.

(** The files handed to the commit are what the staging loop made of the
    sessions to push: the objects of the sessions whose content was read,
    the manifest, and the backups of the stored copies that were fetched. *)
Lemma committed_staged (net : Network) (w : World Disk) :
  match PushNotions.settled H cfg net pass w with
  | None => PushNotions.committed H cfg net pass w = []
  | Some (manifest, _) =>
      PushNotions.committed H cfg net pass w = []
      \/ exists sessionFiles manifestFile backups,
           PushNotions.committed H cfg net pass w
           = (sessionFiles ++ [manifestFile] ++ backups)%list
           /\ sessionFiles <> []
           /\ Forall2
                (fun item file =>
                   path file = sessionPath (pi_sessionId item)
                   /\ exists encryptionNo rawContent,
                        readSessionContent H (w_disk w)
                          (md_workspaceId (pi_meta item)) (pi_sessionId item)
                        = Some rawContent
                        /\ rawContent <> ""
                        /\ content file
                           = encryptToString H pass encryptionNo
                               (stringifyPayload H
                                  (EngineNotions.payloadOf item rawContent)))
                (List.filter (staged H (w_disk w))
                   (PushNotions.toPushOf H cfg net pass w))
                sessionFiles
           /\ path manifestFile = "manifest.json"
           /\ Forall2
                (fun item b =>
                   exists tickNo existingContent,
                     getFileContent net (w_remote w)
                       (sessionPath (pi_sessionId item))
                     = Ok (Some existingContent)
                     /\ existingContent <> ""
                     /\ b = {| path :=
                                 ConflictResolver.backupPath
                                   (dateNow H tickNo) (pi_sessionId item);
                               content := existingContent |}
                     /\ path b <> sessionPath (pi_sessionId item))
                (List.filter
                   (backedUp H net (w_remote w) (w_disk w)
                      (sm_entries manifest))
                   (PushNotions.toPushOf H cfg net pass w))
                backups
  end.
Proof.
  unfold PushNotions.committed, PushNotions.toPushOf.
  destruct (PushNotions.settled H cfg net pass w) as [[manifest w0]|]
    eqn:Hsettled; [|done].
  apply settled_state in Hsettled as (Hdisk & Hremote & _).
  unfold PushNotions.stagingOf. rewrite Hdisk, Hremote.
  destruct (hashAll H (w_disk w) (w_hashCache w0) (pushable H cfg w))
    as [[hashCache localHashes] localMap].
  destruct (ConflictResolver.resolveAll _ _ _) as [actions|e];
    [|by left].
  cbv zeta.
  set (initial := {| st_filesToPush := []; st_backupFiles := [];
                     st_manifest := manifest; st_ticks := w_ticks w0;
                     st_encryptions := 0 |}).
  set (toPush := collectToPush _ _ _).
  destruct (stageAll_sessionFiles H net pass (w_remote w) (w_disk w)
              (sm_entries manifest) toPush initial)
    as (sessionFiles & Hfiles & Hsessions).
  destruct (stageAll_backedUp H net pass (w_remote w) (w_disk w)
              (sm_entries manifest) toPush initial)
    as (backups & Hbackups & Hcopies).
  simpl in Hfiles, Hbackups.
  destruct (st_filesToPush (stageAll _ _ _ _ _ _ _ _)) as [|f fs] eqn:Hst;
    [by left|].
  right. eexists sessionFiles, _, backups.
  unfold filesToCommit. rewrite Hst, Hfiles, Hbackups.
  split_and!; [reflexivity | by rewrite <- Hfiles | done | done | done].
Qed.

(** C6: when [batchCommit] fails during a push, every file the push staged
    is written by its own [putFile], in the order of the list handed to the
    commit: the objects of the sessions whose content was read, the
    manifest, the backups.  The store accepting each of them, the push
    returns and the files of the branch, the manifest among them, are those
    the push leaves when the batch commit succeeds; and when that push
    throws, before it commits, the refused one throws the same, nothing
    written. *)
Theorem fallback_writes_what_batch_writes (w : World Disk) :
  let files := PushNotions.committed H cfg refusing pass w in
  match pushToRemote H cfg accepting (Some pass) w with
  | Returned viaBatch =>
      exists viaPuts,
        pushToRemote H cfg refusing (Some pass) w = Returned viaPuts
        /\ w_trace viaPuts = (w_trace w ++ map FilePut files)%list
        /\ w_trace viaBatch
           = (w_trace w
              ++ match files with
                 | [] => []
                 | _ => [BatchCommitted files]
                 end)%list
        /\ w_remote viaPuts = w_remote viaBatch
        /\ w_remote viaPuts = overlay (w_remote w) files []
        /\ w_remote viaPuts !! "manifest.json"
           = w_remote viaBatch !! "manifest.json"
  | Thrown e w' =>
      pushToRemote H cfg refusing (Some pass) w = Thrown e w'
      /\ files = []
      /\ w_trace w' = w_trace w
  end
  /\ match PushNotions.settled H cfg refusing pass w with
     | None => files = []
     | Some (manifest, _) =>
         files = []
         \/ exists sessionFiles manifestFile backups,
              files = (sessionFiles ++ [manifestFile] ++ backups)%list
              /\ sessionFiles <> []
              /\ Forall2
                   (fun item file =>
                      path file = sessionPath (pi_sessionId item)
                      /\ exists encryptionNo rawContent,
                           readSessionContent H (w_disk w)
                             (md_workspaceId (pi_meta item))
                             (pi_sessionId item)
                           = Some rawContent
                           /\ rawContent <> ""
                           /\ content file
                              = encryptToString H pass encryptionNo
                                  (stringifyPayload H
                                     (EngineNotions.payloadOf item
                                        rawContent)))
                   (List.filter (staged H (w_disk w))
                      (PushNotions.toPushOf H cfg refusing pass w))
                   sessionFiles
              /\ path manifestFile = "manifest.json"
              /\ Forall2
                   (fun item b =>
                      exists tickNo existingContent,
                        getFileContent refusing (w_remote w)
                          (sessionPath (pi_sessionId item))
                        = Ok (Some existingContent)
                        /\ existingContent <> ""
                        /\ b = {| path :=
                                    ConflictResolver.backupPath
                                      (dateNow H tickNo) (pi_sessionId item);
                                  content := existingContent |}
                        /\ path b <> sessionPath (pi_sessionId item))
                   (List.filter
                      (backedUp H refusing (w_remote w) (w_disk w)
                         (sm_entries manifest))
                      (PushNotions.toPushOf H cfg refusing pass w))
                   backups
     end.
Proof.
  cbv zeta. split; [|apply committed_staged].
  assert (Hcore :
    match pushToRemote H cfg accepting (Some pass) w with
    | Returned viaBatch =>
        exists viaPuts,
          pushToRemote H cfg refusing (Some pass) w = Returned viaPuts
          /\ w_trace viaPuts
             = (w_trace w
                ++ map FilePut
                     (PushNotions.committed H cfg refusing pass w))%list
          /\ w_trace viaBatch
             = (w_trace w
                ++ match PushNotions.committed H cfg refusing pass w with
                   | [] => []
                   | _ =>
                       [BatchCommitted
                          (PushNotions.committed H cfg refusing pass w)]
                   end)%list
          /\ w_remote viaPuts = w_remote viaBatch
          /\ w_remote viaPuts
             = overlay (w_remote w)
                 (PushNotions.committed H cfg refusing pass w) []
    | Thrown e w' =>
        pushToRemote H cfg refusing (Some pass) w = Thrown e w'
        /\ PushNotions.committed H cfg refusing pass w = []
        /\ w_trace w' = w_trace w
    end).
  { unfold pushToRemote, PushNotions.committed, PushNotions.settled, pushable.
    cbv zeta.
    destruct (List.filter _ _) as [|m rest].
    { exists (tick w). simpl. by rewrite app_nil_r. }
    rewrite getRemoteManifest_agree.
    destruct (getRemoteManifest H accepting (Some pass) (tick w))
      as [[| |manifest]|e]; [| done | | done].
    - apply (pushWithManifest_fallback (freshManifest H (now H (tick w)))
               (m :: rest) (tick (tick w))).
    - apply (pushWithManifest_fallback manifest (m :: rest) (tick w)). }
  destruct (pushToRemote H cfg accepting (Some pass) w) as [viaBatch|e w'];
    [|done].
  destruct Hcore as (viaPuts & Hputs & Htrace & Hbatch & Hremote & Hfiles).
  exists viaPuts. split_and!; [done.. | by rewrite Hremote].
Qed.

End Fallback.

(** The fixture's push, the batch commit refused and every single file
    accepted: the stored copy of [s1] is backed up, and the three files are
    put one by one. *)
Lemma fallback_writes_what_batch_writes_witness :
  let files :=
    PushNotions.committed Fixtures.host Fixtures.config Fixtures.batchRefused
      "pw" Fixtures.world in
  match
    pushToRemote Fixtures.host Fixtures.config Fixtures.calm (Some "pw")
      Fixtures.world
  with
  | Returned viaBatch =>
      exists viaPuts,
        pushToRemote Fixtures.host Fixtures.config Fixtures.batchRefused
          (Some "pw") Fixtures.world
        = Returned viaPuts
        /\ w_trace viaPuts
           = (w_trace Fixtures.world ++ map FilePut files)%list
        /\ w_trace viaBatch
           = (w_trace Fixtures.world
              ++ match files with
                 | [] => []
                 | _ => [BatchCommitted files]
                 end)%list
        /\ w_remote viaPuts = w_remote viaBatch
        /\ w_remote viaPuts = overlay (w_remote Fixtures.world) files []
        /\ w_remote viaPuts !! "manifest.json"
           = w_remote viaBatch !! "manifest.json"
  | Thrown e w' =>
      pushToRemote Fixtures.host Fixtures.config Fixtures.batchRefused
        (Some "pw") Fixtures.world
      = Thrown e w'
      /\ files = []
      /\ w_trace w' = w_trace Fixtures.world
  end.
Proof.
  apply (fallback_writes_what_batch_writes Fixtures.host Fixtures.config
           Fixtures.batchRefused Fixtures.calm "pw").
  - reflexivity.
  - reflexivity.
  - intros p. split; reflexivity.
  - intros p. reflexivity.
Defined.

(** What that push stages and puts. *)
Example committed_run :
  map path
    (PushNotions.committed Fixtures.host Fixtures.config Fixtures.batchRefused
       "pw" Fixtures.world)
  = ["sessions/s1.enc"; "manifest.json";
     "sessions/backups/s1.backup-1700000000001.enc"].
Proof. vm_compute. reflexivity. Qed.

(** *** The cycle *)

Section Cycle.
Context {Disk : Type} (H : Host Disk) (cfg : Config) (net : Network).

Lemma getRemoteManifest_unreadable (pass : string) (w : World Disk) :
  pass <> "" ->
  get_fails net "manifest.json" = false ->
  manifestUnreadable H pass (w_remote w) ->
  getRemoteManifest H net (Some pass) w = Ok Falsy.
Proof.
  intros Hpass Hget Hbad. unfold getRemoteManifest, getFileContent.
  apply truthy_true in Hpass. rewrite Hpass, Hget.
  destruct Hbad as [-> | [-> | (c & -> & Hc)]]; [done..|].
  destruct (truthy c); [|done].
  destruct Hc as [-> | (d & -> & [-> | ->])]; done.
Qed.

(** What [sync] shows when the cycle threw the error of the request for the
    manifest. *)
Lemma finishCycle_unreachable (w : World Disk) :
  let ended :=
    finishCycle H (Thrown (api_error "GET" "manifest.json") w) in
  status (w_status ended) = error
  /\ errorMessage (w_status ended)
     = Some (errorToString (api_error "GET" "manifest.json"))
  /\ w_trace ended = w_trace w /\ w_remote ended = w_remote w
  /\ w_disk ended = w_disk w.
Proof. cbv zeta. by split_and!. Qed.

(** C8, amended: when the request for the remote manifest is answered and
    the manifest is missing, empty, undecryptable, unparsable or parsed to
    nothing, the pull phase of the cycle changes nothing (no session is
    pulled), the push phase runs against a freshly created empty manifest,
    and the cycle ends [idle] whenever that push returns.  When the request
    itself fails, the cycle writes nothing, neither to the store nor to the
    disk, and ends in [error] with the error of the request: it is thrown
    out of the pull phase when a workspace is open, and otherwise out of
    the push phase as soon as there is a session to push; only a cycle that
    never asks for the manifest ends [idle]. *)
Theorem unreadable_manifest_skips_pull_only (pass : string)
    (w : World Disk) :
  enabled cfg = true ->
  pass <> "" ->
  status (w_status w) <> syncing ->
  auth_fails net = false ->
  let started :=
    with_status w (updateStatus (now H w) syncing None (w_status w)) in
  let cycle := sync H cfg net (Some pass) w in
  (get_fails net "manifest.json" = false ->
   manifestUnreadable H pass (w_remote w) ->
   pullFromRemote H cfg net (Some pass) started = Returned started
   /\ pushToRemote H cfg net (Some pass) started
      = match pushable H cfg started with
        | [] => Returned (tick started)
        | _ =>
            pushWithManifest H net (Some pass)
              (freshManifest H (now H (tick started)))
              (pushable H cfg started)
              (tick (tick started))
        end
   /\ cycle = finishCycle H (pushToRemote H cfg net (Some pass) started)
   /\ (forall w', pushToRemote H cfg net (Some pass) started = Returned w' ->
         status (w_status cycle) = idle))
  /\ (get_fails net "manifest.json" = true ->
      w_trace cycle = w_trace w
      /\ w_remote cycle = w_remote w
      /\ w_disk cycle = w_disk w
      /\ (currentWorkspaceStorageId H <> None ->
          pullFromRemote H cfg net (Some pass) started
          = Thrown (api_error "GET" "manifest.json") started)
      /\ (currentWorkspaceStorageId H <> None
          \/ pushable H cfg started <> [] ->
          status (w_status cycle) = error
          /\ errorMessage (w_status cycle)
             = Some (errorToString (api_error "GET" "manifest.json")))
      /\ (currentWorkspaceStorageId H = None ->
          pushable H cfg started = [] ->
          status (w_status cycle) = idle)).
Proof.
  intros Hen Hpass Hst Hauth started cycle.
  assert (Hsync : cycle
            = finishCycle H
                match pullFromRemote H cfg net (Some pass) started with
                | Returned w2 => pushToRemote H cfg net (Some pass) w2
                | Thrown e w2 => Thrown e w2
                end).
  { unfold cycle, sync. rewrite Hen. simpl.
    pose proof Hpass as Ht. apply truthy_true in Ht. rewrite Ht. simpl.
    rewrite Hauth. fold started.
    destruct (status (w_status w)); done. }
  split.
  - intros Hget Hbad.
    assert (Hm : forall w', w_remote w' = w_remote w ->
              getRemoteManifest H net (Some pass) w' = Ok Falsy).
    { intros w' Hw'. apply getRemoteManifest_unreadable; [done..|].
      by rewrite Hw'. }
    assert (Hpull : pullFromRemote H cfg net (Some pass) started
                    = Returned started).
    { unfold pullFromRemote. destruct (currentWorkspaceStorageId H); [|done].
      by rewrite Hm. }
    rewrite Hpull in Hsync.
    split_and!; [done| |done|].
    + unfold pushToRemote, pushable. cbv zeta.
      destruct (List.filter _ _) as [|m rest]; [done|].
      by rewrite Hm.
    + intros w' Hw'. rewrite Hsync, Hw'. reflexivity.
  - intros Hget.
    assert (Hm : forall w',
              getRemoteManifest H net (Some pass) w'
              = Throw (api_error "GET" "manifest.json")).
    { intros w'. by apply getRemoteManifest_unreachable. }
    assert (Hpush : pushToRemote H cfg net (Some pass) started
              = match pushable H cfg started with
                | [] => Returned (tick started)
                | _ => Thrown (api_error "GET" "manifest.json") (tick started)
                end).
    { unfold pushToRemote, pushable. cbv zeta.
      destruct (List.filter _ _) as [|m rest]; [done|].
      by rewrite Hm. }
    destruct (currentWorkspaceStorageId H) as [currentWsId|] eqn:Hws.
    + assert (Hpull : pullFromRemote H cfg net (Some pass) started
                = Thrown (api_error "GET" "manifest.json") started).
      { unfold pullFromRemote. by rewrite Hws, Hm. }
      rewrite Hpull in Hsync. rewrite Hsync.
      destruct (finishCycle_unreachable started)
        as (Hstatus & Hmsg & Htrace & Hremote & Hdisk).
      cbv zeta in Hstatus, Hmsg, Htrace, Hremote, Hdisk.
      split_and!; [done..| |done].
      by intros.
    + assert (Hpull : pullFromRemote H cfg net (Some pass) started
                = Returned started).
      { unfold pullFromRemote. by rewrite Hws. }
      rewrite Hpull, Hpush in Hsync. rewrite Hsync.
      destruct (pushable H cfg started) as [|m rest] eqn:Hpushable.
      * split_and!; [done..| |done]. by intros [|].
      * destruct (finishCycle_unreachable (tick started))
          as (Hstatus & Hmsg & Htrace & Hremote & Hdisk).
        cbv zeta in Hstatus, Hmsg, Htrace, Hremote, Hdisk.
        split_and!; [done..| |done].
        by intros.
Qed.

End Cycle.

(** The two cases on the fixtures: a manifest written under another
    passphrase, and a manifest that cannot be fetched. *)
Lemma unreadable_manifest_skips_pull_only_witness :
  status
    (w_status
       (sync Fixtures.host Fixtures.config Fixtures.calm (Some "pw")
          Fixtures.foreignManifest))
  = idle
  /\ status
       (w_status
          (sync Fixtures.host Fixtures.config Fixtures.manifestUnreachable
             (Some "pw") Fixtures.world))
     = error.
Proof.
  split.
  - refine
      (proj2 (proj2 (proj2
         (proj1
            (unreadable_manifest_skips_pull_only Fixtures.host
               Fixtures.config Fixtures.calm "pw" Fixtures.foreignManifest
               _ _ _ _)
            _ _))) _ _).
    + reflexivity.
    + discriminate.
    + discriminate.
    + reflexivity.
    + reflexivity.
    + right. right. exists "enc(other)manifest-v1". split; [reflexivity|].
      left. reflexivity.
    + vm_compute. reflexivity.
  - destruct (unreadable_manifest_skips_pull_only Fixtures.host
                Fixtures.config Fixtures.manifestUnreachable "pw"
                Fixtures.world) as [_ Hfails].
    + reflexivity.
    + discriminate.
    + discriminate.
    + reflexivity.
    + destruct Hfails as (_ & _ & _ & _ & Herror & _); [reflexivity|].
      apply Herror. left. discriminate.
Defined.

(** C8, as stated, fails: when the request for the manifest is answered
    with an error, nothing is pushed although a local session is waiting,
    and the cycle ends in [error]. *)
Lemma unreachable_manifest_aborts_cycle :
  readAllSessionMetadata Fixtures.host (w_disk Fixtures.world)
  = [Fixtures.localMeta]
  /\ status
       (w_status
          (sync Fixtures.host Fixtures.config Fixtures.manifestUnreachable
             (Some "pw") Fixtures.world))
     = error
  /\ w_trace
       (sync Fixtures.host Fixtures.config Fixtures.manifestUnreachable
          (Some "pw") Fixtures.world)
     = []
  /\ w_remote
       (sync Fixtures.host Fixtures.config Fixtures.manifestUnreachable
          (Some "pw") Fixtures.world)
     = w_remote Fixtures.world.
Proof. split_and!; vm_compute; reflexivity. Qed.

(** *** The order of the fallback *)

Section PutOrder.
Context {Disk : Type} (H : Host Disk) (net : Network).

Lemma putAll_trace (files : list RepoFile) (w w' : World Disk) :
  putAll net files w = Returned w' ->
  w_trace w' = (w_trace w ++ map FilePut files)%list.
Proof.
  revert w. induction files as [|file rest IH]; intros w; simpl.
  - intros [= <-]. by rewrite app_nil_r.
  - destruct (putFile net (w_remote w) (path file) (content file))
      as [remote'|e]; [|done].
    intros Hrest. rewrite (IH _ Hrest). simpl. by rewrite <- app_assoc.
Qed.

(** On the sequential fallback the staged files are put in the order of the
    list handed to the commit: the session objects, then the manifest, then
    the backups.  The stored copy of a session is thus written to its backup
    path after the session's object has been overwritten. *)
Theorem fallback_puts_backups_last (pass : string) (st : Staging)
    (w w' : World Disk) :
  batch_fails net = true ->
  commitFiles net (filesToCommit H pass st) w = Returned w' ->
  exists manifestFile,
    path manifestFile = "manifest.json"
    /\ w_trace w'
       = (w_trace w ++ map FilePut (st_filesToPush st)
          ++ [FilePut manifestFile] ++ map FilePut (st_backupFiles st))%list.
Proof.
  intros Hrefuse. unfold commitFiles, batchCommit. rewrite Hrefuse.
  destruct (filesToCommit H pass st) as [|f fs] eqn:Hfiles.
  { apply (f_equal (@length RepoFile)) in Hfiles.
    unfold filesToCommit in Hfiles. rewrite !length_app in Hfiles.
    simpl in Hfiles. lia. }
  rewrite <- Hfiles. intros Hputs. apply putAll_trace in Hputs.
  eexists. split; [|rewrite Hputs; unfold filesToCommit;
                    by rewrite !map_app].
  reflexivity.
Qed.

(** When the batch commit is refused and one of the single puts is too, the
    push throws. *)
Theorem fallback_failure_is_thrown (files : list RepoFile) (file : RepoFile)
    (w : World Disk) :
  batch_fails net = true ->
  In file files ->
  put_fails net (path file) = true ->
  exists e w', commitFiles net files w = Thrown e w'.
Proof.
  intros Hrefuse Hin Hput. unfold commitFiles, batchCommit. rewrite Hrefuse.
  assert (Hputs : forall w0 : World Disk,
            exists e w', putAll net files w0 = Thrown e w').
  { induction files as [|f rest IH]; [done|]. intros w0. simpl.
    unfold putFile.
    destruct (get_fails net (path f)); [by do 2 eexists|].
    destruct (put_fails net (path f)) eqn:Hf; [by do 2 eexists|].
    apply IH. destruct Hin as [->|Hin]; [congruence | done]. }
  destruct files; [done | apply Hputs].
Qed.

End PutOrder.

(** The fixture's push with the batch commit refused: the new object of [s1]
    and the manifest are put before the backup of the stored copy. *)
Example push_fallback_run :
  exists w',
    pushToRemote Fixtures.host Fixtures.config Fixtures.batchRefused
      (Some "pw") Fixtures.world
    = Returned w'
    /\ map
         (fun e =>
            match e with
            | FilePut file => path file
            | _ => "none"
            end)
         (w_trace w')
       = ["sessions/s1.enc"; "manifest.json";
          "sessions/backups/s1.backup-1700000000001.enc"]
    /\ w_remote w' !! "sessions/backups/s1.backup-1700000000001.enc"
       = Some "enc(pw)payload:remote-v1".
Proof.
  eexists. split; [vm_compute; reflexivity|].
  split; vm_compute; reflexivity.
Qed.

Lemma fallback_puts_backups_last_witness :
  let st :=
    {| st_filesToPush :=
         [{| path := "sessions/s1.enc";
             content := "enc(pw)payload:local-v2" |}];
       st_backupFiles :=
         [{| path := "sessions/backups/s1.backup-1700000000001.enc";
             content := "enc(pw)payload:remote-v1" |}];
       st_manifest := Fixtures.remoteManifest;
       st_ticks := 3;
       st_encryptions := 1 |} in
  exists manifestFile,
    path manifestFile = "manifest.json"
    /\ w_trace
         (afterPuts (filesToCommit Fixtures.host "pw" st) Fixtures.world)
       = (w_trace Fixtures.world ++ map FilePut (st_filesToPush st)
          ++ [FilePut manifestFile] ++ map FilePut (st_backupFiles st))%list.
Proof.
  intros st.
  apply (fallback_puts_backups_last Fixtures.host Fixtures.batchRefused "pw"
           st Fixtures.world).
  - reflexivity.
  - vm_compute. reflexivity.
Defined.

Lemma fallback_failure_is_thrown_witness :
  exists e w',
    commitFiles Fixtures.manifestRefused
      [{| path := "sessions/s1.enc"; content := "enc(pw)payload:local-v2" |};
       {| path := "manifest.json"; content := "enc(pw)manifest-v2" |}]
      Fixtures.world
    = Thrown e w'.
Proof.
  apply (fallback_failure_is_thrown Fixtures.manifestRefused _
           {| path := "manifest.json"; content := "enc(pw)manifest-v2" |}).
  - reflexivity.
  - right. left. reflexivity.
  - reflexivity.
Defined.

(** *** The phases *)

Lemma Forall2_In_right {A B : Type} (P : A -> B -> Prop) (l : list A)
    (k : list B) (y : B) :
  Forall2 P l k -> In y k -> exists x, In x l /\ P x y.
Proof.
  induction 1 as [|x y' l k Hxy _ IH]; [done|].
  intros [<-|Hin].
  - exists x. split; [by left | done].
  - destruct (IH Hin) as (x' & Hx' & Hp). exists x'. split; [by right | done].
Qed.

Lemma filesOf_puts (files : list RepoFile) :
  flat_map EngineNotions.filesOf (map FilePut files) = files.
Proof. induction files as [|f rest IH]; [done | simpl; by rewrite IH]. Qed.

Section Phases.
Context {Disk : Type} (H : Host Disk) (cfg : Config) (net : Network).
Context (passphrase : option string).

Lemma pullSession_remote (w : World Disk) (sessionId : string)
    (entry : option SyncManifestEntry) (currentWsId : string) :
  w_remote (pullSession H net passphrase w sessionId entry currentWsId)
  = w_remote w.
Proof. unfold pullSession. repeat case_match; reflexivity. Qed.


(** A sync already in progress is not entered again: the call changes
    nothing. *)
Theorem sync_not_reentered (w : World Disk) :
  enabled cfg = true ->
  truthy_opt passphrase = true ->
  status (w_status w) = syncing ->
  sync H cfg net passphrase w = w.
Proof.
  intros Hen Hpass Hst. unfold sync. by rewrite Hen, Hpass, Hst.
Qed.

(** The sessions of a push carry a metadata record of the list, that of
    their id. *)
Lemma collectToPush_meta (metadata : list SessionMetadata)
    (localHashes : JsMap.t string)
    (actions : JsMap.t ConflictResolver.ConflictAction) (item : PushItem) :
  In item (collectToPush metadata localHashes actions) ->
  In (pi_meta item) metadata /\ md_id (pi_meta item) = pi_sessionId item.
Proof.
  unfold collectToPush. rewrite in_flat_map.
  intros ([id a] & _ & Hitem).
  destruct (wantsPush a); [|done].
  destruct (List.find _ metadata) as [meta|] eqn:Hfind; [|done].
  destruct (JsMap.get localHashes id) as [h|]; [|done].
  destruct (truthy h); [|done].
  destruct Hitem as [<-|[]]. simpl.
  apply List.find_some in Hfind as [Hmeta Hid].
  by apply String.eqb_eq in Hid.
Qed.

(** What the commit writes, however it ends, is among the files it was
    given. *)
Lemma commitFiles_files (files : list RepoFile) (w : World Disk)
    (file : RepoFile) :
  In file
    (flat_map EngineNotions.filesOf
       (w_trace (EngineNotions.after (commitFiles net files w)))) ->
  In file (flat_map EngineNotions.filesOf (w_trace w)) \/ In file files.
Proof.
  unfold commitFiles.
  destruct (batchCommit net (w_remote w) files []) as [remote'|e].
  - simpl. rewrite flat_map_app, in_app_iff. simpl. rewrite app_nil_r.
    tauto.
  - destruct (putAll_outcome net files w) as (done & [rest ->] & ->).
    rewrite afterPuts_trace, flat_map_app, filesOf_puts, !in_app_iff.
    tauto.
Qed.

(** The files a staging hands to the commit: the manifest, and the object
    or a backup of a session of the loop. *)
Lemma filesToCommit_paths (pass : string) (remote : gmap string string)
    (disk : Disk) (remoteMap : JsMap.t SyncManifestEntry)
    (toPush : list PushItem) (manifest : SyncManifest) (ticks : nat)
    (file : RepoFile) :
  In file
    (filesToCommit H pass
       (stageAll H net pass remote disk remoteMap toPush
          {| st_filesToPush := []; st_backupFiles := [];
             st_manifest := manifest; st_ticks := ticks;
             st_encryptions := 0 |})) ->
  path file = "manifest.json"
  \/ exists item,
       In item toPush
       /\ (path file = sessionPath (pi_sessionId item)
           \/ exists timestamp,
                path file
                = ConflictResolver.backupPath timestamp (pi_sessionId item)).
Proof.
  set (initial := {| st_filesToPush := []; st_backupFiles := [];
                     st_manifest := manifest; st_ticks := ticks;
                     st_encryptions := 0 |}).
  destruct (stageAll_sessionFiles H net pass remote disk remoteMap toPush
              initial) as (sessionFiles & Hfiles & Hsessions).
  destruct (stageAll_backedUp H net pass remote disk remoteMap toPush
              initial) as (backups & Hbackups & Hcopies).
  unfold filesToCommit. rewrite Hfiles, Hbackups. simpl.
  rewrite !in_app_iff. simpl. intros [Hin | [<- | Hin]].
  - right.
    destruct (Forall2_In_right _ _ _ _ Hsessions Hin)
      as (item & Hitem & Hpath & _).
    apply List.filter_In in Hitem as [Hitem _]. exists item. auto.
  - by left.
  - right.
    destruct (Forall2_In_right _ _ _ _ Hcopies Hin)
      as (item & Hitem & tickNo & c & _ & _ & -> & _).
    apply List.filter_In in Hitem as [Hitem _]. exists item.
    split; [done|]. right. by eexists.
Qed.

Lemma pushWithManifest_files (manifest : SyncManifest)
    (metadata : list SessionMetadata) (w : World Disk) (file : RepoFile) :
  In file
    (flat_map EngineNotions.filesOf
       (w_trace
          (EngineNotions.after
             (pushWithManifest H net passphrase manifest metadata w)))) ->
  In file (flat_map EngineNotions.filesOf (w_trace w))
  \/ path file = "manifest.json"
  \/ exists m,
       In m metadata
       /\ (path file = sessionPath (md_id m)
           \/ exists timestamp,
                path file = ConflictResolver.backupPath timestamp (md_id m)).
Proof.
  unfold pushWithManifest.
  destruct (hashAll H (w_disk w) (w_hashCache w) metadata)
    as [[hashCache localHashes] localMap].
  destruct (ConflictResolver.resolveAll _ _ _) as [actions|e]; [|by left].
  destruct (collectToPush metadata localHashes actions) as [|item0 rest]
    eqn:HtoPush; [by left|].
  rewrite <- HtoPush.
  destruct passphrase as [pass|]; [|by left].
  set (st := stageAll H net pass _ _ _ _ _).
  destruct (st_filesToPush st); [by left|].
  set (w1 := with_ticks (with_hashCache w hashCache) (S (st_ticks st))).
  intros Hin.
  assert (Hcommit :
    In file
      (flat_map EngineNotions.filesOf
         (w_trace
            (EngineNotions.after
               (commitFiles net (filesToCommit H pass st) w1))))).
  { by destruct (commitFiles net (filesToCommit H pass st) w1). }
  apply commitFiles_files in Hcommit as [Hold | Hnew]; [by left|].
  right. apply filesToCommit_paths in Hnew as [Hm | (item & Hitem & Hp)];
    [by left|].
  right. apply collectToPush_meta in Hitem as [Hmeta Hid].
  exists (pi_meta item). rewrite Hid. done.
Qed.

(** Sessions above the size ceiling are never uploaded: whatever a push
    writes to the store, and however it ends, a file it writes is the
    manifest, or the object or a backup of a local session whose size is
    within the limit. *)
Theorem oversized_sessions_are_skipped (w : World Disk) (file : RepoFile) :
  In file
    (flat_map EngineNotions.filesOf
       (w_trace
          (EngineNotions.after (pushToRemote H cfg net passphrase w)))) ->
  In file (flat_map EngineNotions.filesOf (w_trace w))
  \/ path file = "manifest.json"
  \/ exists m,
       In m (readAllSessionMetadata H (w_disk w))
       /\ md_sizeBytes m <= maxSessionSizeMB cfg * 1024 * 1024
       /\ (path file = sessionPath (md_id m)
           \/ exists timestamp,
                path file = ConflictResolver.backupPath timestamp (md_id m)).
Proof.
  unfold pushToRemote. cbv zeta.
  set (metadata := List.filter _ _).
  assert (Hwithin : forall m, In m metadata ->
            In m (readAllSessionMetadata H (w_disk w))
            /\ md_sizeBytes m <= maxSessionSizeMB cfg * 1024 * 1024).
  { intros m Hm. apply List.filter_In in Hm as [Hm Hsize].
    apply List.filter_In in Hm as [Hm _]. split; [done|].
    apply negb_true_iff in Hsize.
    destruct (Z.gtb_spec (md_sizeBytes m) (maxSessionSizeMB cfg * 1024 * 1024));
      [done | lia]. }
  assert (Hpush : forall manifest w0,
    w_trace w0 = w_trace w ->
    In file
      (flat_map EngineNotions.filesOf
         (w_trace
            (EngineNotions.after
               (pushWithManifest H net passphrase manifest metadata w0)))) ->
    In file (flat_map EngineNotions.filesOf (w_trace w))
    \/ path file = "manifest.json"
    \/ exists m,
         In m (readAllSessionMetadata H (w_disk w))
         /\ md_sizeBytes m <= maxSessionSizeMB cfg * 1024 * 1024
         /\ (path file = sessionPath (md_id m)
             \/ exists timestamp,
                  path file
                  = ConflictResolver.backupPath timestamp (md_id m))).
  { intros manifest w0 Htrace Hin.
    apply pushWithManifest_files in Hin as [Hold | [Hm | (m & Hm & Hp)]].
    - left. by rewrite <- Htrace.
    - right. by left.
    - right. right. exists m. destruct (Hwithin m Hm). done. }
  destruct metadata as [|m0 rest] eqn:Hmetadata; [by left|].
  rewrite <- Hmetadata in *.
  destruct (getRemoteManifest H net passphrase (tick w))
    as [[| |manifest]|e]; [| by left | | by left].
  - by apply Hpush.
  - by apply Hpush.
Qed.

End Phases.

(** The pull of the fixture's state with the local copy behind, when the
    stored object cannot be fetched: the session is passed over and the
    pull returns. *)
Example pull_passes_over :
  pullFromRemote Fixtures.host Fixtures.config Fixtures.sessionUnreadable
    (Some "pw") Fixtures.remoteAhead
  = Returned
      (with_hashCache (tick Fixtures.remoteAhead)
         {[ "s1" :=
              {| hash := "sha256(local-v0)";
                 mtimeMs := Fixtures.nowMs - 5000; sizeBytes := 8 |} ]}).
Proof. vm_compute. reflexivity. Qed.

(** The pull of the same state when the object is fetched: the stored copy
    of [s1] is written to the disk, under the current workspace. *)
Example pull_run :
  exists w',
    pullFromRemote Fixtures.host Fixtures.config Fixtures.calm (Some "pw")
      Fixtures.remoteAhead
    = Returned w'
    /\ map snd (w_disk w') = ["remote-v1"]
    /\ w_remote w' = w_remote Fixtures.remoteAhead.
Proof.
  eexists. split; [vm_compute; reflexivity|].
  split; vm_compute; reflexivity.
Qed.

Lemma sync_not_reentered_witness :
  sync Fixtures.host Fixtures.config Fixtures.calm (Some "pw")
    (with_status Fixtures.world
       {| status := syncing; lastSyncTime := None; sessionCount := 0;
          errorMessage := None |})
  = with_status Fixtures.world
      {| status := syncing; lastSyncTime := None; sessionCount := 0;
         errorMessage := None |}.
Proof.
  apply (sync_not_reentered Fixtures.host Fixtures.config Fixtures.calm
           (Some "pw")); reflexivity.
Defined.

(** The object of [s1] the fixture's push commits: [s1] is 8 bytes long. *)
Lemma oversized_sessions_are_skipped_witness :
  let file :=
    {| path := "sessions/s1.enc"; content := "enc(pw)payload:local-v2" |} in
  In file (flat_map EngineNotions.filesOf (w_trace Fixtures.world))
  \/ path file = "manifest.json"
  \/ exists m,
       In m (readAllSessionMetadata Fixtures.host (w_disk Fixtures.world))
       /\ md_sizeBytes m <= maxSessionSizeMB Fixtures.config * 1024 * 1024
       /\ (path file = sessionPath (md_id m)
           \/ exists timestamp,
                path file = ConflictResolver.backupPath timestamp (md_id m)).
Proof.
  intros file.
  apply (oversized_sessions_are_skipped Fixtures.host Fixtures.config
           Fixtures.calm (Some "pw") Fixtures.world file).
  vm_compute. left. reflexivity.
Defined.

End SyncEngineFacts.

(** ** The reference platform meets the laws *)

Module ReferenceNodeFacts.
Import Encryption ReferenceNode Notions.
Local Open Scope N_scope.

(** Linear arithmetic over [N] with division and remainder by constants. *)
Ltac nlia := zify; Z.to_euclidean_division_equations; lia.

(** Settle the comparisons of the goal one by one: decide each from the
    hypotheses, and split on an equality test they leave open. *)
Ltac settle :=
  repeat
    (first
       [ match goal with
         | |- context [N.eqb ?a ?b] =>
             first
               [ rewrite (proj2 (N.eqb_eq a b)) by lia
               | rewrite (proj2 (N.eqb_neq a b)) by lia
               | destruct (N.eqb_spec a b) ]
         end
       | match goal with
         | |- context [N.ltb ?a ?b] =>
             first
               [ rewrite (proj2 (N.ltb_lt a b)) by lia
               | rewrite (proj2 (N.ltb_ge a b)) by lia ]
         end
       | match goal with
         | |- context [N.leb ?a ?b] =>
             first
               [ rewrite (proj2 (N.leb_le a b)) by lia
               | rewrite (proj2 (N.leb_gt a b)) by lia ]
         end ];
     cbn [andb negb]).

Lemma to_N_byteOfN (n : N) : Byte.to_N (byteOfN n) = n mod 256.
Proof.
  unfold byteOfN. destruct (Byte.of_N (n mod 256)) as [b|] eqn:E.
  - by apply Byte.to_of_N in E.
  - apply Byte.of_N_None_iff in E. exfalso. nlia.
Qed.

Lemma byteOfN_to_N (b : Byte.byte) : byteOfN (Byte.to_N b) = b.
Proof.
  unfold byteOfN. pose proof (Byte.to_N_bounded b) as Hb.
  replace (Byte.to_N b mod 256) with (Byte.to_N b) by nlia.
  by rewrite Byte.of_to_N.
Qed.

Lemma byteOfN_eq (n : N) (b : Byte.byte) :
  n mod 256 = Byte.to_N b -> byteOfN n = b.
Proof.
  intros Hn. rewrite <- (byteOfN_to_N b), <- Hn. unfold byteOfN.
  by rewrite N.Div0.mod_mod.
Qed.

(** *** UTF-8 *)

Lemma to_N_byteOfN_small (n : N) : n < 256 -> Byte.to_N (byteOfN n) = n.
Proof. intros Hn. rewrite to_N_byteOfN. nlia. Qed.

(** The base-64 digits of a code point below 2^21: the payload bits of the
    bytes of its encoding. *)
Lemma digits (c : N) :
  c < 0x200000 ->
  exists d0 d1 d2 d3,
    c = d0 * 262144 + d1 * 4096 + d2 * 64 + d3
    /\ d0 < 8 /\ d1 < 64 /\ d2 < 64 /\ d3 < 64
    /\ c / 262144 = d0 /\ (c / 4096) mod 64 = d1 /\ c / 4096 = d0 * 64 + d1
    /\ (c / 64) mod 64 = d2 /\ c / 64 = d0 * 4096 + d1 * 64 + d2
    /\ c mod 64 = d3.
Proof.
  intros Hc.
  exists (c / 262144), ((c / 4096) mod 64), ((c / 64) mod 64), (c mod 64).
  split_and!; try reflexivity; nlia.
Qed.

Lemma utf8Decode_encodeCodePoint (c : N) (r : bytes) :
  isScalar c ->
  utf8Decode (encodeCodePoint c ++ r) = (codeUnits c ++ utf8Decode r)%list.
Proof.
  intros [Hmax Hsur]. unfold encodeCodePoint.
  destruct (digits c) as
    (d0 & d1 & d2 & d3 & Hc & H0 & H1 & H2 & H3 & E0 & E1 & E1' & E2 & E2'
     & E3); [lia|].
  rewrite ?E0, ?E1, ?E2, ?E3. clear E0 E1 E2 E3.
  destruct (N.ltb_spec c 0x80); [|destruct (N.ltb_spec c 0x800);
    [|destruct (N.ltb_spec c 0x10000)]].
  - cbn [app utf8Decode]. unfold decodeStep.
    rewrite to_N_byteOfN_small by lia. settle.
    unfold codeUnits. settle. reflexivity.
  - rewrite E2'. clear E1' E2'.
    cbn [app utf8Decode]. unfold decodeStep, inRange, tail6.
    rewrite !to_N_byteOfN_small by lia. settle.
    unfold codeUnits. settle. cbn [app]. f_equal. lia.
  - rewrite E1'. clear E1' E2'.
    assert (Hd : d0 = 0 /\ d1 < 16 /\ (d1 = 0 -> 32 <= d2)
                 /\ (d1 = 13 -> d2 < 32)) by lia.
    destruct Hd as (-> & Hd1 & Hd0 & Hd13).
    cbn [app utf8Decode].
    unfold decodeStep, inRange, tail6, secondLo, secondHi.
    rewrite !to_N_byteOfN_small by lia.
    revert Hc. clear - H2 H3 Hd1 Hd0 Hd13. intros Hc.
    revert Hc. settle; intros Hc;
      unfold codeUnits; settle; cbn [app]; f_equal; lia.
  - clear E1' E2'.
    assert (Hd : d0 <= 4 /\ (d0 = 0 -> 16 <= d1) /\ (d0 = 4 -> d1 < 16))
      by lia.
    destruct Hd as (Hd0 & Hd1 & Hd4).
    cbn [app utf8Decode].
    unfold decodeStep, inRange, tail6, secondLo, secondHi.
    rewrite !to_N_byteOfN_small by lia.
    revert Hc. clear - H0 H1 H2 H3 Hd0 Hd1 Hd4. intros Hc.
    revert Hc. settle; intros Hc;
      match goal with
      | |- (codeUnits ?x ++ _)%list = _ => replace x with c by lia
      end; reflexivity.
Qed.

Lemma isHigh_spec (u : N) : JsString.isHigh u = true <-> 0xD800 <= u <= 0xDBFF.
Proof.
  unfold JsString.isHigh. rewrite andb_true_iff, !N.leb_le. reflexivity.
Qed.

Lemma isLow_spec (u : N) : JsString.isLow u = true <-> 0xDC00 <= u <= 0xDFFF.
Proof.
  unfold JsString.isLow. rewrite andb_true_iff, !N.leb_le. reflexivity.
Qed.

Lemma utf8_round_trip (s : list N) :
  Forall JsString.isCodeUnit s ->
  utf8Decode (utf8Encode s) = JsString.toWellFormed s.
Proof.
  remember (length s) as n eqn:Hn. revert s Hn.
  induction n as [n IH] using lt_wf_ind. intros s Hn Hs.
  destruct s as [|u rest]; [done|].
  apply Forall_cons in Hs as [Hu Hrest]. unfold JsString.isCodeUnit in Hu.
  assert (Hreplace : forall tl,
            utf8Decode (encodeCodePoint 0xFFFD ++ tl)
            = 0xFFFD :: utf8Decode tl).
  { intros tl. rewrite utf8Decode_encodeCodePoint; [done|].
    split; [reflexivity | lia]. }
  cbn [utf8Encode JsString.toWellFormed].
  destruct (JsString.isHigh u) eqn:Hh.
  - apply isHigh_spec in Hh. destruct rest as [|v rest'].
    + rewrite <- (app_nil_r (encodeCodePoint 0xFFFD)). by rewrite Hreplace.
    + destruct (JsString.isLow v) eqn:Hl.
      * apply isLow_spec in Hl.
        apply Forall_cons in Hrest as [_ Hrest'].
        rewrite utf8Decode_encodeCodePoint by (split; nlia).
        rewrite (IH (length rest')) by (simpl in Hn; done || lia).
        unfold codeUnits. settle. cbn [app]. repeat f_equal; nlia.
      * rewrite Hreplace.
        by rewrite (IH (length (v :: rest'))) by (simpl in *; done || lia).
  - assert (Hnh : ~ (0xD800 <= u <= 0xDBFF)).
    { intros Hc. apply isHigh_spec in Hc. congruence. }
    destruct (JsString.isLow u) eqn:Hl.
    + rewrite Hreplace.
      by rewrite (IH (length rest)) by (simpl in *; done || lia).
    + assert (Hnl : ~ (0xDC00 <= u <= 0xDFFF)).
      { intros Hc. apply isLow_spec in Hc. congruence. }
      rewrite utf8Decode_encodeCodePoint by (split; lia).
      rewrite (IH (length rest)) by (simpl in *; done || lia).
      unfold codeUnits. settle. reflexivity.
Qed.

(** The samples: "Hé€", an emoji (a surrogate pair), a lone surrogate. *)
Example utf8Encode_sample :
  utf8Encode [0x48; 0xE9; 0x20AC; 0xD83D; 0xDE00; 0xD800]
  = [Byte.x48; Byte.xc3; Byte.xa9; Byte.xe2; Byte.x82; Byte.xac; Byte.xf0;
     Byte.x9f; Byte.x98; Byte.x80; Byte.xef; Byte.xbf; Byte.xbd].
Proof. reflexivity. Qed.

(** *** base64 *)

Lemma value_digit (n : N) : n < 64 -> value (digit n) = Some n.
Proof.
  intros Hn.
  assert (Hall : forallb
            (fun k =>
               match value (digit (N.of_nat k)) with
               | Some m => N.eqb m (N.of_nat k)
               | None => false
               end)
            (List.seq 0 64) = true) by (vm_compute; reflexivity).
  rewrite forallb_forall in Hall.
  specialize (Hall (N.to_nat n)). rewrite N2Nat.id in Hall.
  destruct (value (digit n)) as [m|].
  - f_equal. apply N.eqb_eq, Hall, in_seq. lia.
  - discriminate Hall. apply in_seq. lia.
Qed.

Lemma value_padding :
  value (Ascii.Ascii true false true true true true false false) = None.
Proof. reflexivity. Qed.

Lemma base64_round_trip (bs : bytes) : fromBase64 (toBase64 bs) = bs.
Proof.
  remember (length bs) as n eqn:Hn. revert bs Hn.
  induction n as [n IH] using lt_wf_ind. intros bs Hn.
  destruct bs as [|a [|b [|c rest]]]; [done| | |].
  - pose proof (Byte.to_N_bounded a). cbn [toBase64 fromBase64].
    rewrite !value_digit by nlia. rewrite value_padding.
    f_equal. apply byteOfN_eq. nlia.
  - pose proof (Byte.to_N_bounded a). pose proof (Byte.to_N_bounded b).
    cbn [toBase64 fromBase64]. rewrite !value_digit by nlia.
    rewrite value_padding.
    f_equal; [|f_equal]; apply byteOfN_eq; nlia.
  - pose proof (Byte.to_N_bounded a). pose proof (Byte.to_N_bounded b).
    pose proof (Byte.to_N_bounded c).
    cbn [toBase64 fromBase64]. rewrite !value_digit by nlia.
    rewrite (IH (length rest)) by (simpl in Hn; done || lia).
    f_equal; [|f_equal; [|f_equal]]; apply byteOfN_eq; nlia.
Qed.

Example toBase64_sample :
  toBase64 (bytesOfString "Hello, World!") = "SGVsbG8sIFdvcmxkIQ=="%string.
Proof. reflexivity. Qed.

(** *** The stand-ins *)

Lemma firstn_padded_length {A : Type} (n : nat) (l : list A) (x : A) :
  length (firstn n (l ++ repeat x n)) = n.
Proof.
  apply firstn_length_le. rewrite length_app, repeat_length. lia.
Qed.

Lemma pbkdf2Sync_length (passphrase : string) (saltBytes : bytes)
    (iterations keylen : Z) (digest : string) :
  length (pbkdf2Sync passphrase saltBytes iterations keylen digest)
  = Z.to_nat keylen.
Proof.
  unfold pbkdf2Sync. rewrite app_assoc. apply firstn_padded_length.
Qed.

Lemma tagOf_length (key ivBytes data : bytes) (authTagLength : Z) :
  length (tagOf key ivBytes data authTagLength) = Z.to_nat authTagLength.
Proof. unfold tagOf. apply firstn_padded_length. Qed.

Lemma decipher_cipher (algorithm : string) (key ivBytes plain : bytes)
    (authTagLength : Z) :
  (0 <= authTagLength)%Z ->
  decipher algorithm key ivBytes
    (cipher algorithm key ivBytes authTagLength plain).2
    (cipher algorithm key ivBytes authTagLength plain).1
  = Some plain.
Proof.
  intros Hlen. unfold decipher, cipher. cbn [fst snd].
  rewrite tagOf_length, Z2Nat.id by done.
  rewrite bool_decide_eq_true_2 by done. f_equal.
  rewrite map_map. rewrite <- (map_id plain) at 2.
  apply map_ext. intros p. apply byteOfN_eq. rewrite to_N_byteOfN.
  pose proof (Byte.to_N_bounded p). unfold shiftOf. nlia.
Qed.

#[global] Instance node_laws : NodeLaws node.
Proof.
  split.
  - intros. apply pbkdf2Sync_length.
  - intros. apply tagOf_length.
  - intros key ivBytes Hkey Hiv. cbn. unfold createDecipheriv.
    by rewrite Hkey, Hiv.
  - intros tag Htag. cbn. unfold setAuthTag. by rewrite Htag.
  - intros. by apply decipher_cipher.
  - apply utf8_round_trip.
  - apply base64_round_trip.
Qed.

(** The cipher shifts every byte by the same amount, and the decipher
    shifts it back. *)
Lemma shift_back (s : N) (data : bytes) :
  s < 256 ->
  map (fun p => byteOfN (Byte.to_N p + s))
    (map (fun c => byteOfN (Byte.to_N c + 256 - s)) data)
  = data.
Proof.
  intros Hs. rewrite map_map. rewrite <- (map_id data) at 2.
  apply map_ext. intros c. apply byteOfN_eq. rewrite to_N_byteOfN.
  pose proof (Byte.to_N_bounded c). nlia.
Qed.

Lemma shift_forth (s : N) (plain : bytes) :
  s < 256 ->
  map (fun c => byteOfN (Byte.to_N c + 256 - s))
    (map (fun p => byteOfN (Byte.to_N p + s)) plain)
  = plain.
Proof.
  intros Hs. rewrite map_map. rewrite <- (map_id plain) at 2.
  apply map_ext. intros p. apply byteOfN_eq. rewrite to_N_byteOfN.
  pose proof (Byte.to_N_bounded p). nlia.
Qed.

Lemma shiftOf_bounded (key ivBytes : bytes) : shiftOf key ivBytes < 256.
Proof. unfold shiftOf. nlia. Qed.

Lemma decipher_genuine (algorithm : string) (key ivBytes tag data : bytes)
    (plain : bytes) :
  length tag = 16%nat ->
  decipher algorithm key ivBytes tag data = Some plain ->
  cipher algorithm key ivBytes AUTH_TAG_LENGTH plain = (data, tag).
Proof.
  intros Htag. unfold decipher, cipher.
  case_bool_decide as Hverified; [|done]. intros [= <-].
  rewrite shift_back by apply shiftOf_bounded.
  rewrite Htag in Hverified.
  change (Z.of_nat 16) with AUTH_TAG_LENGTH in Hverified.
  by rewrite <- Hverified.
Qed.

Lemma cipher_injective (algorithm : string) (key ivBytes : bytes)
    (authTagLength : Z) (plain plain' : bytes) :
  (cipher algorithm key ivBytes authTagLength plain).1
  = (cipher algorithm key ivBytes authTagLength plain').1 ->
  plain = plain'.
Proof.
  unfold cipher. cbn [fst]. intros Heq.
  apply (f_equal
           (map (fun c =>
                   byteOfN (Byte.to_N c + 256 - shiftOf key ivBytes))))
    in Heq.
  by rewrite !shift_forth in Heq by apply shiftOf_bounded.
Qed.

(** One byte replaced changes the sum of the bytes by the difference. *)
Lemma total_insert (data : bytes) (i : nat) (x x' : Byte.byte) :
  data !! i = Some x ->
  total (<[i := x']> data) + Byte.to_N x = total data + Byte.to_N x'.
Proof.
  revert i. induction data as [|b rest IH]; intros i; [done|].
  destruct i as [|i]; simpl.
  - intros [= ->]. lia.
  - intros Hi. specialize (IH i Hi). lia.
Qed.

Lemma tagOf_one_byte (key ivBytes data : bytes) (i : nat)
    (x x' : Byte.byte) :
  length key = 32%nat ->
  data !! i = Some x -> x' <> x ->
  tagOf key ivBytes (<[i := x']> data) AUTH_TAG_LENGTH
  <> tagOf key ivBytes data AUTH_TAG_LENGTH.
Proof.
  intros Hkey Hi Hx. unfold tagOf.
  destruct key as [|k key]; [done|]. simpl.
  intros [= Hfirst _].
  apply (f_equal Byte.to_N) in Hfirst. rewrite !to_N_byteOfN in Hfirst.
  pose proof (total_insert data i x x' Hi) as Htotal.
  apply Hx. rewrite <- (byteOfN_to_N x'), <- (byteOfN_to_N x). f_equal.
  pose proof (Byte.to_N_bounded x). pose proof (Byte.to_N_bounded x').
  nlia.
Qed.

#[global] Instance gcm_laws : GcmLaws node (fun _ => False).
Proof.
  split.
  - intros tag. cbn. unfold setAuthTag, AUTH_TAG_LENGTH.
    destruct (Z.eqb_spec (Z.of_nat (length tag)) 16); [lia | done].
  - intros key ivBytes tag data plain _ Htag. by apply decipher_genuine.
  - intros key ivBytes plain plain'. apply cipher_injective.
  - intros key ivBytes plain plain' i x x' Hkey _. cbn.
    unfold cipher. cbn [fst snd]. intros Hi Hx ->.
    by apply tagOf_one_byte with (x := x).
Qed.

End ReferenceNodeFacts.

(** ** Encryption *)

Module EncryptionFacts.
Import Encryption Notions.

Lemma subarray_split (data tag : bytes) :
  length tag = 16%nat ->
  let len := Z.of_nat (length (data ++ tag)) in
  subarray (data ++ tag) 0 (len - AUTH_TAG_LENGTH) = data
  /\ subarray (data ++ tag) (len - AUTH_TAG_LENGTH) len = tag.
Proof.
  intros Htag len. unfold subarray, AUTH_TAG_LENGTH. fold len.
  assert (Hlen : len = Z.of_nat (length data) + 16).
  { unfold len. rewrite length_app. lia. }
  destruct (Z.ltb_spec 0 0); [lia|].
  destruct (Z.ltb_spec (len - 16) 0); [lia|].
  destruct (Z.ltb_spec len 0); [lia|].
  replace (Z.min 0 len) with 0 by lia.
  replace (Z.min (len - 16) len) with (Z.of_nat (length data)) by lia.
  replace (Z.min len len) with len by lia.
  split.
  - rewrite Z.sub_0_r, Nat2Z.id. simpl. apply take_app_length.
  - rewrite Nat2Z.id, drop_app_length.
    replace (Z.to_nat (len - Z.of_nat (length data))) with (length tag) by lia.
    apply firstn_all.
Qed.

Lemma unsupportedVersion_not_decryptionFailed (v : Z) :
  unsupportedVersion v <> decryptionFailed.
Proof.
  unfold unsupportedVersion, decryptionFailed. intros [=].
Qed.

Section Laws.
Context (node : Node) {laws : NodeLaws node}.

(** What comes back from [decrypt] is the plaintext as the UTF-8 round trip
    leaves it: well-formed, each lone surrogate replaced by U+FFFD. *)
Lemma decrypt_encrypt (saltBytes ivBytes : bytes) (data : list N)
    (passphrase : string) :
  length ivBytes = Z.to_nat IV_LENGTH ->
  Forall JsString.isCodeUnit data ->
  decrypt node (encrypt node saltBytes ivBytes data passphrase) passphrase
  = Ok (JsString.toWellFormed data).
Proof.
  intros Hiv Hdata. unfold encrypt.
  pose proof (cipher_tag_length (deriveKey node passphrase saltBytes)
                ivBytes (utf8Encode node data)) as Htag.
  pose proof (decipher_cipher (deriveKey node passphrase saltBytes)
                ivBytes (utf8Encode node data)) as Hopen.
  destruct (cipher node ALGORITHM _ ivBytes AUTH_TAG_LENGTH _)
    as [encrypted authTag].
  cbn [fst snd] in Htag, Hopen.
  unfold decrypt. cbn [salt iv ciphertext version]. cbn [Z.eqb negb].
  rewrite !base64_round_trip.
  destruct (subarray_split encrypted authTag Htag) as [-> ->].
  rewrite createDecipheriv_accepts; [|by apply pbkdf2_length|done].
  rewrite setAuthTag_accepts by done.
  rewrite Hopen. by rewrite utf8_round_trip.
Qed.

(** C2, amended: for every passphrase and every well-formed plaintext (a JS
    string without lone surrogates), decrypting what [encrypt] produced,
    whatever salt and IV it drew, under the same passphrase returns exactly
    the plaintext. *)
Theorem encrypt_decrypt_round_trip (saltBytes ivBytes : bytes)
    (data : list N) (passphrase : string) :
  length saltBytes = Z.to_nat SALT_LENGTH ->
  length ivBytes = Z.to_nat IV_LENGTH ->
  Forall JsString.isCodeUnit data ->
  JsString.isWellFormed data ->
  decrypt node (encrypt node saltBytes ivBytes data passphrase) passphrase
  = Ok data.
Proof.
  intros _ Hiv Hdata Hwf. rewrite decrypt_encrypt by done. by rewrite Hwf.
Qed.

(** Modelled from the spec: a cached encryptor encrypts as [encrypt] does
    with the encryptor's salt. *)
Lemma cachedEncrypt_is_encrypt (saltBytes ivBytes : bytes) (data : list N)
    (passphrase : string) :
  cachedEncrypt node (createCachedEncryptor node saltBytes passphrase)
    ivBytes data
  = encrypt node saltBytes ivBytes data passphrase.
Proof. reflexivity. Qed.

(** C9, amended: the encryptor made for a passphrase holds the key derived
    from the one salt it drew; every payload it produces carries that salt
    and the IV drawn for it; and, for a well-formed plaintext (no lone
    surrogates), the payload decrypts under the standard [decrypt] with the
    passphrase to the plaintext. *)
Theorem cached_encryptor_payloads (saltBytes ivBytes : bytes)
    (data : list N) (passphrase : string) :
  length saltBytes = Z.to_nat SALT_LENGTH ->
  length ivBytes = Z.to_nat IV_LENGTH ->
  Forall JsString.isCodeUnit data ->
  JsString.isWellFormed data ->
  let encryptor := createCachedEncryptor node saltBytes passphrase in
  let payload := cachedEncrypt node encryptor ivBytes data in
  ce_key encryptor = deriveKey node passphrase saltBytes
  /\ salt payload = toBase64 node saltBytes
  /\ iv payload = toBase64 node ivBytes
  /\ decrypt node payload passphrase = Ok data.
Proof.
  intros _ Hiv Hdata Hwf encryptor payload. subst encryptor payload.
  split; [reflexivity|]. rewrite cachedEncrypt_is_encrypt.
  split_and!.
  - unfold encrypt. by destruct (cipher _ _ _ _ _ _).
  - unfold encrypt. by destruct (cipher _ _ _ _ _ _).
  - rewrite decrypt_encrypt by done. by rewrite Hwf.
Qed.

End Laws.

(** *** What [decrypt] can answer *)

(** Flipping one of its eight bits changes a byte. *)
Lemma flipBit_changes (j : nat) (b : Byte.byte) :
  (j < 8)%nat -> flipBit j b <> b.
Proof.
  intros Hj Heq. apply (f_equal Byte.to_bits) in Heq. unfold flipBit in Heq.
  destruct (Byte.to_bits b) as (b0 & b1 & b2 & b3 & b4 & b5 & b6 & b7).
  rewrite Byte.to_bits_of_bits in Heq.
  do 8 (destruct j as [|j];
        [simpl in Heq;
         by destruct b0, b1, b2, b3, b4, b5, b6, b7|]).
  lia.
Qed.

(** A flip in the ciphertext and tag of a payload falls in the ciphertext or
    in the tag, and changes one byte of it. *)
Lemma flipAt_app (i j : nat) (data tag : bytes) :
  (i < length (data ++ tag))%nat -> (j < 8)%nat ->
  (exists x x',
     data !! i = Some x /\ x' <> x
     /\ flipAt i j (data ++ tag) = (<[i := x']> data ++ tag)%list)
  \/ ((length data <= i)%nat
      /\ exists tag',
           tag' <> tag /\ length tag' = length tag
           /\ flipAt i j (data ++ tag) = (data ++ tag')%list).
Proof.
  intros Hi Hj. unfold flipAt.
  destruct (decide (i < length data)%nat) as [Hdata|Htag].
  - left. destruct (lookup_lt_is_Some_2 data i Hdata) as [x Hx].
    rewrite lookup_app_l, Hx by done. exists x, (flipBit j x).
    split_and!; [done | by apply flipBit_changes |].
    by rewrite insert_app_l.
  - right. split; [lia|]. rewrite length_app in Hi.
    destruct (lookup_lt_is_Some_2 tag (i - length data)) as [x Hx]; [lia|].
    rewrite lookup_app_r, Hx by lia.
    exists (<[(i - length data)%nat := flipBit j x]> tag).
    split_and!.
    + intros Heq.
      apply (f_equal (fun l => l !! (i - length data)%nat)) in Heq.
      rewrite list_lookup_insert_eq, Hx in Heq by lia.
      injection Heq. by apply flipBit_changes.
    + apply length_insert.
    + rewrite insert_app_r_alt by lia. done.
Qed.

Section Outcomes.
Context (node : Node) (weak : bytes -> Prop).
Context {laws : NodeLaws node} {gcm : GcmLaws node weak}.

Lemma keyOf_length (payload : EncryptedPayload) (passphrase : string) :
  length (keyOf node payload passphrase) = 32%nat.
Proof. unfold keyOf, deriveKey. by rewrite pbkdf2_length. Qed.

(** A payload of [encrypt] as [decrypt] cuts it. *)
Lemma encrypt_pieces (saltBytes ivBytes : bytes) (data : list N)
    (passphrase : string) :
  let payload := encrypt node saltBytes ivBytes data passphrase in
  let sealed :=
    cipher node ALGORITHM (deriveKey node passphrase saltBytes) ivBytes
      AUTH_TAG_LENGTH (utf8Encode node data) in
  version payload = CURRENT_VERSION
  /\ fromBase64 node (salt payload) = saltBytes
  /\ fromBase64 node (iv payload) = ivBytes
  /\ fromBase64 node (ciphertext payload) = (sealed.1 ++ sealed.2)%list
  /\ length sealed.2 = 16%nat.
Proof.
  cbv zeta. unfold encrypt.
  pose proof (cipher_tag_length (deriveKey node passphrase saltBytes)
                ivBytes (utf8Encode node data)) as Htag.
  destruct (cipher node ALGORITHM _ ivBytes AUTH_TAG_LENGTH _)
    as [encrypted authTag].
  cbn. by rewrite !base64_round_trip.
Qed.

(** [decrypt] on a payload of version 1 whose pieces are given, with an IV
    of 12 bytes and a tag of 16. *)
Lemma decrypt_pieces (payload : EncryptedPayload) (passphrase : string)
    (data tag : bytes) :
  version payload = CURRENT_VERSION ->
  length (fromBase64 node (iv payload)) = 12%nat ->
  fromBase64 node (ciphertext payload) = (data ++ tag)%list ->
  length tag = 16%nat ->
  decrypt node payload passphrase
  = match
      decipher node ALGORITHM (keyOf node payload passphrase)
        (fromBase64 node (iv payload)) tag data
    with
    | Some decrypted => Ok (utf8Decode node decrypted)
    | None => Throw decryptionFailed
    end.
Proof.
  intros Hv Hiv Hbytes Htag. unfold decrypt.
  rewrite Hv, Z.eqb_refl, Hbytes. cbn [negb].
  destruct (subarray_split data tag Htag) as [-> ->].
  fold (keyOf node payload passphrase).
  rewrite createDecipheriv_accepts; [|apply keyOf_length|done].
  by rewrite setAuthTag_accepts.
Qed.

(** C3, amended.  For every payload and passphrase: a version other than 1
    makes [decrypt] throw the version error, which is not the decryption
    failure; what [createDecipheriv] or [setAuthTag] throw leaves [decrypt]
    as it is; otherwise [decrypt] throws the decryption failure exactly when
    the payload is not what the cipher makes of any plaintext under the key
    of the passphrase, and returns the decoding of that plaintext when it
    is: it never returns another text.  For a payload made by [encrypt]:
    with any bit of the tag flipped, and, the key not being weak, with any
    bit of the ciphertext flipped, [decrypt] throws the decryption failure
    under the passphrase of the payload; and under another passphrase it
    throws the decryption failure unless the key of that passphrase
    encrypts some plaintext to the very ciphertext and tag of the payload,
    which it then returns decoded. *)
Theorem decrypt_outcomes (payload : EncryptedPayload) (passphrase : string)
    (saltBytes ivBytes : bytes) (data : list N) (other : string)
    (i j : nat) :
  (version payload <> CURRENT_VERSION ->
   decrypt node payload passphrase
   = Throw (unsupportedVersion (version payload))
   /\ unsupportedVersion (version payload) <> decryptionFailed)
  /\ (version payload = CURRENT_VERSION ->
      forall e,
        createDecipheriv node ALGORITHM (keyOf node payload passphrase)
          (ivOf node payload) AUTH_TAG_LENGTH
        = Some e
        \/ createDecipheriv node ALGORITHM (keyOf node payload passphrase)
             (ivOf node payload) AUTH_TAG_LENGTH
           = None
           /\ setAuthTag node AUTH_TAG_LENGTH (authTagOf node payload)
              = Some e ->
        decrypt node payload passphrase = Throw e)
  /\ (version payload = CURRENT_VERSION ->
      accepted node payload passphrase ->
      (decrypt node payload passphrase = Throw decryptionFailed
       <-> ~ exists plain, encrypts node payload passphrase plain)
      /\ (forall plain,
            encrypts node payload passphrase plain ->
            decrypt node payload passphrase = Ok (utf8Decode node plain)))
  /\ (forall text,
        decrypt node payload passphrase = Ok text ->
        version payload = CURRENT_VERSION
        /\ accepted node payload passphrase
        /\ exists plain,
             encrypts node payload passphrase plain
             /\ text = utf8Decode node plain)
  /\ (let genuine := encrypt node saltBytes ivBytes data passphrase in
      length ivBytes = 12%nat ->
      (i < length (fromBase64 node (ciphertext genuine)))%nat ->
      (j < 8)%nat ->
      (length (fromBase64 node (ciphertext genuine)) - 16 <= i)%nat
      \/ ~ weak (deriveKey node passphrase saltBytes) ->
      decrypt node (tamperedAt node i j genuine) passphrase
      = Throw decryptionFailed)
  /\ (let genuine := encrypt node saltBytes ivBytes data passphrase in
      length ivBytes = 12%nat ->
      decrypt node genuine other = Throw decryptionFailed
      \/ exists plain,
           decrypt node genuine other = Ok (utf8Decode node plain)
           /\ cipher node ALGORITHM (deriveKey node other saltBytes) ivBytes
                AUTH_TAG_LENGTH plain
              = cipher node ALGORITHM (deriveKey node passphrase saltBytes)
                  ivBytes AUTH_TAG_LENGTH (utf8Encode node data)).
Proof.
  split_and!.
  - intros Hv. split; [|apply unsupportedVersion_not_decryptionFailed].
    unfold decrypt. destruct (Z.eqb_spec (version payload) CURRENT_VERSION);
      [contradiction | reflexivity].
  - intros Hv e. unfold decrypt, keyOf, ivOf, authTagOf.
    rewrite Hv, Z.eqb_refl. cbn [negb]. cbv zeta.
    by intros [-> | [-> ->]].
  - intros Hv [Hcreate Htag].
    pose proof (setAuthTag_length _ Htag) as Hlength.
    assert (Hrun :
      decrypt node payload passphrase
      = match verified node payload passphrase with
        | Some decrypted => Ok (utf8Decode node decrypted)
        | None => Throw decryptionFailed
        end).
    { revert Hcreate Htag. unfold decrypt, verified, keyOf, ivOf, dataOf,
        authTagOf. rewrite Hv, Z.eqb_refl. cbn [negb]. cbv zeta.
      by intros -> ->. }
    assert (Hopen : forall plain,
      encrypts node payload passphrase plain ->
      verified node payload passphrase = Some plain).
    { intros plain Hplain. unfold verified.
      pose proof (decipher_cipher (keyOf node payload passphrase)
                    (ivOf node payload) plain) as Hopen.
      unfold encrypts in Hplain. by rewrite Hplain in Hopen. }
    rewrite Hrun.
    destruct (verified node payload passphrase) as [decrypted|] eqn:Hverified.
    + split.
      * split; [done|]. intros Hnone. exfalso. apply Hnone.
        exists decrypted. apply decipher_genuine;
          [apply keyOf_length | done | done].
      * intros plain Hplain. apply Hopen in Hplain. congruence.
    + split.
      * split; [|done]. intros _ [plain Hplain].
        apply Hopen in Hplain. congruence.
      * intros plain Hplain. apply Hopen in Hplain. congruence.
  - intros text. unfold decrypt.
    destruct (Z.eqb_spec (version payload) CURRENT_VERSION) as [Hv|];
      [|discriminate].
    cbn [negb]. cbv zeta.
    destruct (createDecipheriv _ _ _ _ _) as [e|] eqn:Hcreate;
      [discriminate|].
    destruct (setAuthTag _ _ _) as [e|] eqn:Htag; [discriminate|].
    destruct (decipher _ _ _ _ _ _) as [plain|] eqn:Hopen; [|discriminate].
    intros [= <-]. split_and!; [done | by split |].
    exists plain. split; [|done].
    apply decipher_genuine;
      [apply keyOf_length | by apply setAuthTag_length | done].
  - intros genuine Hiv Hi Hj Hwhere.
    destruct (encrypt_pieces saltBytes ivBytes data passphrase)
      as (Hv & Hsalt & Hivs & Hbytes & Htag).
    fold genuine in Hv, Hsalt, Hivs, Hbytes.
    set (key := deriveKey node passphrase saltBytes) in *.
    set (plain := utf8Encode node data) in *.
    set (sealed := cipher node ALGORITHM key ivBytes AUTH_TAG_LENGTH plain)
      in *.
    assert (Hkey : length key = 32%nat)
      by (unfold key, deriveKey; by rewrite pbkdf2_length).
    rewrite Hbytes in Hi, Hwhere.
    destruct (flipAt_app i j sealed.1 sealed.2 Hi Hj)
      as [(x & x' & Hx & Hne & Hflip) | (Hin & tag' & Hne & Hlen & Hflip)].
    + (* a byte of the ciphertext *)
      assert (Hweak : ~ weak key).
      { destruct Hwhere as [Hwhere|]; [|done]. exfalso.
        apply lookup_lt_Some in Hx. rewrite length_app, Htag in Hwhere.
        lia. }
      rewrite (decrypt_pieces (tamperedAt node i j genuine) passphrase
                 (<[i := x']> sealed.1) sealed.2); try done.
      2:{ cbn. by rewrite Hivs. }
      2:{ cbn. by rewrite base64_round_trip, Hbytes, Hflip. }
      unfold keyOf. cbn [salt iv tamperedAt]. rewrite Hsalt, Hivs.
      fold key.
      destruct (decipher node ALGORITHM key ivBytes sealed.2
                  (<[i := x']> sealed.1)) as [plain'|] eqn:Hopen; [|done].
      exfalso. apply decipher_genuine in Hopen; [|done..].
      apply (cipher_tag_one_byte key ivBytes plain plain' i x x');
        [done.. | by rewrite Hopen | by rewrite Hopen].
    + (* a byte of the tag *)
      rewrite (decrypt_pieces (tamperedAt node i j genuine) passphrase
                 sealed.1 tag'); try done.
      2:{ cbn. by rewrite Hivs. }
      2:{ cbn. by rewrite base64_round_trip, Hbytes, Hflip. }
      2:{ by rewrite Hlen. }
      unfold keyOf. cbn [salt iv tamperedAt]. rewrite Hsalt, Hivs.
      fold key.
      destruct (decipher node ALGORITHM key ivBytes tag' sealed.1)
        as [plain'|] eqn:Hopen; [|done].
      exfalso. apply decipher_genuine in Hopen; [|done | by rewrite Hlen].
      assert (plain' = plain) as ->.
      { apply (cipher_injective key ivBytes). by rewrite Hopen. }
      apply Hne. fold sealed in Hopen. by rewrite Hopen.
  - intros genuine Hiv.
    destruct (encrypt_pieces saltBytes ivBytes data passphrase)
      as (Hv & Hsalt & Hivs & Hbytes & Htag).
    fold genuine in Hv, Hsalt, Hivs, Hbytes.
    set (sealed :=
           cipher node ALGORITHM (deriveKey node passphrase saltBytes)
             ivBytes AUTH_TAG_LENGTH (utf8Encode node data)) in *.
    rewrite (decrypt_pieces genuine other sealed.1 sealed.2); try done.
    2:{ by rewrite Hivs. }
    unfold keyOf. rewrite Hsalt, Hivs.
    destruct (decipher node ALGORITHM (deriveKey node other saltBytes)
                ivBytes sealed.2 sealed.1) as [plain|] eqn:Hopen;
      [|by left].
    right. exists plain. split; [done|].
    apply decipher_genuine in Hopen;
      [| unfold deriveKey; by rewrite pbkdf2_length | done].
    rewrite Hopen. by destruct sealed.
Qed.

End Outcomes.

(** *** Concrete runs on the reference platform *)

(** The round trip of the test suite. *)
Lemma encrypt_decrypt_round_trip_witness :
  decrypt ReferenceNode.node
    (encrypt ReferenceNode.node Fixtures.sampleSalt Fixtures.sampleIv
       (JsString.ofString "Hello, World!") "test-passphrase-12345678")
    "test-passphrase-12345678"
  = Ok (JsString.ofString "Hello, World!").
Proof.
  apply (encrypt_decrypt_round_trip ReferenceNode.node).
  - reflexivity.
  - reflexivity.
  - repeat constructor.
  - reflexivity.
Defined.

(** C2, as stated, fails: the plaintext made of one lone surrogate, U+D800,
    comes back as U+FFFD. *)
Lemma lone_surrogate_does_not_round_trip :
  decrypt ReferenceNode.node
    (encrypt ReferenceNode.node Fixtures.sampleSalt Fixtures.sampleIv
       [0xD800%N] "pw")
    "pw"
  = Ok [0xFFFD%N]
  /\ [0xFFFD%N] <> [0xD800%N].
Proof.
  split; [|discriminate].
  by rewrite (decrypt_encrypt ReferenceNode.node) by (repeat constructor).
Qed.

(** The same under every platform that meets the laws. *)
Lemma lone_surrogate_is_replaced (node : Node) (laws : NodeLaws node)
    (saltBytes ivBytes : bytes) (passphrase : string) :
  length ivBytes = Z.to_nat IV_LENGTH ->
  decrypt node (encrypt node saltBytes ivBytes [0xD800%N] passphrase)
    passphrase
  = Ok [0xFFFD%N].
Proof.
  intros Hiv.
  by rewrite decrypt_encrypt by first [done | repeat constructor].
Qed.

(** On the reference platform, with the sample payload made by [encrypt]
    from "hi there" under "secret-pass": it is refused as a decryption
    failure with the lowest bit of its fourth byte flipped, and under
    another passphrase. *)
Lemma decrypt_outcomes_witness :
  decrypt ReferenceNode.node
    (tamperedAt ReferenceNode.node 3 0
       (encrypt ReferenceNode.node Fixtures.sampleSalt Fixtures.sampleIv
          (JsString.ofString "hi there") "secret-pass"))
    "secret-pass"
  = Throw decryptionFailed
  /\ (decrypt ReferenceNode.node
        (encrypt ReferenceNode.node Fixtures.sampleSalt Fixtures.sampleIv
           (JsString.ofString "hi there") "secret-pass")
        "wrong-passphrase"
      = Throw decryptionFailed
      \/ exists plain,
           decrypt ReferenceNode.node
             (encrypt ReferenceNode.node Fixtures.sampleSalt
                Fixtures.sampleIv (JsString.ofString "hi there")
                "secret-pass")
             "wrong-passphrase"
           = Ok (utf8Decode ReferenceNode.node plain)
           /\ cipher ReferenceNode.node ALGORITHM
                (deriveKey ReferenceNode.node "wrong-passphrase"
                   Fixtures.sampleSalt)
                Fixtures.sampleIv AUTH_TAG_LENGTH plain
              = cipher ReferenceNode.node ALGORITHM
                  (deriveKey ReferenceNode.node "secret-pass"
                     Fixtures.sampleSalt)
                  Fixtures.sampleIv AUTH_TAG_LENGTH
                  (utf8Encode ReferenceNode.node
                     (JsString.ofString "hi there"))).
Proof.
  destruct (decrypt_outcomes ReferenceNode.node (fun _ => False)
              (Fixtures.samplePayload 1) "secret-pass" Fixtures.sampleSalt
              Fixtures.sampleIv (JsString.ofString "hi there")
              "wrong-passphrase" 3 0)
    as (_ & _ & _ & _ & Htampered & Hother).
  split.
  - apply Htampered.
    + reflexivity.
    + vm_compute. lia.
    + lia.
    + right. intros [].
  - apply Hother. reflexivity.
Defined.

(** The sample payload is that payload, and the two runs end in the
    decryption failure. *)
Example sample_payload_runs :
  encrypt ReferenceNode.node Fixtures.sampleSalt Fixtures.sampleIv
    (JsString.ofString "hi there") "secret-pass"
  = Fixtures.samplePayload 1
  /\ decrypt ReferenceNode.node (Fixtures.samplePayload 1) "secret-pass"
     = Ok (JsString.ofString "hi there")
  /\ decrypt ReferenceNode.node (Fixtures.samplePayload 1) "wrong-passphrase"
     = Throw decryptionFailed
  /\ decrypt ReferenceNode.node
       (tamperedAt ReferenceNode.node 3 0 (Fixtures.samplePayload 1))
       "secret-pass"
     = Throw decryptionFailed.
Proof. split_and!; vm_compute; reflexivity. Qed.

(** A payload cut short, so that its tag has fewer than 16 bytes, is
    refused by [setAuthTag] with an error of Node's own, which is not the
    decryption failure either. *)
Example truncated_payload_is_another_error :
  decrypt ReferenceNode.node
    {| salt := salt (Fixtures.samplePayload 1);
       iv := iv (Fixtures.samplePayload 1);
       ciphertext := "+vuyBvr3BPc=";
       version := 1 |}
    "secret-pass"
  = Throw (Error "Invalid authentication tag length: 8").
Proof. vm_compute. reflexivity. Qed.

(** C3, as stated, fails: the sample payload at version 2 is refused with an
    error that is not the decryption failure. *)
Lemma unsupported_version_is_another_error :
  decrypt ReferenceNode.node (Fixtures.samplePayload 2) "secret-pass"
  = Throw (Error "Unsupported encryption version: 2")
  /\ Error "Unsupported encryption version: 2" <> decryptionFailed.
Proof. split; [vm_compute; reflexivity | discriminate]. Qed.

(** With one character of the ciphertext changed, the payload is refused as
    a decryption failure under its own passphrase. *)
Example decrypt_tampered :
  decrypt ReferenceNode.node
    {| salt := salt (Fixtures.samplePayload 1);
       iv := iv (Fixtures.samplePayload 1);
       ciphertext := "+vuzBvr3BPckFhQjFiXeIRIkJLKysrKy";
       version := 1 |}
    "secret-pass"
  = Throw decryptionFailed.
Proof. vm_compute. reflexivity. Qed.

(** The cached encryptor of the test suite: two payloads, one salt. *)
Lemma cached_encryptor_payloads_witness :
  let encryptor :=
    createCachedEncryptor ReferenceNode.node Fixtures.sampleSalt
      "test-passphrase-12345678" in
  let payload :=
    cachedEncrypt ReferenceNode.node encryptor Fixtures.sampleIv
      (JsString.ofString "data1") in
  ce_key encryptor
  = deriveKey ReferenceNode.node "test-passphrase-12345678" Fixtures.sampleSalt
  /\ salt payload = toBase64 ReferenceNode.node Fixtures.sampleSalt
  /\ iv payload = toBase64 ReferenceNode.node Fixtures.sampleIv
  /\ decrypt ReferenceNode.node payload "test-passphrase-12345678"
     = Ok (JsString.ofString "data1").
Proof.
  apply (cached_encryptor_payloads ReferenceNode.node).
  - reflexivity.
  - reflexivity.
  - repeat constructor.
  - reflexivity.
Defined.

(** C9, as stated, fails: a payload the cached encryptor made of a lone
    surrogate decrypts to U+FFFD. *)
Lemma cached_lone_surrogate_does_not_round_trip :
  decrypt ReferenceNode.node
    (cachedEncrypt ReferenceNode.node
       (createCachedEncryptor ReferenceNode.node Fixtures.sampleSalt "pw")
       Fixtures.sampleIv [0xD800%N])
    "pw"
  = Ok [0xFFFD%N]
  /\ [0xFFFD%N] <> [0xD800%N].
Proof.
  split; [|discriminate].
  rewrite cachedEncrypt_is_encrypt.
  by rewrite (decrypt_encrypt ReferenceNode.node) by (repeat constructor).
Qed.

End EncryptionFacts.

(** ** SyncEngine: what the two phases select *)

Module SelectionFacts.
Import GitHubRepo SyncEngine ConflictResolver.

Section Maps.
Context {V : Type}.
Implicit Types (m : JsMap.t V) (k : string) (v : V).

Lemma has_set m k v k' :
  JsMap.has (JsMap.set m k v) k' = String.eqb k k' || JsMap.has m k'.
Proof.
  unfold JsMap.has. rewrite JsMapFacts.get_set.
  by destruct (String.eqb k k').
Qed.

(** A property of every binding survives [set] with a binding that has
    it. *)
Lemma set_Forall (P : string * V -> Prop) m k v :
  Forall P m -> P (k, v) -> Forall P (JsMap.set m k v).
Proof.
  intros Hm Hkv. induction m as [|[k0 v0] m IH]; simpl.
  - by constructor.
  - apply Forall_cons in Hm as [H0 Hm].
    destruct (String.eqb k0 k); constructor; auto.
Qed.

Lemma get_In m k v : JsMap.get m k = Some v -> In (k, v) m.
Proof.
  induction m as [|[k0 v0] m IH]; simpl; [done|].
  destruct (String.eqb_spec k0 k) as [->|]; [intros [= ->]; by left|].
  intros Hget. right. by apply IH.
Qed.

Lemma keys_set m k v :
  JsMap.keys (JsMap.set m k v)
  = if JsMap.has m k then JsMap.keys m else (JsMap.keys m ++ [k])%list.
Proof.
  unfold JsMap.has, JsMap.keys.
  induction m as [|[k0 v0] m IH]; simpl; [done|].
  destruct (String.eqb_spec k0 k) as [->|Hne]; simpl; [done|].
  rewrite IH. by destruct (JsMap.get m k).
Qed.

Lemma has_In m k : JsMap.has m k = true <-> In k (JsMap.keys m).
Proof.
  rewrite JsMapFacts.has_keys, bool_decide_eq_true. apply list_elem_of_In.
Qed.

Lemma set_NoDup m k v :
  List.NoDup (JsMap.keys m) -> List.NoDup (JsMap.keys (JsMap.set m k v)).
Proof.
  intros Hm. rewrite keys_set. destruct (JsMap.has m k) eqn:Hk; [done|].
  apply List.NoDup_app; [done | repeat constructor; by intros [] |].
  intros k' Hin [<-|[]]. apply has_In in Hin. congruence.
Qed.

End Maps.

(** Every answer of [resolveAll] is that of [resolve] for its id. *)
Lemma resolveAll_answers (localSessions : JsMap.t CopilotSession)
    (remoteEntries : JsMap.t SyncManifestEntry)
    (localHashes : JsMap.t string) (actions : JsMap.t ConflictAction)
    (id : string) (a : ConflictAction) :
  resolveAll localSessions remoteEntries localHashes = Ok actions ->
  In (id, a) actions ->
  resolve (JsMap.get localSessions id) (JsMap.get remoteEntries id)
    (JsMap.get localHashes id)
  = Ok a.
Proof.
  unfold resolveAll.
  set (f := fun i =>
              resolve (JsMap.get localSessions i) (JsMap.get remoteEntries i)
                (JsMap.get localHashes i)).
  assert (Hall : forall ids acc actions',
            Forall (fun b => f b.1 = Ok b.2) acc ->
            fold_left (resolveStep localSessions remoteEntries localHashes)
              ids (Ok acc)
            = Ok actions' ->
            Forall (fun b => f b.1 = Ok b.2) actions').
  { induction ids as [|i rest IH]; intros acc actions' Hacc; simpl.
    { by intros [= <-]. }
    fold (f i). destruct (f i) as [ai|e] eqn:Hi.
    - apply IH. by apply set_Forall.
    - by rewrite ConflictResolverFacts.resolveLoop_thrown. }
  intros Hloop Hin.
  pose proof (Hall _ [] actions (List.Forall_nil _) Hloop) as Hres.
  rewrite List.Forall_forall in Hres. apply (Hres (id, a) Hin).
Qed.

(** The ids [resolveAll] answers for are pairwise different. *)
Lemma resolveAll_NoDup (localSessions : JsMap.t CopilotSession)
    (remoteEntries : JsMap.t SyncManifestEntry)
    (localHashes : JsMap.t string) (actions : JsMap.t ConflictAction) :
  resolveAll localSessions remoteEntries localHashes = Ok actions ->
  List.NoDup (JsMap.keys actions).
Proof.
  unfold resolveAll.
  generalize (unique_ids []
                (JsMap.keys localSessions ++ JsMap.keys remoteEntries)).
  assert (Hacc : List.NoDup (JsMap.keys (@nil (string * ConflictAction))))
    by constructor.
  revert Hacc. generalize (@nil (string * ConflictAction)).
  intros acc Hacc ids. revert acc Hacc.
  induction ids as [|i rest IH]; intros acc Hacc; simpl.
  { by intros [= <-]. }
  destruct (resolve _ _ _) as [a|e].
  - apply IH. by apply set_NoDup.
  - by rewrite ConflictResolverFacts.resolveLoop_thrown.
Qed.

(** So are the sessions of a push. *)
Lemma collectToPush_NoDup (metadata : list SessionMetadata)
    (localHashes : JsMap.t string) (actions : JsMap.t ConflictAction) :
  List.NoDup (JsMap.keys actions) ->
  List.NoDup (map pi_sessionId (collectToPush metadata localHashes actions)).
Proof.
  unfold collectToPush, JsMap.keys.
  induction actions as [|[id a] rest IH]; simpl; [constructor|].
  intros Hnodup. apply List.NoDup_cons_iff in Hnodup as [Hfresh Hnodup].
  rewrite map_app. apply List.NoDup_app.
  - destruct (wantsPush a); [|constructor].
    destruct (List.find _ metadata); [|constructor].
    destruct (JsMap.get localHashes id) as [h|]; [|constructor].
    destruct (truthy h); repeat constructor. by intros [].
  - by apply IH.
  - intros id' Hhead Htail. apply Hfresh.
    assert (id' = id) as ->.
    { destruct (wantsPush a); [|done].
      destruct (List.find _ metadata); [|done].
      destruct (JsMap.get localHashes id) as [h|]; [|done].
      destruct (truthy h); [|done]. by destruct Hhead as [<-|[]]. }
    clear -Htail. apply in_map_iff in Htail as (item & <- & Hin).
    apply in_flat_map in Hin as ([id' a'] & Hin & Hitem).
    assert (pi_sessionId item = id') as ->.
    { destruct (wantsPush a'); [|done].
      destruct (List.find _ metadata); [|done].
      destruct (JsMap.get localHashes id') as [h|]; [|done].
      destruct (truthy h); [|done]. by destruct Hitem as [<-|[]]. }
    apply in_map_iff. by exists (id', a').
Qed.

(** What [resolve] tells by a push: the session is on this side, and the
    other side either lacks it or holds another content that is not
    newer. *)
Lemma resolve_wantsPush (local : option CopilotSession)
    (remote : option SyncManifestEntry) (h : string) (a : ConflictAction) :
  h <> "" ->
  resolve local remote (Some h) = Ok a ->
  wantsPush a = true ->
  exists l,
    local = Some l
    /\ match remote with
       | None => action a = new_local
       | Some r =>
           action a = push
           /\ me_sha r <> h
           /\ cs_lastMessageDate l >= me_lastMessageDate r
       end.
Proof.
  intros Hh. unfold wantsPush, resolve.
  destruct local as [l|], remote as [r|]; simpl;
    [| intros [= <-] _; by eexists | by intros [= <-] | by intros [= <-]].
  apply truthy_true in Hh. rewrite Hh. simpl.
  case_bool_decide as Hsha; simpl; [by intros [= <-]|].
  destruct (Z.gtb_spec (cs_lastMessageDate l) (me_lastMessageDate r)).
  { destruct (formatDates _ _) as [[localText remoteText]|e]; [|done].
    intros [= <-] _. exists l. split_and!; [done..|congruence|lia]. }
  destruct (Z.gtb_spec (me_lastMessageDate r) (cs_lastMessageDate l)).
  { destruct (formatDates _ _) as [[remoteText localText]|e]; [|done].
    by intros [= <-]. }
  intros [= <-] _. exists l. split_and!; [done..|congruence|lia].
Qed.

Section Selection.
Context {Disk : Type} (H : Host Disk).

(** The hashing loop leaves a session in [localMap] exactly when it has a
    hash for it, the hash is never empty, and the session is the
    lightweight copy of one of the metadata records. *)
Theorem hashAll_hashes_every_session (disk : Disk)
    (hashCache : gmap string CachedHashEntry)
    (metadata : list SessionMetadata) (id : string) :
  let '(_, localHashes, localMap) := hashAll H disk hashCache metadata in
  JsMap.has localMap id = JsMap.has localHashes id
  /\ (forall h, JsMap.get localHashes id = Some h -> h <> "")
  /\ (forall l, JsMap.get localMap id = Some l ->
        exists meta,
          In meta metadata /\ md_id meta = id /\ l = sessionOfMetadata meta).
Proof.
  unfold hashAll.
  assert (Hloop : forall seen todo acc,
    (let '(_, localHashes, localMap) := acc in
     JsMap.has localMap id = JsMap.has localHashes id
     /\ (forall h, JsMap.get localHashes id = Some h -> h <> "")
     /\ (forall l, JsMap.get localMap id = Some l ->
           exists meta,
             In meta seen /\ md_id meta = id /\ l = sessionOfMetadata meta)) ->
    let '(_, localHashes, localMap) :=
      fold_left (hashStep H disk) todo acc in
    JsMap.has localMap id = JsMap.has localHashes id
    /\ (forall h, JsMap.get localHashes id = Some h -> h <> "")
    /\ (forall l, JsMap.get localMap id = Some l ->
          exists meta,
            In meta (seen ++ todo)%list /\ md_id meta = id
            /\ l = sessionOfMetadata meta)).
  { intros seen todo. revert seen.
    induction todo as [|meta rest IH]; intros seen [[c hs] lm] Hacc.
    { simpl. by rewrite app_nil_r. }
    simpl. specialize (IH (seen ++ [meta])%list).
    rewrite <- app_assoc in IH. apply IH. clear IH.
    destruct Hacc as (Hhas & Hne & Hfrom). unfold hashStep.
    destruct (truthy (hl_hash (getContentHash H disk meta c))) eqn:Ht.
    - rewrite !has_set, Hhas. split; [done|].
      split.
      + intros h. rewrite JsMapFacts.get_set.
        destruct (String.eqb (md_id meta) id); [|by apply Hne].
        intros [= <-]. by apply truthy_true.
      + intros l. rewrite JsMapFacts.get_set.
        destruct (String.eqb_spec (md_id meta) id) as [Hid|].
        * intros [= <-]. exists meta. rewrite in_app_iff. simpl. auto.
        * intros Hl. destruct (Hfrom l Hl) as (m & Hin & ? & ?).
          exists m. rewrite in_app_iff. auto.
    - split_and!; [done..|].
      intros l Hl. destruct (Hfrom l Hl) as (m & Hin & ? & ?).
      exists m. rewrite in_app_iff. auto. }
  apply (Hloop [] metadata (hashCache, [], [])).
  split_and!; [done..|]. intros l [=].
Qed.

(** A push takes a session only when this side has it with a hash and the
    manifest either does not list it or lists another content that is not
    newer; the item carries the metadata record of that id and the hash the
    hashing loop gave. *)
Theorem push_takes_new_or_changed (metadata : list SessionMetadata)
    (localMap : JsMap.t CopilotSession)
    (remoteMap : JsMap.t SyncManifestEntry) (localHashes : JsMap.t string)
    (actions : JsMap.t ConflictAction) (item : PushItem) :
  resolveAll localMap remoteMap localHashes = Ok actions ->
  In item (collectToPush metadata localHashes actions) ->
  In (pi_meta item) metadata
  /\ md_id (pi_meta item) = pi_sessionId item
  /\ JsMap.get localHashes (pi_sessionId item) = Some (pi_hash item)
  /\ pi_hash item <> ""
  /\ exists l,
       JsMap.get localMap (pi_sessionId item) = Some l
       /\ match JsMap.get remoteMap (pi_sessionId item) with
          | None => action (pi_action item) = new_local
          | Some r =>
              action (pi_action item) = push
              /\ me_sha r <> pi_hash item
              /\ cs_lastMessageDate l >= me_lastMessageDate r
          end.
Proof.
  intros Hall. unfold collectToPush. rewrite in_flat_map.
  intros ([id a] & Hin & Hitem).
  apply (resolveAll_answers _ _ _ _ _ _ Hall) in Hin.
  destruct (wantsPush a) eqn:Hpush; [|done].
  destruct (List.find _ metadata) as [meta|] eqn:Hfind; [|done].
  destruct (JsMap.get localHashes id) as [h|] eqn:Hh; [|done].
  destruct (truthy h) eqn:Ht; [|done].
  destruct Hitem as [<-|[]]. simpl.
  apply truthy_true in Ht. apply List.find_some in Hfind as [Hmeta Hid].
  apply String.eqb_eq in Hid.
  split_and!; [done..|].
  by apply (resolve_wantsPush _ _ h a).
Qed.

End Selection.

(** The fixture's push takes [s1]: the local copy is newer than the one the
    manifest lists, and its hash is another. *)
Lemma push_takes_new_or_changed_witness :
  In Fixtures.localMeta [Fixtures.localMeta]
  /\ md_id Fixtures.localMeta = "s1"
  /\ JsMap.get [("s1", "sha256(local-v2)")] "s1" = Some "sha256(local-v2)"
  /\ "sha256(local-v2)" <> ""
  /\ exists l,
       JsMap.get [("s1", sessionOfMetadata Fixtures.localMeta)] "s1" = Some l
       /\ match JsMap.get (sm_entries Fixtures.remoteManifest) "s1" with
          | None => action (pi_action EngineFixtures.localItem) = new_local
          | Some r =>
              action (pi_action EngineFixtures.localItem) = push
              /\ me_sha r <> "sha256(local-v2)"
              /\ cs_lastMessageDate l >= me_lastMessageDate r
          end.
Proof.
  apply (push_takes_new_or_changed [Fixtures.localMeta]
           [("s1", sessionOfMetadata Fixtures.localMeta)]
           (sm_entries Fixtures.remoteManifest)
           [("s1", "sha256(local-v2)")]
           [("s1", pi_action EngineFixtures.localItem)]
           EngineFixtures.localItem).
  - reflexivity.
  - left. reflexivity.
Defined.

End SelectionFacts.

(** ** SyncEngine: what the staging loop does to the manifest *)

Module ManifestFacts.
Import GitHubRepo SyncEngine ConflictResolver Notions.

Section Staging.
Context {Disk : Type} (H : Host Disk) (net : Network).
Context (pass : string) (remote : gmap string string) (disk : Disk).
Context (remoteMap : JsMap.t SyncManifestEntry).

Local Abbreviation stage :=
  (stageSession H net pass remote disk remoteMap).

Lemma stageSession_other (st : Staging) (item : PushItem) (id : string) :
  staged H disk item = false \/ pi_sessionId item <> id ->
  JsMap.get (sm_entries (st_manifest (stage st item))) id
  = JsMap.get (sm_entries (st_manifest st)) id.
Proof.
  unfold stageSession, staged.
  destruct (readSessionContent _ _ _ _) as [rawContent|]; [|done].
  destruct (truthy rawContent); [|done].
  intros [|Hne]; [done|]. simpl. rewrite JsMapFacts.get_set.
  by destruct (String.eqb_spec (pi_sessionId item) id).
Qed.

Lemma stageSession_self (st : Staging) (item : PushItem) :
  staged H disk item = true ->
  exists e,
    JsMap.get (sm_entries (st_manifest (stage st item))) (pi_sessionId item)
    = Some e
    /\ me_sessionId e = pi_sessionId item
    /\ me_sha e = pi_hash item
    /\ me_deviceId e = deviceId H
    /\ me_workspaceId e = md_workspaceId (pi_meta item)
    /\ me_fileExtension e = md_fileExtension (pi_meta item)
    /\ me_lastMessageDate e = md_lastMessageDate (pi_meta item).
Proof.
  unfold stageSession, staged.
  destruct (readSessionContent _ _ _ _) as [rawContent|]; [|done].
  destruct (truthy rawContent); [|done].
  intros _. simpl. rewrite JsMapFacts.get_set, String.eqb_refl.
  eexists. split; [reflexivity|]. by split_and!.
Qed.

Lemma stageSession_version (st : Staging) (item : PushItem) :
  sm_version (st_manifest (stage st item)) = sm_version (st_manifest st).
Proof.
  unfold stageSession.
  destruct (readSessionContent _ _ _ _) as [rawContent|]; [|done].
  by destruct (truthy rawContent).
Qed.

(** The staging loop of a push edits the manifest it was given and nothing
    else of it: the schema version stays; an entry whose session is not
    staged is left as it was, so no session drops out of the manifest; and
    the entry of a staged session carries the session's id, the hash the
    hashing loop gave for it, this device's id and the session's
    metadata. *)
Theorem staging_edits_manifest (toPush : list PushItem) (st : Staging) :
  List.NoDup (map pi_sessionId toPush) ->
  let st' := stageAll H net pass remote disk remoteMap toPush st in
  sm_version (st_manifest st') = sm_version (st_manifest st)
  /\ (forall id,
        (forall item, In item toPush -> staged H disk item = true ->
           pi_sessionId item <> id) ->
        JsMap.get (sm_entries (st_manifest st')) id
        = JsMap.get (sm_entries (st_manifest st)) id)
  /\ (forall item, In item toPush -> staged H disk item = true ->
        exists e,
          JsMap.get (sm_entries (st_manifest st')) (pi_sessionId item)
          = Some e
          /\ me_sessionId e = pi_sessionId item
          /\ me_sha e = pi_hash item
          /\ me_deviceId e = deviceId H
          /\ me_workspaceId e = md_workspaceId (pi_meta item)
          /\ me_fileExtension e = md_fileExtension (pi_meta item)
          /\ me_lastMessageDate e = md_lastMessageDate (pi_meta item)).
Proof.
  unfold stageAll. cbv zeta. revert st.
  induction toPush as [|item rest IH]; intros st Hnodup; [by split_and!|].
  simpl in Hnodup. apply List.NoDup_cons_iff in Hnodup as [Hfresh Hnodup].
  simpl.
  destruct (IH (stage st item) Hnodup) as (Hv & Hother & Hself).
  split_and!.
  - by rewrite Hv, stageSession_version.
  - intros id Hid. rewrite Hother.
    + apply stageSession_other.
      destruct (staged H disk item) eqn:Hs; [right|by left].
      apply Hid; [by left | done].
    + intros item' Hin. apply Hid. by right.
  - intros item' [<-|Hin] Hs; [|by apply Hself].
    rewrite Hother; [by apply stageSession_self|].
    intros item' Hin _ Heq. apply Hfresh. rewrite <- Heq.
    by apply in_map.
Qed.

End Staging.

(** The fixture's [s1] staged against the fixture's manifest. *)
Lemma staging_edits_manifest_witness :
  let st' :=
    stageAll Fixtures.host Fixtures.calm "pw" (w_remote Fixtures.world)
      (w_disk Fixtures.world) (sm_entries Fixtures.remoteManifest)
      [EngineFixtures.localItem] EngineFixtures.emptyStaging in
  exists e,
    JsMap.get (sm_entries (st_manifest st')) "s1" = Some e
    /\ me_sessionId e = "s1"
    /\ me_sha e = "sha256(local-v2)"
    /\ me_deviceId e = "device-2"
    /\ me_workspaceId e = "ws-1"
    /\ me_fileExtension e = ".jsonl"
    /\ me_lastMessageDate e = Fixtures.nowMs - 1000.
Proof.
  refine
    (proj2 (proj2
       (staging_edits_manifest Fixtures.host Fixtures.calm "pw"
          (w_remote Fixtures.world) (w_disk Fixtures.world)
          (sm_entries Fixtures.remoteManifest) [EngineFixtures.localItem]
          EngineFixtures.emptyStaging _))
       EngineFixtures.localItem _ _).
  - repeat constructor. by intros [].
  - by left.
  - reflexivity.
Defined.

End ManifestFacts.

(** ** SyncEngine: what a cycle touches *)

Module CycleFacts.
Import GitHubRepo SyncEngine ConflictResolver Notions EngineNotions.

(** What [resolve] tells by a pull: the manifest lists the session, and this
    side either lacks it or holds an older copy of another content. *)
Lemma resolve_wantsPull (local : option CopilotSession)
    (remote : option SyncManifestEntry) (h : option string)
    (a : ConflictAction) :
  resolve local remote h = Ok a ->
  wantsPull a = true ->
  exists r,
    remote = Some r
    /\ match local with
       | None => action a = new_remote
       | Some l =>
           action a = pull
           /\ me_lastMessageDate r > cs_lastMessageDate l
           /\ forall s, h = Some s -> s <> "" -> me_sha r <> s
       end.
Proof.
  unfold wantsPull, resolve.
  destruct local as [l|], remote as [r|]; simpl;
    [| by intros [= <-] | intros [= <-] _; by eexists | by intros [= <-]].
  destruct (truthy_opt h && bool_decide (h = Some (me_sha r))) eqn:Hsame;
    simpl; [by intros [= <-]|].
  destruct (Z.gtb_spec (cs_lastMessageDate l) (me_lastMessageDate r));
    simpl.
  { destruct (formatDates _ _) as [[localText remoteText]|e]; [|done].
    by intros [= <-]. }
  destruct (Z.gtb_spec (me_lastMessageDate r) (cs_lastMessageDate l));
    simpl.
  - destruct (formatDates _ _) as [[remoteText localText]|e]; [|done].
    intros [= <-] _. exists r. split_and!; [done..|lia|].
    intros s -> Hs Hsha. apply truthy_true in Hs. simpl in Hsame.
    rewrite Hs, Hsha in Hsame. simpl in Hsame.
    by rewrite bool_decide_eq_true_2 in Hsame.
  - destruct (truthy_opt h && negb (bool_decide (h = Some (me_sha r))));
      by intros [= <-].
Qed.

(** [String(err)] is never empty. *)
Lemma errorToString_truthy (e : JsError) : truthy (errorToString e) = true.
Proof. destruct e as [m|m|m]; by destruct m. Qed.

Section Phases.
Context {Disk : Type} (H : Host Disk) (cfg : Config) (net : Network).
Context (passphrase : option string).

(** *** The pull *)

Lemma pullSession_writes (w : World Disk) (sessionId : string)
    (entry : option SyncManifestEntry) (currentWsId : string) :
  let w' := pullSession H net passphrase w sessionId entry currentWsId in
  w_status w' = w_status w
  /\ w_hashCache w' = w_hashCache w
  /\ exists written,
       w_trace w' = (w_trace w ++ map SessionWritten written)%list
       /\ Forall
            (fun s =>
               cs_id s = sessionId /\ cs_workspaceId s = currentWsId
               /\ cs_rawContent s <> ""
               /\ w_remote w !! sessionPath sessionId <> None)
            written.
Proof.
  assert (Hnone : forall (w0 : World Disk) (P : CopilotSession -> Prop),
    w_status w0 = w_status w0 /\ w_hashCache w0 = w_hashCache w0
    /\ exists written,
         w_trace w0 = (w_trace w0 ++ map SessionWritten written)%list
         /\ Forall P written).
  { intros w0 P. split_and!; [done..|]. exists []. simpl.
    by rewrite app_nil_r. }
  cbv zeta. unfold pullSession, getFileContent.
  destruct (get_fails net (sessionPath sessionId)); [apply Hnone|].
  destruct (w_remote w !! sessionPath sessionId) as [c|] eqn:Hc;
    [|apply Hnone].
  destruct passphrase as [pass|]; [|apply Hnone].
  destruct (truthy c); [|apply Hnone].
  destruct (decryptFromString H c pass) as [decrypted|]; [|apply Hnone].
  destruct (parseSessionPayload H decrypted) as [payload|]; [|apply Hnone].
  destruct (pp_rawContent payload) as [raw|] eqn:Hraw; [|apply Hnone].
  simpl. destruct (truthy raw) eqn:Ht; [|apply Hnone].
  destruct (orEntry (pp_workspacePath payload) entry me_workspacePath);
    [|apply Hnone].
  destruct (orEntry (pp_fileExtension payload) entry me_fileExtension);
    [|apply Hnone].
  destruct (orEntry (pp_customTitle payload) entry me_customTitle);
    [|apply Hnone].
  destruct (orEntry (pp_creationDate payload) entry me_creationDate);
    [|apply Hnone].
  destruct (orEntry (pp_lastMessageDate payload) entry me_lastMessageDate);
    [|apply Hnone].
  destruct (writeSession H (w_disk w) _) as [disk'|]; [|apply Hnone].
  simpl. split_and!; [done..|]. eexists [_]. split; [reflexivity|].
  repeat constructor; simpl; [|congruence]. by apply truthy_true.
Qed.

Lemma pullFromRemote_status (w : World Disk) :
  w_status (after (pullFromRemote H cfg net passphrase w)) = w_status w.
Proof.
  unfold pullFromRemote.
  destruct (currentWorkspaceStorageId H) as [currentWsId|]; [|done].
  destruct (getRemoteManifest H net passphrase w) as [[| |manifest]|e];
    [done | done | | done].
  cbv zeta.
  destruct (hashAll H _ _ _) as [[hashCache localHashes] localMap].
  destruct (resolveAll localMap (sm_entries manifest) localHashes)
    as [actions|e]; [|done].
  simpl.
  change (w_status w) with (w_status (with_hashCache (tick w) hashCache)).
  generalize (with_hashCache (tick w) hashCache).
  induction actions as [|[sessionId a] rest IH]; intros w0; [done|].
  simpl. rewrite IH. destruct (wantsPull a); [|done].
  apply pullSession_writes.
Qed.



(** *** The push *)

Lemma putAll_local (files : list RepoFile) (w : World Disk) :
  match putAll net files w with
  | Returned w' | Thrown _ w' =>
      w_disk w' = w_disk w /\ w_status w' = w_status w
      /\ w_hashCache w' = w_hashCache w
      /\ exists added,
           w_trace w' = (w_trace w ++ added)%list
           /\ Forall isRemoteWrite added
  end.
Proof.
  revert w. induction files as [|file rest IH]; intros w; simpl.
  { split_and!; [done..|]. exists []. by rewrite app_nil_r. }
  destruct (putFile net (w_remote w) (path file) (content file))
    as [remote'|e].
  - specialize (IH (emit (with_remote w remote') (FilePut file))).
    destruct (putAll net rest _) as [w'|e w'];
      destruct IH as (-> & -> & -> & added & -> & Hadded);
      (split_and!; [done..|]); exists (FilePut file :: added); simpl;
      (split; [by rewrite <- app_assoc | by constructor]).
  - split_and!; [done..|]. exists []. by rewrite app_nil_r.
Qed.

Lemma commitFiles_local (files : list RepoFile) (w : World Disk) :
  match commitFiles net files w with
  | Returned w' | Thrown _ w' =>
      w_disk w' = w_disk w /\ w_status w' = w_status w
      /\ w_hashCache w' = w_hashCache w
      /\ exists added,
           w_trace w' = (w_trace w ++ added)%list
           /\ Forall isRemoteWrite added
  end.
Proof.
  unfold commitFiles.
  destruct (batchCommit net (w_remote w) files []) as [remote'|e];
    [|apply putAll_local].
  simpl. split_and!; [done..|]. eexists [_]. split; [done|].
  by repeat constructor.
Qed.

Lemma pushWithManifest_local (manifest : SyncManifest)
    (metadata : list SessionMetadata) (w : World Disk) :
  match pushWithManifest H net passphrase manifest metadata w with
  | Returned w' | Thrown _ w' =>
      w_disk w' = w_disk w
      /\ status (w_status w') = status (w_status w)
      /\ lastSyncTime (w_status w') = lastSyncTime (w_status w)
      /\ errorMessage (w_status w') = errorMessage (w_status w)
      /\ exists added,
           w_trace w' = (w_trace w ++ added)%list
           /\ Forall isRemoteWrite added
  end.
Proof.
  assert (Hnone : forall w0 : World Disk,
    w_disk w0 = w_disk w -> w_status w0 = w_status w ->
    w_trace w0 = w_trace w ->
    w_disk w0 = w_disk w
    /\ status (w_status w0) = status (w_status w)
    /\ lastSyncTime (w_status w0) = lastSyncTime (w_status w)
    /\ errorMessage (w_status w0) = errorMessage (w_status w)
    /\ exists added,
         w_trace w0 = (w_trace w ++ added)%list
         /\ Forall isRemoteWrite added).
  { intros w0 -> -> ->. split_and!; [done..|]. exists [].
    by rewrite app_nil_r. }
  unfold pushWithManifest.
  destruct (hashAll H (w_disk w) (w_hashCache w) metadata)
    as [[hashCache localHashes] localMap].
  destruct (resolveAll _ _ _) as [actions|e]; [|by apply Hnone].
  destruct (collectToPush _ _ _) as [|item rest]; [by apply Hnone|].
  destruct passphrase as [pass|]; [|by apply Hnone].
  set (st := stageAll H net pass _ _ _ _ _).
  destruct (st_filesToPush st) as [|f fs]; [by apply Hnone|].
  pose proof (commitFiles_local (filesToCommit H pass st)
                (with_ticks (with_hashCache w hashCache) (S (st_ticks st))))
    as Hcommit.
  destruct (commitFiles net _ _) as [w'|e w'];
    destruct Hcommit as (Hd & Hs & _ & added & Htr & Hadded);
    simpl in *; rewrite ?Hs; (split_and!; [done..|]); by exists added.
Qed.

Lemma pushToRemote_local (w : World Disk) :
  match pushToRemote H cfg net passphrase w with
  | Returned w' | Thrown _ w' =>
      w_disk w' = w_disk w
      /\ status (w_status w') = status (w_status w)
      /\ lastSyncTime (w_status w') = lastSyncTime (w_status w)
      /\ errorMessage (w_status w') = errorMessage (w_status w)
      /\ exists added,
           w_trace w' = (w_trace w ++ added)%list
           /\ Forall isRemoteWrite added
  end.
Proof.
  unfold pushToRemote. cbv zeta.
  destruct (List.filter _ _) as [|m rest].
  { simpl. split_and!; [done..|]. exists []. by rewrite app_nil_r. }
  destruct (getRemoteManifest H net passphrase (tick w))
    as [[| |manifest]|e].
  - apply (pushWithManifest_local (freshManifest H (now H (tick w)))
             (m :: rest) (tick (tick w))).
  - simpl. split_and!; [done..|]. exists []. by rewrite app_nil_r.
  - apply (pushWithManifest_local manifest (m :: rest) (tick w)).
  - simpl. split_and!; [done..|]. exists []. by rewrite app_nil_r.
Qed.

(** The push phase never writes to the local disk: whether it returns or
    throws, the disk is as before and what it did are writes to the remote
    store. *)
Theorem push_leaves_disk (w : World Disk) :
  exists w' added,
    (pushToRemote H cfg net passphrase w = Returned w'
     \/ exists e, pushToRemote H cfg net passphrase w = Thrown e w')
    /\ w_disk w' = w_disk w
    /\ w_trace w' = (w_trace w ++ added)%list
    /\ Forall isRemoteWrite added.
Proof.
  pose proof (pushToRemote_local w) as Hlocal.
  destruct (pushToRemote H cfg net passphrase w) as [w'|e w'];
    destruct Hlocal as (Hdisk & _ & _ & _ & added & Htrace & Hadded);
    exists w', added; split_and!; eauto.
Qed.

(** *** The cycle *)

(** A cycle that is entered settles: it never leaves the status at
    [syncing].  It ends [idle], with the error message cleared and the time
    of the sync recorded, or in [error], with [String(err)] of what the
    authentication, the pull or the push threw, name and message, and the
    time of the last successful sync as it was. *)
Theorem sync_settles (w : World Disk) :
  enabled cfg = true ->
  truthy_opt passphrase = true ->
  status (w_status w) <> syncing ->
  let started :=
    with_status w (updateStatus (now H w) syncing None (w_status w)) in
  let w' := sync H cfg net passphrase w in
  (status (w_status w') = idle
   /\ errorMessage (w_status w') = None
   /\ exists reading, lastSyncTime (w_status w') = Some (dateNow H reading))
  \/ (status (w_status w') = error
      /\ lastSyncTime (w_status w') = lastSyncTime (w_status w)
      /\ exists e,
           errorMessage (w_status w') = Some (errorToString e)
           /\ (auth_fails net = true
               /\ e = Error
                        "GitHub authentication failed. Please sign in to GitHub."
               \/ auth_fails net = false
                  /\ ((exists w2,
                         pullFromRemote H cfg net passphrase started
                         = Thrown e w2)
                      \/ exists w2 w3,
                           pullFromRemote H cfg net passphrase started
                           = Returned w2
                           /\ pushToRemote H cfg net passphrase w2
                              = Thrown e w3))).
Proof.
  intros Hen Hpass Hst. cbv zeta.
  set (w1 := with_status w
               (updateStatus (now H w) syncing None (w_status w))).
  assert (Hsettle : forall cycle (P : JsError -> Prop),
    match cycle with
    | Returned _ => True
    | Thrown e w3 =>
        lastSyncTime (w_status w3) = lastSyncTime (w_status w) /\ P e
    end ->
    (status (w_status (finishCycle H cycle)) = idle
     /\ errorMessage (w_status (finishCycle H cycle)) = None
     /\ exists reading,
          lastSyncTime (w_status (finishCycle H cycle))
          = Some (dateNow H reading))
    \/ (status (w_status (finishCycle H cycle)) = error
        /\ lastSyncTime (w_status (finishCycle H cycle))
           = lastSyncTime (w_status w)
        /\ exists e,
             errorMessage (w_status (finishCycle H cycle))
             = Some (errorToString e)
             /\ P e)).
  { intros [w3|e w3] P Hlast.
    - left. simpl. split_and!; [done..|]. by eexists.
    - right. destruct Hlast as [Hlast He]. unfold finishCycle, updateStatus.
      simpl. rewrite errorToString_truthy. simpl.
      split_and!; [done..|]. by exists e. }
  assert (Hsync : sync H cfg net passphrase w
            = finishCycle H
                (if auth_fails net then
                   Thrown
                     (Error
                        "GitHub authentication failed. Please sign in to GitHub.")
                     w1
                 else
                   match pullFromRemote H cfg net passphrase w1 with
                   | Returned w2 => pushToRemote H cfg net passphrase w2
                   | Thrown e w2 => Thrown e w2
                   end)).
  { unfold sync. rewrite Hen, Hpass. simpl.
    by destruct (status (w_status w)). }
  rewrite Hsync. apply Hsettle.
  destruct (auth_fails net); [split; [done | by left]|].
  pose proof (pullFromRemote_status w1) as Hpull.
  destruct (pullFromRemote H cfg net passphrase w1) as [w2|e w2];
    simpl in Hpull.
  2:{ rewrite Hpull. split; [done|]. right. split; [done|]. left.
      by exists w2. }
  pose proof (pushToRemote_local w2) as Hpush.
  destruct (pushToRemote H cfg net passphrase w2) as [w3|e w3] eqn:Hpushed;
    [done|].
  destruct Hpush as (_ & _ & -> & _). rewrite Hpull. split; [done|].
  right. split; [done|]. right. by exists w2, w3.
Qed.

End Phases.



(** The fixture's cycle, every request answered: it ends [idle]. *)
Lemma sync_settles_witness :
  status
    (w_status
       (sync Fixtures.host Fixtures.config Fixtures.calm (Some "pw")
          Fixtures.world))
  = idle
  \/ status
       (w_status
          (sync Fixtures.host Fixtures.config Fixtures.calm (Some "pw")
             Fixtures.world))
     = error.
Proof.
  destruct (sync_settles Fixtures.host Fixtures.config Fixtures.calm
              (Some "pw") Fixtures.world) as [(Hidle & _) | (Herror & _)].
  - reflexivity.
  - reflexivity.
  - discriminate.
  - left. exact Hidle.
  - right. exact Herror.
Defined.

(** The ends of a cycle on the fixtures: [idle] when every request is
    answered; [error] with the error of the request when the manifest is
    out of reach; and [error] with the [RangeError] of the resolver when a
    session is dated beyond the range of a [Date]. *)
Example sync_run :
  status
    (w_status
       (sync Fixtures.host Fixtures.config Fixtures.calm (Some "pw")
          Fixtures.world))
  = idle
  /\ errorMessage
       (w_status
          (sync Fixtures.host Fixtures.config Fixtures.manifestUnreachable
             (Some "pw") Fixtures.world))
     = Some "Error: GitHub API error: (GET manifest.json)"
  /\ errorMessage
       (w_status
          (sync Fixtures.host Fixtures.config Fixtures.calm (Some "pw")
             EngineFixtures.farDated))
     = Some "RangeError: Invalid time value".
Proof. split_and!; vm_compute; reflexivity. Qed.

End CycleFacts.

(** ** SyncEngine: a session from one device to another *)

Module TransferFacts.
Import GitHubRepo SyncEngine ConflictResolver Notions EngineNotions.

Lemma append_inj_r (s s' suffix : string) :
  s ++ suffix = s' ++ suffix -> s = s'.
Proof.
  revert s'. induction s as [|c s IH]; intros [|c' s'] Heq; simpl in Heq.
  - done.
  - apply (f_equal String.length) in Heq.
    rewrite !SyncEngineFacts.string_length_app in Heq. simpl in Heq. lia.
  - apply (f_equal String.length) in Heq.
    rewrite !SyncEngineFacts.string_length_app in Heq. simpl in Heq. lia.
  - injection Heq as -> Heq. f_equal. by apply IH.
Qed.

(** Two backups of a session taken at different readings of the clock go to
    different paths; taken at the same reading they go to the same one. *)
Theorem backupPath_separates_times (sessionId : string)
    (timestamp timestamp' : Z) :
  backupPath timestamp sessionId = backupPath timestamp' sessionId
  <-> timestamp = timestamp'.
Proof.
  split; [|by intros ->]. unfold backupPath. intros Heq.
  do 3 apply String.app_inj in Heq.
  apply append_inj_r in Heq. by apply (inj pretty) in Heq.
Qed.

Section Transfer.
Context {Disk : Type} (H : Host Disk) (net : Network) (pass : string).

(** What one device stages for a session, another device pulls back as it
    was: when the object decrypts under the passphrase and its text parses
    back, the session written has the raw content, the extension, the
    workspace path, the title and the two dates of the session pushed, and
    the id it was stored under; only the workspace it lands in is the
    puller's. *)
Theorem pushed_session_pulls_back (remoteA : gmap string string)
    (diskA : Disk) (remoteMap : JsMap.t SyncManifestEntry) (st : Staging)
    (item : PushItem) (rawContent : string) (w : World Disk)
    (entry : option SyncManifestEntry) (currentWsId : string)
    (diskB : Disk) :
  let sessionId := pi_sessionId item in
  let payload := payloadOf item rawContent in
  let encrypted :=
    encryptToString H pass (st_encryptions st) (stringifyPayload H payload) in
  readSessionContent H diskA (md_workspaceId (pi_meta item)) sessionId
  = Some rawContent ->
  rawContent <> "" ->
  encrypted <> "" ->
  decryptFromString H encrypted pass = Some (stringifyPayload H payload) ->
  parseSessionPayload H (stringifyPayload H payload) = Some (parsed payload) ->
  get_fails net (sessionPath sessionId) = false ->
  w_remote w !! sessionPath sessionId = Some encrypted ->
  writeSession H (w_disk w) (pulledSession sessionId currentWsId payload)
  = Some diskB ->
  In {| path := sessionPath sessionId; content := encrypted |}
    (st_filesToPush (stageSession H net pass remoteA diskA remoteMap st item))
  /\ pullSession H net (Some pass) w sessionId entry currentWsId
     = emit (with_disk w diskB)
         (SessionWritten (pulledSession sessionId currentWsId payload)).
Proof.
  cbv zeta. intros Hread Hraw Henc Hdec Hparse Hget Hstored Hwrite. split.
  - unfold stageSession. rewrite Hread.
    apply truthy_true in Hraw. rewrite Hraw. simpl.
    rewrite in_app_iff. right. by left.
  - unfold pullSession, getFileContent. rewrite Hget, Hstored.
    apply truthy_true in Henc. rewrite Henc, Hdec, Hparse. simpl.
    apply truthy_true in Hraw. rewrite Hraw.
    unfold pulledSession, payloadOf in Hwrite. simpl in Hwrite.
    by rewrite Hwrite.
Qed.

End Transfer.

(** The fixture's [s1], staged on one device and pulled on another whose
    workspace is [ws-9]. *)
Lemma pushed_session_pulls_back_witness :
  let payload := EngineNotions.payloadOf EngineFixtures.localItem "local-v2" in
  let session := EngineNotions.pulledSession "s1" "ws-9" payload in
  cs_rawContent session = "local-v2"
  /\ exists diskB,
       pullSession EngineFixtures.jsonHost Fixtures.calm (Some "pw")
         EngineFixtures.otherDevice "s1" None "ws-9"
       = emit (with_disk EngineFixtures.otherDevice diskB)
           (SessionWritten session).
Proof.
  intros payload session. split; [reflexivity|].
  eexists.
  refine
    (proj2
       (pushed_session_pulls_back EngineFixtures.jsonHost Fixtures.calm "pw"
          (w_remote Fixtures.world) (w_disk Fixtures.world)
          (sm_entries Fixtures.remoteManifest) EngineFixtures.emptyStaging
          EngineFixtures.localItem "local-v2" EngineFixtures.otherDevice
          None "ws-9" _ _ _ _ _ _ _ _ _)).
  - reflexivity.
  - discriminate.
  - discriminate.
  - vm_compute. reflexivity.
  - vm_compute. reflexivity.
  - reflexivity.
  - vm_compute. reflexivity.
  - vm_compute. reflexivity.
Defined.

End TransferFacts.

(** ** Encryption: the string forms *)

Module EncryptionStringsFacts.
Import Encryption EncryptionStrings.

(** Code units, checked by evaluation. *)
Lemma isCodeUnit_forallb (units : list N) :
  forallb (fun u => (u <? 65536)%N) units = true ->
  Forall JsString.isCodeUnit units.
Proof.
  rewrite forallb_forall, List.Forall_forall. intros Hall u Hu.
  by apply N.ltb_lt, Hall.
Qed.

Section Laws.
Context (node : Node) {laws : NodeLaws node} (json : Json).

(** What comes back from the string form is the plaintext as the UTF-8
    round trip leaves it. *)
Lemma decryptFromString_encryptToString (saltBytes ivBytes : bytes)
    (data : list N) (passphrase : string) :
  length ivBytes = Z.to_nat IV_LENGTH ->
  Forall JsString.isCodeUnit data ->
  givesBack json (encrypt node saltBytes ivBytes data passphrase) ->
  decryptFromString node json
    (encryptToString node json saltBytes ivBytes data passphrase) passphrase
  = Ok (JsString.toWellFormed data).
Proof.
  intros Hiv Hdata (Hparse & Hunits & Hwf).
  unfold decryptFromString, encryptToString. cbv zeta.
  rewrite base64_round_trip, utf8_round_trip by done.
  rewrite Hwf, Hparse. by apply EncryptionFacts.decrypt_encrypt.
Qed.

(** [decryptFromString] undoes [encryptToString]: for a well-formed
    plaintext, the base64 string made under a passphrase decrypts under it
    to the plaintext. *)
Theorem string_form_round_trip (saltBytes ivBytes : bytes) (data : list N)
    (passphrase : string) :
  length ivBytes = Z.to_nat IV_LENGTH ->
  Forall JsString.isCodeUnit data ->
  JsString.isWellFormed data ->
  givesBack json (encrypt node saltBytes ivBytes data passphrase) ->
  decryptFromString node json
    (encryptToString node json saltBytes ivBytes data passphrase) passphrase
  = Ok data.
Proof.
  intros Hiv Hdata Hwf Hjson.
  rewrite decryptFromString_encryptToString by done. by rewrite Hwf.
Qed.

(** The verification token made from a passphrase is accepted under that
    passphrase. *)
Theorem own_token_verifies (saltBytes ivBytes : bytes)
    (passphrase : string) :
  length ivBytes = Z.to_nat IV_LENGTH ->
  givesBack json (encrypt node saltBytes ivBytes knownPlaintext passphrase) ->
  verifyPassphrase node json passphrase
    (createVerificationToken node json saltBytes ivBytes passphrase)
  = true.
Proof.
  intros Hiv Hjson. unfold verifyPassphrase, createVerificationToken.
  rewrite decryptFromString_encryptToString;
    [|done|by apply isCodeUnit_forallb|done].
  by apply bool_decide_eq_true.
Qed.

End Laws.

(** The JSON text of a payload on the reference platform. *)
Example stringify_sample :
  ReferenceJson.text (Fixtures.samplePayload 1)
  = String.concat (String ReferenceJson.quote "")
      ["{"; "salt"; ":"; "AQEBAQEBAQEBAQEBAQEBAQ=="; ","; "iv"; ":";
       "AgICAgICAgICAgIC"; ","; "ciphertext"; ":";
       "+vuyBvr3BPckFhQjFiXeIRIkJLKysrKy"; ","; "version"; ":1}"].
Proof. reflexivity. Qed.

Lemma string_form_round_trip_witness :
  decryptFromString ReferenceNode.node ReferenceJson.json
    (encryptToString ReferenceNode.node ReferenceJson.json
       Fixtures.sampleSalt Fixtures.sampleIv
       (JsString.ofString "Hello, World!") "test-passphrase-12345678")
    "test-passphrase-12345678"
  = Ok (JsString.ofString "Hello, World!").
Proof.
  apply (string_form_round_trip ReferenceNode.node ReferenceJson.json).
  - reflexivity.
  - repeat constructor.
  - reflexivity.
  - split_and!.
    + vm_compute. reflexivity.
    + apply isCodeUnit_forallb. vm_compute. reflexivity.
    + vm_compute. reflexivity.
Defined.

Lemma own_token_verifies_witness :
  verifyPassphrase ReferenceNode.node ReferenceJson.json
    "test-passphrase-12345678"
    (createVerificationToken ReferenceNode.node ReferenceJson.json
       Fixtures.sampleSalt Fixtures.sampleIv "test-passphrase-12345678")
  = true.
Proof.
  apply (own_token_verifies ReferenceNode.node ReferenceJson.json).
  - reflexivity.
  - split_and!.
    + vm_compute. reflexivity.
    + apply isCodeUnit_forallb. vm_compute. reflexivity.
    + vm_compute. reflexivity.
Defined.

(** Under another passphrase the same token is refused, and so is a text
    that is no token at all; [verifyPassphrase] does not throw. *)
Example verifyPassphrase_refuses :
  verifyPassphrase ReferenceNode.node ReferenceJson.json "another-passphrase"
    (createVerificationToken ReferenceNode.node ReferenceJson.json
       Fixtures.sampleSalt Fixtures.sampleIv "test-passphrase-12345678")
  = false
  /\ verifyPassphrase ReferenceNode.node ReferenceJson.json
       "test-passphrase-12345678" "not a token"
     = false.
Proof. split; vm_compute; reflexivity. Qed.

End EncryptionStringsFacts.

(** ** SessionReader: the session files *)

Module SessionFilesFacts.
Import SessionFiles.

Lemma append_cons (c : Ascii.ascii) (s1 s2 : string) :
  String c s1 ++ s2 = String c (s1 ++ s2).
Proof. reflexivity. Qed.

Lemma append_nil (s : string) : "" ++ s = s.
Proof. reflexivity. Qed.

Lemma append_assoc (s1 s2 s3 : string) :
  (s1 ++ s2) ++ s3 = s1 ++ s2 ++ s3.
Proof.
  induction s1 as [|c s1 IH]; [done|]. by rewrite !append_cons, IH.
Qed.

(** Two strings that end in different characters are different. *)
Lemma last_differs (s1 s2 : string) (a b : Ascii.ascii) :
  a <> b -> s1 ++ String a "" <> s2 ++ String b "".
Proof.
  intros Hab. revert s2.
  induction s1 as [|c s1 IH]; intros [|d s2];
    rewrite ?append_cons, ?append_nil; intros Heq.
  - congruence.
  - injection Heq as _ Heq. by destruct s2.
  - injection Heq as _ Heq. by destruct s1.
  - injection Heq as _ Heq. by apply (IH s2).
Qed.

Lemma json_is_not_jsonl (id id' : string) : id ++ ".json" <> id' ++ ".jsonl".
Proof.
  change (id ++ ".jso" ++ "n" <> id' ++ ".json" ++ "l").
  rewrite <- !append_assoc. by apply last_differs.
Qed.

Lemma stripSuffix_unfold (suffix s : string) :
  stripSuffix suffix s
  = if String.eqb s suffix then Some ""
    else
      match s with
      | EmptyString => None
      | String c rest => option_map (String c) (stripSuffix suffix rest)
      end.
Proof. by destruct s. Qed.

Lemma stripSuffix_spec (suffix s prefix : string) :
  stripSuffix suffix s = Some prefix <-> s = prefix ++ suffix.
Proof.
  revert prefix. induction s as [|c s IH]; intros prefix;
    rewrite stripSuffix_unfold.
  - destruct (String.eqb_spec "" suffix) as [<-|Hne].
    + split; [by intros [= <-]|].
      destruct prefix; rewrite ?append_cons, ?append_nil; congruence.
    + split; [done|].
      destruct prefix; rewrite ?append_cons, ?append_nil; congruence.
  - destruct (String.eqb_spec (String c s) suffix) as [<-|Hne].
    + split; [by intros [= <-]|]. intros Heq. f_equal.
      symmetry. apply (TransferFacts.append_inj_r _ _ (String c s)).
      by rewrite <- Heq.
    + destruct (stripSuffix suffix s) as [p|] eqn:Hs; simpl.
      * pose proof (proj1 (IH p) eq_refl) as Hp. subst s. split.
        -- by intros [= <-].
        -- destruct prefix as [|c' prefix];
             rewrite ?append_cons, ?append_nil; [congruence|].
           intros [= <- Heq].
           apply TransferFacts.append_inj_r in Heq. by subst.
      * split; [done|].
        destruct prefix as [|c' prefix];
          rewrite ?append_cons, ?append_nil; [congruence|].
        intros [= <- Heq]. by apply IH in Heq.
Qed.

Lemma stripSuffix_append (suffix prefix : string) :
  stripSuffix suffix (prefix ++ suffix) = Some prefix.
Proof. by apply stripSuffix_spec. Qed.

Lemma endsWith_spec (s suffix : string) :
  endsWith s suffix = true <-> exists prefix, s = prefix ++ suffix.
Proof.
  unfold endsWith. destruct (stripSuffix suffix s) as [p|] eqn:Hs.
  - apply stripSuffix_spec in Hs. split; [by exists p | done].
  - split; [done|]. intros [p Hp]. apply stripSuffix_spec in Hp. congruence.
Qed.

Lemma withoutExtension_json (id : string) :
  withoutExtension (id ++ ".json") = id.
Proof. unfold withoutExtension. by rewrite stripSuffix_append. Qed.

Lemma withoutExtension_jsonl (id : string) :
  withoutExtension (id ++ ".jsonl") = id.
Proof.
  unfold withoutExtension.
  destruct (stripSuffix ".json" (id ++ ".jsonl")) as [p|] eqn:Hs.
  - apply stripSuffix_spec in Hs. symmetry in Hs.
    by apply json_is_not_jsonl in Hs.
  - by rewrite stripSuffix_append.
Qed.

Lemma length_append (s1 s2 : string) :
  String.length (s1 ++ s2) = (String.length s1 + String.length s2)%nat.
Proof.
  induction s1 as [|c s1 IH]; [done|]. rewrite append_cons. cbn.
  by rewrite IH.
Qed.

Lemma hasSeparator_append (s1 s2 : string) :
  hasSeparator (s1 ++ s2) = hasSeparator s1 || hasSeparator s2.
Proof.
  induction s1 as [|c s1 IH]; [done|]. rewrite append_cons. cbn.
  by rewrite IH, orb_assoc.
Qed.

(** A session id with an extension of the two is a plain name when the id
    has no separator. *)
Lemma plainName_extension (id ext : string) :
  ext = ".jsonl" \/ ext = ".json" ->
  plainName (id ++ ext) = negb (hasSeparator id).
Proof.
  intros Hext. unfold plainName. rewrite hasSeparator_append.
  assert (Hlong : (3 <= String.length (id ++ ext))%nat).
  { rewrite length_append. destruct Hext as [-> | ->]; cbn; lia. }
  assert (Hnone : hasSeparator ext = false)
    by (destruct Hext as [-> | ->]; reflexivity).
  rewrite Hnone, orb_false_r.
  destruct (String.eqb_spec (id ++ ext) "") as [Heq|_];
    [rewrite Heq in Hlong; cbn in Hlong; lia|].
  destruct (String.eqb_spec (id ++ ext) ".") as [Heq|_];
    [rewrite Heq in Hlong; cbn in Hlong; lia|].
  destruct (String.eqb_spec (id ++ ext) "..") as [Heq|_];
    [rewrite Heq in Hlong; cbn in Hlong; lia|].
  by rewrite !andb_true_r.
Qed.

(** Within what the directories describe, the lookup is that of the two
    names in the workspace's directory. *)
Lemma resolveSessionFilePath_plain (storage : Storage)
    (workspaceId sessionId : string) :
  plainName workspaceId = true ->
  hasSeparator sessionId = false ->
  resolveSessionFilePath storage workspaceId sessionId
  = Within
      match storage !! workspaceId with
      | Some dir =>
          if JsMap.has dir (sessionId ++ ".jsonl") then
            Some (sessionId ++ ".jsonl", ".jsonl")
          else if JsMap.has dir (sessionId ++ ".json") then
            Some (sessionId ++ ".json", ".json")
          else None
      | None => None
      end.
Proof.
  intros Hws Hid. unfold resolveSessionFilePath, chatDirOf, existsSync.
  rewrite Hws, !plainName_extension, Hid by auto. cbn.
  destruct (storage !! workspaceId) as [dir|]; [|done].
  destruct (JsMap.has dir (sessionId ++ ".jsonl")); [done|].
  by destruct (JsMap.has dir (sessionId ++ ".json")).
Qed.

Lemma resolveSessionFilePath_Within (storage : Storage)
    (workspaceId sessionId : string) (resolved : option (string * string)) :
  resolveSessionFilePath storage workspaceId sessionId = Within resolved ->
  plainName workspaceId = true /\ hasSeparator sessionId = false.
Proof.
  unfold resolveSessionFilePath, chatDirOf, existsSync.
  rewrite !plainName_extension by auto.
  destruct (plainName workspaceId); [|done].
  by destruct (hasSeparator sessionId).
Qed.

Lemma readSessionContent_plain (storage : Storage)
    (workspaceId sessionId : string) :
  plainName workspaceId = true ->
  hasSeparator sessionId = false ->
  readSessionContent storage workspaceId sessionId
  = Within
      match storage !! workspaceId with
      | Some dir =>
          match JsMap.get dir (sessionId ++ ".jsonl") with
          | Some log => Some log
          | None => JsMap.get dir (sessionId ++ ".json")
          end
      | None => None
      end.
Proof.
  intros Hws Hid. unfold readSessionContent.
  rewrite resolveSessionFilePath_plain by done. cbn.
  destruct (storage !! workspaceId) as [dir|]; [|done].
  unfold JsMap.has.
  destruct (JsMap.get dir (sessionId ++ ".jsonl")) eqn:Hlog; cbn;
    [by rewrite Hlog|].
  by destruct (JsMap.get dir (sessionId ++ ".json")) eqn:Hjson; cbn;
    rewrite ?Hjson.
Qed.

Lemma writeSession_Within (storage storage' : Storage)
    (session : CopilotSession) :
  writeSession storage session = Within storage' ->
  plainName (cs_workspaceId session) = true
  /\ plainName (cs_id session ++ extensionOf session) = true
  /\ storage'
     = <[cs_workspaceId session :=
           JsMap.set
             match storage !! cs_workspaceId session with
             | Some dir => dir
             | None => []
             end
             (cs_id session ++ extensionOf session)
             (cs_rawContent session)]> storage.
Proof.
  unfold writeSession, chatDirOf.
  destruct (plainName (cs_workspaceId session)); [|done]. cbn.
  destruct (plainName (cs_id session ++ extensionOf session)); [|done].
  by intros [= <-].
Qed.

Lemma gather_In {A B : Type} (f : A -> Covered (list B)) (l : list A)
    (out : list B) :
  gather f l = Within out ->
  (forall a, In a l -> exists found, f a = Within found)
  /\ forall b,
       In b out
       <-> exists a found, In a l /\ f a = Within found /\ In b found.
Proof.
  revert out. induction l as [|a l IH]; intros out; cbn.
  - intros [= <-]. split; [done|]. intros b. split; [done|].
    by intros (? & ? & [] & _).
  - destruct (f a) as [found|] eqn:Hfound; [|done]. cbn.
    destruct (gather f l) as [more|]; [|done]. cbn. intros [= <-].
    destruct (IH more eq_refl) as [Heach Hin]. split.
    + intros a' [<-|Ha']; [by eexists | by apply Heach].
    + intros b. rewrite in_app_iff, Hin. split.
      * intros [Hb|(a' & found' & Ha' & Hf' & Hb)].
        -- exists a, found. by split_and!; [left|..].
        -- exists a', found'. by split_and!; [right|..].
      * intros (a' & found' & [<-|Ha'] & Hf' & Hb).
        -- left. congruence.
        -- right. by exists a', found'.
Qed.

(** A session whose file resolves is among the scanned ones. *)
Lemma scan_found (storage : Storage) (workspaceId sessionId : string) :
  plainName workspaceId = true ->
  hasSeparator sessionId = false ->
  (exists found,
     resolveSessionFilePath storage workspaceId sessionId
     = Within (Some found)) ->
  In sessionId (scanChatSessionFiles (storage !! workspaceId)).
Proof.
  intros Hws Hplain. rewrite resolveSessionFilePath_plain by done.
  unfold scanChatSessionFiles.
  destruct (storage !! workspaceId) as [dir|]; [|by intros [? [=]]].
  rewrite in_map_iff. intros [found Hfound].
  destruct (JsMap.has dir (sessionId ++ ".jsonl")) eqn:Hl.
  - exists (sessionId ++ ".jsonl"). split;
      [apply withoutExtension_jsonl|].
    apply List.filter_In. split; [by apply SelectionFacts.has_In|].
    apply orb_true_iff. right. apply endsWith_spec. by eexists.
  - destruct (JsMap.has dir (sessionId ++ ".json")) eqn:Hj; [|done].
    exists (sessionId ++ ".json"). split; [apply withoutExtension_json|].
    apply List.filter_In. split; [by apply SelectionFacts.has_In|].
    apply orb_true_iff. left. apply endsWith_spec. by eexists.
Qed.

(** What the two lookups find in a directory after a file was written. *)
Lemma read_written (dir : Dir) (id ext raw : string) :
  match JsMap.get (JsMap.set dir (id ++ ext) raw) (id ++ ".jsonl") with
  | Some log => Some log
  | None => JsMap.get (JsMap.set dir (id ++ ext) raw) (id ++ ".json")
  end
  = if String.eqb ext ".jsonl" then Some raw
    else
      match JsMap.get dir (id ++ ".jsonl") with
      | Some earlier => Some earlier
      | None =>
          if String.eqb ext ".json" then Some raw
          else JsMap.get dir (id ++ ".json")
      end.
Proof.
  rewrite !JsMapFacts.get_set.
  destruct (String.eqb_spec ext ".jsonl") as [->|Hl].
  { by rewrite String.eqb_refl. }
  destruct (String.eqb_spec (id ++ ext) (id ++ ".jsonl")) as [Heq|_].
  { by apply (inj (String.append _)) in Heq. }
  destruct (JsMap.get dir (id ++ ".jsonl")) as [earlier|]; [done|].
  destruct (String.eqb_spec ext ".json") as [->|Hj].
  { by rewrite String.eqb_refl. }
  destruct (String.eqb_spec (id ++ ext) (id ++ ".json")) as [Heq|_]; [|done].
  by apply (inj (String.append _)) in Heq.
Qed.

(** The directory scan lists exactly the sessions that resolve to a file:
    every id it returns can be read, and every session that has a file,
    [.jsonl] or [.json], is returned.  This is so for a workspace id that is
    a plain name and a session id without a separator; any other is joined
    to a path outside the directory that is scanned. *)
Theorem scan_lists_what_resolves (storage : Storage)
    (workspaceId sessionId : string) :
  plainName workspaceId = true ->
  hasSeparator sessionId = false ->
  In sessionId (scanChatSessionFiles (storage !! workspaceId))
  <-> exists found,
        resolveSessionFilePath storage workspaceId sessionId
        = Within (Some found).
Proof.
  intros Hws Hplain. split; [|by apply scan_found].
  rewrite resolveSessionFilePath_plain by done.
  unfold scanChatSessionFiles.
  destruct (storage !! workspaceId) as [dir|]; [|done].
  rewrite in_map_iff.
  - intros (f & Hid & Hf). apply List.filter_In in Hf as [Hin Hext].
    apply SelectionFacts.has_In in Hin.
    destruct (JsMap.has dir (sessionId ++ ".jsonl")) eqn:Hl; [by eexists|].
    apply orb_true_iff in Hext as [Hj|Hj];
      apply endsWith_spec in Hj as [p ->].
    + rewrite withoutExtension_json in Hid. subst p.
      rewrite Hin. by eexists.
    + rewrite withoutExtension_jsonl in Hid. subst p. congruence.
Qed.

(** What is read for a session right after it was written into its
    workspace's directory: its content when it was written as [.jsonl] (also
    for want of an extension); otherwise the content of the [.jsonl] file
    the session already had, if it had one, since that one is looked for
    first; otherwise its content when written as [.json]; and with any other
    extension the file written is not the one found. *)
Theorem read_after_write (storage storage' : Storage)
    (session : CopilotSession) :
  writeSession storage session = Within storage' ->
  let dir :=
    match storage !! cs_workspaceId session with
    | Some dir => dir
    | None => []
    end in
  readSessionContent storage' (cs_workspaceId session) (cs_id session)
  = Within
      (if String.eqb (extensionOf session) ".jsonl" then
         Some (cs_rawContent session)
       else
         match JsMap.get dir (cs_id session ++ ".jsonl") with
         | Some earlier => Some earlier
         | None =>
             if String.eqb (extensionOf session) ".json" then
               Some (cs_rawContent session)
             else JsMap.get dir (cs_id session ++ ".json")
         end).
Proof.
  intros Hwritten. apply writeSession_Within in Hwritten as (Hws & Hname & ->).
  assert (Hid : hasSeparator (cs_id session) = false).
  { unfold plainName in Hname. rewrite hasSeparator_append in Hname.
    by destruct (hasSeparator (cs_id session)). }
  cbv zeta. rewrite readSessionContent_plain by done. f_equal.
  rewrite (lookup_insert_eq (storage : gmap string Dir)).
  apply read_written.
Qed.

(** Writing a session with one of the two extensions (or none) into its
    workspace's directory changes what is read for no other session of the
    workspaces: neither for another session of this workspace nor for any of
    another. *)
Theorem write_keeps_other_sessions (storage storage' : Storage)
    (session : CopilotSession) (workspaceId sessionId : string) :
  writeSession storage session = Within storage' ->
  extensionOf session = ".jsonl" \/ extensionOf session = ".json" ->
  plainName workspaceId = true ->
  hasSeparator sessionId = false ->
  workspaceId <> cs_workspaceId session \/ sessionId <> cs_id session ->
  exists content,
    readSessionContent storage workspaceId sessionId = Within content
    /\ readSessionContent storage' workspaceId sessionId = Within content.
Proof.
  intros Hwritten Hext Hws Hplain Hother.
  apply writeSession_Within in Hwritten as (_ & _ & ->).
  rewrite !readSessionContent_plain by done.
  eexists. split; [reflexivity|]. f_equal.
  destruct (decide (cs_workspaceId session = workspaceId)) as [<-|Hne];
    [|by rewrite (lookup_insert_ne (storage : gmap string Dir))].
  destruct Hother as [|Hid]; [done|].
  rewrite (lookup_insert_eq (storage : gmap string Dir)).
  assert (Hnames : forall ext,
            ext = ".jsonl" \/ ext = ".json" ->
            cs_id session ++ extensionOf session <> sessionId ++ ext).
  { intros ext Hext' Heq. destruct Hext as [He|He], Hext' as [-> | ->];
      rewrite He in Heq.
    - apply TransferFacts.append_inj_r in Heq. congruence.
    - symmetry in Heq. by apply json_is_not_jsonl in Heq.
    - by apply json_is_not_jsonl in Heq.
    - apply TransferFacts.append_inj_r in Heq. congruence. }
  assert (Hget : forall dir ext,
            ext = ".jsonl" \/ ext = ".json" ->
            JsMap.get
              (JsMap.set dir (cs_id session ++ extensionOf session)
                 (cs_rawContent session))
              (sessionId ++ ext)
            = JsMap.get dir (sessionId ++ ext)).
  { intros dir ext Hext'. rewrite JsMapFacts.get_set.
    destruct (String.eqb_spec (cs_id session ++ extensionOf session)
                (sessionId ++ ext)) as [Heq|_]; [|done].
    by apply Hnames in Heq. }
  rewrite !Hget by auto.
  by destruct (storage !! cs_workspaceId session).
Qed.

(** A directory with a log and a legacy file of the same session, and a
    file that is no session; and ids that are joined to other paths. *)
Example scan_sample :
  scanChatSessionFiles
    (Some [("a.jsonl", "log"); ("a.json", "legacy"); ("notes.txt", "x");
           ("b.json", "{}")])
  = ["a"; "a"; "b"]
  /\ readSessionContent
       {[ "ws-1" := [("a.jsonl", "log"); ("a.json", "legacy")] ]} "ws-1" "a"
     = Within (Some "log")
  /\ readSessionContent {[ "ws-1" := [("a.jsonl", "log")] ]} "ws-1" "./a"
     = Beyond
  /\ readSessionContent {[ "ws-1" := [("a.jsonl", "log")] ]} ".." "a"
     = Beyond
  /\ writeSession {[ "ws-1" := [("a.jsonl", "log")] ]}
       {| cs_id := "session-1"; cs_workspaceId := "ws-1";
          cs_workspacePath := "/home/user/project";
          cs_fileExtension := "/../a.jsonl"; cs_rawContent := "{}";
          cs_customTitle := "Test Session"; cs_creationDate := 1000;
          cs_lastMessageDate := 2000 |}
     = Beyond.
Proof. split_and!; vm_compute; reflexivity. Qed.

Lemma write_keeps_other_sessions_witness :
  exists content,
    readSessionContent {[ "ws-1" := [("a.jsonl", "log")] ]} "ws-1" "a"
    = Within content
    /\ readSessionContent
         (<["ws-1" := [("a.jsonl", "log"); ("session-1.jsonl", "{}")]]>
            {[ "ws-1" := [("a.jsonl", "log")] ]})
         "ws-1" "a"
       = Within content.
Proof.
  apply (write_keeps_other_sessions {[ "ws-1" := [("a.jsonl", "log")] ]} _
           (Fixtures.makeSession 2000) "ws-1" "a").
  - reflexivity.
  - left. reflexivity.
  - reflexivity.
  - reflexivity.
  - right. discriminate.
Defined.

Lemma scan_lists_what_resolves_witness :
  In "a"
    (scanChatSessionFiles
       (({[ "ws-1" := [("a.jsonl", "log")] ]} : Storage) !! "ws-1"))
  <-> exists found,
        resolveSessionFilePath {[ "ws-1" := [("a.jsonl", "log")] ]} "ws-1"
          "a"
        = Within (Some found).
Proof.
  apply (scan_lists_what_resolves {[ "ws-1" := [("a.jsonl", "log")] ]}
           "ws-1" "a"); reflexivity.
Defined.

Lemma read_after_write_witness :
  readSessionContent
    (<["ws-1" := [("a.jsonl", "log"); ("session-1.jsonl", "{}")]]>
       {[ "ws-1" := [("a.jsonl", "log")] ]})
    "ws-1" "session-1"
  = Within (Some "{}").
Proof.
  apply (read_after_write {[ "ws-1" := [("a.jsonl", "log")] ]} _
           (Fixtures.makeSession 2000)).
  reflexivity.
Defined.

End SessionFilesFacts.

(** ** SyncEngine: pushing twice *)

Module PushTwiceFacts.
Import GitHubRepo SyncEngine ConflictResolver Notions PushNotions.

Section Hashing.
Context {Disk : Type} (H : Host Disk) (disk : Disk).

(** [getContentHash] looks at, and touches, the entry of its session
    only. *)
Lemma getContentHash_frame (meta : SessionMetadata)
    (c : gmap string CachedHashEntry) (id : string) :
  id <> md_id meta ->
  hl_cache (getContentHash H disk meta c) !! id = c !! id.
Proof.
  intros Hid. unfold getContentHash.
  destruct (c !! md_id meta) as [cached|];
    [destruct (Z.eqb _ _ && Z.eqb _ _); [done|]|];
    (destruct (readSessionContent _ _ _ _) as [fileContent|]; [|done]);
    (destruct (truthy fileContent); [|done]);
    simpl; by rewrite lookup_insert_ne.
Qed.

Lemma getContentHash_local (meta : SessionMetadata)
    (c c' : gmap string CachedHashEntry) :
  c !! md_id meta = c' !! md_id meta ->
  hl_hash (getContentHash H disk meta c)
  = hl_hash (getContentHash H disk meta c')
  /\ hl_cache (getContentHash H disk meta c) !! md_id meta
     = hl_cache (getContentHash H disk meta c') !! md_id meta.
Proof.
  intros Heq. unfold getContentHash. rewrite <- Heq.
  destruct (c !! md_id meta) as [cached|] eqn:Hc;
    [destruct (Z.eqb _ _ && Z.eqb _ _); [by simpl; rewrite <- Heq|]|];
    (destruct (readSessionContent _ _ _ _) as [fileContent|];
     [|by simpl; rewrite <- Heq]);
    (destruct (truthy fileContent); [|by simpl; rewrite <- Heq]);
    simpl; by rewrite !lookup_insert_eq.
Qed.

(** Asked again with the cache it left, [getContentHash] gives the same
    hash. *)
Lemma getContentHash_stable (meta : SessionMetadata)
    (c : gmap string CachedHashEntry) :
  hl_hash
    (getContentHash H disk meta (hl_cache (getContentHash H disk meta c)))
  = hl_hash (getContentHash H disk meta c).
Proof.
  unfold getContentHash.
  destruct (c !! md_id meta) as [cached|] eqn:Hc;
    [destruct (Z.eqb (mtimeMs cached) (md_mtimeMs meta)
               && Z.eqb (sizeBytes cached) (md_sizeBytes meta)) eqn:Hf|].
  - simpl. by rewrite Hc, Hf.
  - destruct (readSessionContent _ _ _ _) as [fileContent|] eqn:Hr.
    + destruct (truthy fileContent) eqn:Ht; simpl.
      * by rewrite lookup_insert_eq, !Z.eqb_refl.
      * by rewrite Hc, Hf, ?Hr, ?Ht.
    + simpl. by rewrite Hc, Hf, ?Hr.
  - destruct (readSessionContent _ _ _ _) as [fileContent|] eqn:Hr.
    + destruct (truthy fileContent) eqn:Ht; simpl.
      * by rewrite lookup_insert_eq, !Z.eqb_refl.
      * by rewrite Hc, ?Hr, ?Ht.
    + simpl. by rewrite Hc, ?Hr.
Qed.

Lemma withId_fresh (id : string) (metadata : list SessionMetadata) :
  ~ In id (map md_id metadata) -> withId id metadata = None.
Proof.
  unfold withId. induction metadata as [|m rest IH]; simpl; [done|].
  intros Hfresh. destruct (String.eqb_spec (md_id m) id); [tauto|].
  apply IH. tauto.
Qed.

Lemma withId_In (id : string) (metadata : list SessionMetadata)
    (meta : SessionMetadata) :
  List.NoDup (map md_id metadata) -> In meta metadata -> md_id meta = id ->
  withId id metadata = Some meta.
Proof.
  unfold withId. induction metadata as [|m rest IH]; simpl; [done|].
  intros Hnodup Hin Hid. apply List.NoDup_cons_iff in Hnodup as [Hm Hrest].
  destruct (String.eqb_spec (md_id m) id) as [Heq|Hne].
  - destruct Hin as [->|Hin]; [done|]. exfalso. apply Hm.
    rewrite Heq, <- Hid. by apply in_map.
  - destruct Hin as [->|Hin]; [done|]. by apply IH.
Qed.

(** What the hashing loop leaves, session by session, when the ids are
    pairwise different. *)
Lemma hashAll_get (metadata : list SessionMetadata)
    (c : gmap string CachedHashEntry) (hs0 : JsMap.t string)
    (lm0 : JsMap.t CopilotSession) (id : string) :
  List.NoDup (map md_id metadata) ->
  let r := fold_left (hashStep H disk) metadata (c, hs0, lm0) in
  match withId id metadata with
  | Some m =>
      let g := getContentHash H disk m c in
      r.1.1 !! id = hl_cache g !! id
      /\ JsMap.get r.1.2 id
         = (if truthy (hl_hash g) then Some (hl_hash g)
            else JsMap.get hs0 id)
      /\ JsMap.get r.2 id
         = (if truthy (hl_hash g) then Some (sessionOfMetadata m)
            else JsMap.get lm0 id)
  | None =>
      r.1.1 !! id = c !! id /\ JsMap.get r.1.2 id = JsMap.get hs0 id
      /\ JsMap.get r.2 id = JsMap.get lm0 id
  end.
Proof.
  revert c hs0 lm0. induction metadata as [|m rest IH]; intros c hs0 lm0;
    [done|].
  cbn [map]. intros Hnodup.
  apply List.NoDup_cons_iff in Hnodup as [Hm Hrest].
  unfold withId. cbn [fold_left List.find]. fold (withId id rest).
  set (g := getContentHash H disk m c).
  specialize (IH (hl_cache g)
                (if truthy (hl_hash g) then
                   JsMap.set hs0 (md_id m) (hl_hash g)
                 else hs0)
                (if truthy (hl_hash g) then
                   JsMap.set lm0 (md_id m) (sessionOfMetadata m)
                 else lm0) Hrest).
  replace (hashStep H disk (c, hs0, lm0) m)
    with (hl_cache g,
          if truthy (hl_hash g) then JsMap.set hs0 (md_id m) (hl_hash g)
          else hs0,
          if truthy (hl_hash g) then
            JsMap.set lm0 (md_id m) (sessionOfMetadata m)
          else lm0)
    by (unfold hashStep; fold g; by destruct (truthy (hl_hash g))).
  cbv zeta in *. revert IH.
  generalize (fold_left (hashStep H disk) rest
                (hl_cache g,
                 if truthy (hl_hash g) then
                   JsMap.set hs0 (md_id m) (hl_hash g)
                 else hs0,
                 if truthy (hl_hash g) then
                   JsMap.set lm0 (md_id m) (sessionOfMetadata m)
                 else lm0)).
  intros [[c' hs] lm]. cbn [fst snd]. intros IH.
  destruct (String.eqb_spec (md_id m) id) as [Hid|Hid].
  - rewrite withId_fresh in IH by (by rewrite <- Hid).
    destruct IH as (-> & -> & ->). fold g. split; [done|].
    destruct (truthy (hl_hash g)); [|done].
    by rewrite !JsMapFacts.get_set, Hid, String.eqb_refl.
  - assert (Hget : forall {V} (m0 : JsMap.t V) v,
              JsMap.get
                (if truthy (hl_hash g) then JsMap.set m0 (md_id m) v else m0)
                id
              = JsMap.get m0 id).
    { intros V m0 v. destruct (truthy (hl_hash g)); [|done].
      rewrite JsMapFacts.get_set.
      by destruct (String.eqb_spec (md_id m) id). }
    rewrite !Hget in IH.
    destruct (withId id rest) as [m'|] eqn:Hm'.
    + assert (Hid' : md_id m' = id).
      { unfold withId in Hm'. apply List.find_some in Hm' as [_ Hm'].
        by apply String.eqb_eq in Hm'. }
      assert (Hentry : hl_cache g !! md_id m' = c !! md_id m').
      { apply getContentHash_frame. congruence. }
      destruct (getContentHash_local m' _ _ Hentry) as [Hh Hc].
      subst id. by rewrite Hh, Hc in IH.
    + destruct IH as (-> & -> & ->). split_and!; [|done..].
      by apply getContentHash_frame.
Qed.

(** The hashing loop from an empty [localHashes] and [localMap]. *)
Lemma hashAll_at (metadata : list SessionMetadata)
    (c : gmap string CachedHashEntry) (id : string) :
  List.NoDup (map md_id metadata) ->
  let r := hashAll H disk c metadata in
  match withId id metadata with
  | Some m =>
      let g := getContentHash H disk m c in
      r.1.1 !! id = hl_cache g !! id
      /\ JsMap.get r.1.2 id
         = (if truthy (hl_hash g) then Some (hl_hash g) else None)
      /\ JsMap.get r.2 id
         = (if truthy (hl_hash g) then Some (sessionOfMetadata m) else None)
  | None =>
      r.1.1 !! id = c !! id /\ JsMap.get r.1.2 id = None
      /\ JsMap.get r.2 id = None
  end.
Proof. apply (hashAll_get metadata c [] [] id). Qed.

End Hashing.

(** *** The metadata of the second push *)

Lemma filter_ids_NoDup (q : SessionMetadata -> bool)
    (metadata : list SessionMetadata) :
  List.NoDup (map md_id metadata) ->
  List.NoDup (map md_id (List.filter q metadata)).
Proof.
  induction metadata as [|m rest IH]; simpl; [done|].
  intros Hnodup. apply List.NoDup_cons_iff in Hnodup as [Hm Hrest].
  destruct (q m); simpl; [|by apply IH].
  apply List.NoDup_cons_iff. split; [|by apply IH].
  intros Hin. apply Hm. apply in_map_iff in Hin as (m' & <- & Hin).
  apply filter_In in Hin as [Hin _]. by apply in_map.
Qed.

Lemma filter_narrower {A : Type} (q p s : A -> bool) (l : list A) :
  (forall a, q a = true -> p a = true) ->
  List.filter s (List.filter q l)
  = List.filter q (List.filter s (List.filter p l)).
Proof.
  intros Himp. induction l as [|a rest IH]; simpl; [done|].
  destruct (q a) eqn:Hq.
  - rewrite (Himp a Hq). simpl. destruct (s a); simpl; [|done].
    by rewrite Hq, IH.
  - destruct (p a); simpl; [|done]. destruct (s a); simpl; [|done].
    by rewrite Hq.
Qed.

Section Later.
Context {Disk : Type} (H : Host Disk) (cfg : Config).

(** With a clock that does not run backwards, a later push starts from a
    part of what an earlier one started from. *)
Lemma pushable_later (w w' : World Disk) :
  (forall n m, (n <= m)%nat -> dateNow H n <= dateNow H m) ->
  w_disk w' = w_disk w -> (w_ticks w <= w_ticks w')%nat ->
  pushable H cfg w'
  = List.filter
      (fun m =>
         md_lastMessageDate m
         >=? now H w' - maxSessionAgeDays cfg * 24 * 60 * 60 * 1000)
      (pushable H cfg w).
Proof.
  intros Hclock Hdisk Hticks.
  unfold pushable, SessionReader.readRecentSessionMetadata. cbv zeta.
  rewrite Hdisk. apply filter_narrower. intros m.
  rewrite !Z.geb_le. pose proof (Hclock _ _ Hticks). unfold now. lia.
Qed.

End Later.

(** *** Selection and staging *)

Lemma resolveAll_In (localSessions : JsMap.t CopilotSession)
    (remoteEntries : JsMap.t SyncManifestEntry)
    (localHashes : JsMap.t string) (actions : JsMap.t ConflictAction)
    (id : string) :
  resolveAll localSessions remoteEntries localHashes = Ok actions ->
  JsMap.has localSessions id = true ->
  exists a,
    resolve (JsMap.get localSessions id) (JsMap.get remoteEntries id)
      (JsMap.get localHashes id)
    = Ok a
    /\ In (id, a) actions.
Proof.
  intros Hall Hhas.
  pose proof (ConflictResolverFacts.resolveAll_get _ _ _ actions id Hall)
    as Hget.
  rewrite Hhas in Hget. simpl in Hget. destruct Hget as (a & Ha & Hget).
  exists a. split; [done|]. by apply SelectionFacts.get_In.
Qed.

Lemma collectToPush_In (metadata : list SessionMetadata)
    (localHashes : JsMap.t string) (actions : JsMap.t ConflictAction)
    (id : string) (a : ConflictAction) (meta : SessionMetadata)
    (h : string) :
  In (id, a) actions -> wantsPush a = true ->
  withId id metadata = Some meta -> JsMap.get localHashes id = Some h ->
  truthy h = true ->
  In {| pi_sessionId := id; pi_meta := meta; pi_hash := h; pi_action := a |}
    (collectToPush metadata localHashes actions).
Proof.
  intros Hin Hpush Hmeta Hh Ht. unfold collectToPush.
  apply in_flat_map. exists (id, a). split; [done|].
  unfold withId in Hmeta. rewrite Hpush, Hmeta, Hh, Ht. by left.
Qed.

Lemma collectToPush_from (metadata : list SessionMetadata)
    (localHashes : JsMap.t string) (actions : JsMap.t ConflictAction)
    (item : PushItem) :
  In item (collectToPush metadata localHashes actions) ->
  In (pi_sessionId item, pi_action item) actions
  /\ wantsPush (pi_action item) = true
  /\ withId (pi_sessionId item) metadata = Some (pi_meta item)
  /\ JsMap.get localHashes (pi_sessionId item) = Some (pi_hash item)
  /\ truthy (pi_hash item) = true.
Proof.
  unfold collectToPush, withId. rewrite in_flat_map.
  intros ([id a] & Hin & Hitem).
  destruct (wantsPush a) eqn:Hpush; [|done].
  destruct (List.find _ metadata) as [meta|] eqn:Hfind; [|done].
  destruct (JsMap.get localHashes id) as [h|] eqn:Hh; [|done].
  destruct (truthy h) eqn:Ht; [|done].
  by destruct Hitem as [<-|[]].
Qed.

(** A hash equal to the one the manifest lists is never pushed. *)
Lemma resolve_same_hash (l : CopilotSession) (e : SyncManifestEntry)
    (h : string) :
  truthy h = true -> me_sha e = h ->
  exists a,
    resolve (Some l) (Some e) (Some h) = Ok a /\ wantsPush a = false.
Proof.
  intros Ht <-. unfold resolve. simpl. rewrite Ht.
  rewrite bool_decide_eq_true_2 by done. by eexists.
Qed.

(** Without a session on this side [resolve] returns. *)
Lemma resolve_remote_only (remote : option SyncManifestEntry)
    (h : option string) :
  exists a, resolve None remote h = Ok a.
Proof. destruct remote; by eexists. Qed.

Section Staging.
Context {Disk : Type} (H : Host Disk) (net : Network).
Context (pass : string) (remote : gmap string string) (disk : Disk).
Context (remoteMap : JsMap.t SyncManifestEntry).

Local Abbreviation stage :=
  (stageSession H net pass remote disk remoteMap).
Local Abbreviation stageEvery :=
  (stageAll H net pass remote disk remoteMap).

Lemma stageSession_unstaged (st : Staging) (item : PushItem) :
  staged H disk item = false -> stage st item = st.
Proof.
  unfold stageSession, staged.
  destruct (readSessionContent _ _ _ _) as [rawContent|]; [|done].
  by destruct (truthy rawContent).
Qed.

Lemma stageAll_unstaged (toPush : list PushItem) (st : Staging) :
  (forall item, In item toPush -> staged H disk item = false) ->
  stageEvery toPush st = st.
Proof.
  unfold stageAll. revert st.
  induction toPush as [|item rest IH]; intros st Hnone; [done|].
  simpl. rewrite stageSession_unstaged by (apply Hnone; by left).
  apply IH. intros item' Hin. apply Hnone. by right.
Qed.

Lemma stageAll_ticks (toPush : list PushItem) (st : Staging) :
  (st_ticks st <= st_ticks (stageEvery toPush st))%nat.
Proof.
  unfold stageAll. revert st.
  induction toPush as [|item rest IH]; intros st; [done|].
  simpl. etrans; [|apply IH]. unfold stageSession.
  destruct (readSessionContent _ _ _ _) as [rawContent|]; [|done].
  destruct (truthy rawContent); [|done]. simpl.
  destruct (backupOf _ _ _ _ _); lia.
Qed.

Lemma stageSession_files (st : Staging) (item : PushItem) :
  staged H disk item = true ->
  exists f,
    st_filesToPush (stage st item) = (st_filesToPush st ++ [f])%list.
Proof.
  unfold stageSession, staged.
  destruct (readSessionContent _ _ _ _) as [rawContent|]; [|done].
  destruct (truthy rawContent); [|done]. simpl. eauto.
Qed.

(** Without a staged file, no item was staged. *)
Lemma stageAll_files (toPush : list PushItem) (st : Staging) :
  exists more,
    st_filesToPush (stageEvery toPush st)
    = (st_filesToPush st ++ more)%list
    /\ (more = [] ->
        forall item, In item toPush -> staged H disk item = false).
Proof.
  unfold stageAll. revert st.
  induction toPush as [|item rest IH]; intros st.
  { exists []. by rewrite app_nil_r. }
  simpl. destruct (IH (stage st item)) as (more & Hfiles & Hnone).
  destruct (staged H disk item) eqn:Hstaged.
  - destruct (stageSession_files st item Hstaged) as (f & Hf).
    rewrite Hf, <- app_assoc in Hfiles. eexists. split; [exact Hfiles|done].
  - rewrite stageSession_unstaged in Hfiles |- * by done.
    exists more. split; [done|]. intros Hmore item' [<-|Hin]; [done|].
    by apply Hnone.
Qed.

(** Every backup goes under [sessions/backups/]. *)
Lemma stageAll_backups (toPush : list PushItem) (st : Staging) :
  Forall (fun f => exists t id, path f = backupPath t id)
    (st_backupFiles st) ->
  Forall (fun f => exists t id, path f = backupPath t id)
    (st_backupFiles (stageEvery toPush st)).
Proof.
  unfold stageAll. revert st.
  induction toPush as [|item rest IH]; intros st Hst; [done|].
  simpl. apply IH. unfold stageSession.
  destruct (readSessionContent _ _ _ _) as [rawContent|]; [|done].
  destruct (truthy rawContent); [|done]. simpl.
  apply Forall_app. split; [done|]. unfold backupOf.
  destruct (bool_decide _ && JsMap.has _ _); [|done].
  destruct (getFileContent _ _ _) as [[existing|]|]; [|done..].
  destruct (truthy existing); [|done].
  repeat constructor. simpl. eauto.
Qed.

(** The entries the staging loop leaves: that of a staged session lists the
    hash of the item, any other is as it was. *)
Lemma stageAll_entries (toPush : list PushItem) (st : Staging) :
  List.NoDup (map pi_sessionId toPush) ->
  let st' := stageEvery toPush st in
  (forall id,
     (forall item, In item toPush -> staged H disk item = true ->
        pi_sessionId item <> id) ->
     JsMap.get (sm_entries (st_manifest st')) id
     = JsMap.get (sm_entries (st_manifest st)) id)
  /\ (forall item, In item toPush -> staged H disk item = true ->
        exists e,
          JsMap.get (sm_entries (st_manifest st')) (pi_sessionId item)
          = Some e
          /\ me_sha e = pi_hash item).
Proof.
  unfold stageAll. cbv zeta. revert st.
  induction toPush as [|item rest IH]; intros st Hnodup; [by split|].
  simpl in Hnodup. apply List.NoDup_cons_iff in Hnodup as [Hfresh Hnodup].
  simpl. destruct (IH (stage st item) Hnodup) as (Hother & Hself).
  split.
  - intros id Hid. rewrite Hother.
    + apply ManifestFacts.stageSession_other.
      destruct (staged H disk item) eqn:Hs; [right|by left].
      apply Hid; [by left | done].
    + intros item' Hin. apply Hid. by right.
  - intros item' [<-|Hin] Hs; [|by apply Hself].
    rewrite Hother.
    + destruct (ManifestFacts.stageSession_self H net pass remote disk
                  remoteMap st item Hs) as (e & He & _ & Hsha & _).
      by exists e.
    + intros item' Hin _ Heq. apply Hfresh. rewrite <- Heq.
      by apply in_map.
Qed.

End Staging.

Section Twice.
Context {Disk : Type} (H : Host Disk) (cfg : Config) (net : Network).
Context (pass : string).

(** Nothing a push staged, and nothing it left alone, is staged by a push
    that follows it on the same disk and looks at a part of the same
    metadata; and the resolver, which returned in the first push, returns
    in the second. *)
Lemma nothing_left (disk : Disk) (remote : gmap string string)
    (c0 : gmap string CachedHashEntry) (metadata : list SessionMetadata)
    (q : SessionMetadata -> bool) (st0 : Staging)
    (actions1 : JsMap.t ConflictAction) :
  List.NoDup (map md_id metadata) ->
  let remoteMap := sm_entries (st_manifest st0) in
  let first := hashAll H disk c0 metadata in
  resolveAll first.2 remoteMap first.1.2 = Ok actions1 ->
  let st :=
    stageAll H net pass remote disk remoteMap
      (collectToPush metadata first.1.2 actions1) st0 in
  let second := hashAll H disk first.1.1 (List.filter q metadata) in
  exists actions2,
    resolveAll second.2 (sm_entries (st_manifest st)) second.1.2
    = Ok actions2
    /\ forall item,
         In item
           (collectToPush (List.filter q metadata) second.1.2 actions2) ->
         staged H disk item = false.
Proof.
  intros Hnodup remoteMap first Hall1 st second.
  set (toPush := collectToPush metadata first.1.2 actions1) in *.
  assert (Hunique : List.NoDup (map pi_sessionId toPush)).
  { apply SelectionFacts.collectToPush_NoDup.
    by eapply SelectionFacts.resolveAll_NoDup. }
  destruct (stageAll_entries H net pass remote disk remoteMap toPush st0
              Hunique) as (Hother & Hself).
  fold st in Hother, Hself.
  (* what the two hashing loops hold for a session of the second *)
  assert (Hat : forall id meta,
    withId id (List.filter q metadata) = Some meta ->
    withId id metadata = Some meta
    /\ JsMap.get second.1.2 id = JsMap.get first.1.2 id
    /\ JsMap.get second.2 id = JsMap.get first.2 id
    /\ JsMap.get second.2 id
       = (if truthy (hl_hash (getContentHash H disk meta c0)) then
            Some (sessionOfMetadata meta)
          else None)
    /\ JsMap.get second.1.2 id
       = (if truthy (hl_hash (getContentHash H disk meta c0)) then
            Some (hl_hash (getContentHash H disk meta c0))
          else None)).
  { intros id meta Hmeta2.
    pose proof Hmeta2 as Hfound. unfold withId in Hfound.
    apply List.find_some in Hfound as [Hmember Hid].
    apply String.eqb_eq in Hid. apply filter_In in Hmember as [Hmember _].
    pose proof (withId_In id metadata meta Hnodup Hmember Hid) as Hmeta1.
    pose proof (hashAll_at H disk (List.filter q metadata) first.1.1 id
                  (filter_ids_NoDup q metadata Hnodup)) as Hsecond.
    pose proof (hashAll_at H disk metadata c0 id Hnodup) as Hfirst.
    cbv zeta in Hsecond, Hfirst. fold first in Hfirst, Hsecond.
    fold second in Hsecond.
    rewrite Hmeta2 in Hsecond. rewrite Hmeta1 in Hfirst.
    destruct Hfirst as (Hc1 & Hhs1 & Hlm1).
    destruct Hsecond as (_ & Hhs2 & Hlm2).
    assert (Hsame : hl_hash (getContentHash H disk meta first.1.1)
                    = hl_hash (getContentHash H disk meta c0)).
    { rewrite <- (getContentHash_stable H disk meta c0).
      apply getContentHash_local. by rewrite Hid. }
    rewrite Hsame in Hhs2, Hlm2.
    split_and!; [done | congruence | congruence | done | done]. }
  (* the resolver on a session of the second push *)
  assert (Hres : forall id meta,
    withId id (List.filter q metadata) = Some meta ->
    JsMap.has second.2 id = true ->
    exists a,
      resolve (JsMap.get second.2 id)
        (JsMap.get (sm_entries (st_manifest st)) id)
        (JsMap.get second.1.2 id)
      = Ok a
      /\ (wantsPush a = true ->
          forall h a',
            staged H disk
              {| pi_sessionId := id; pi_meta := meta; pi_hash := h;
                 pi_action := a' |}
            = false)).
  { intros id meta Hmeta2 Hhas.
    destruct (Hat id meta Hmeta2) as (Hmeta1 & Hhs & Hlm & Hlm2 & Hhs2).
    unfold JsMap.has in Hhas. rewrite Hlm2 in Hhas.
    destruct (truthy (hl_hash (getContentHash H disk meta c0))) eqn:Hth;
      [|done].
    set (h := hl_hash (getContentHash H disk meta c0)) in *.
    destruct (resolveAll_In first.2 remoteMap first.1.2 actions1 id Hall1)
      as (a1 & Ha1 & Hin1).
    { unfold JsMap.has. by rewrite <- Hlm, Hlm2. }
    rewrite <- Hlm, <- Hhs, Hlm2, Hhs2 in Ha1. rewrite Hlm2, Hhs2.
    assert (Hkept :
      (forall item, In item toPush -> staged H disk item = true ->
         pi_sessionId item <> id) ->
      exists a,
        resolve (Some (sessionOfMetadata meta))
          (JsMap.get (sm_entries (st_manifest st)) id) (Some h)
        = Ok a
        /\ a = a1).
    { intros Hnot. rewrite (Hother id Hnot). by exists a1. }
    destruct (wantsPush a1) eqn:Hpush1.
    - destruct (staged H disk
                  {| pi_sessionId := id; pi_meta := meta; pi_hash := h;
                     pi_action := a1 |}) eqn:Hstaged1.
      + assert (Hitem1 :
          In {| pi_sessionId := id; pi_meta := meta; pi_hash := h;
                pi_action := a1 |} toPush).
        { apply collectToPush_In; [done..| |done].
          by rewrite <- Hhs, Hhs2. }
        destruct (Hself _ Hitem1 Hstaged1) as (e & He & Hsha).
        simpl in He, Hsha. rewrite He.
        destruct (resolve_same_hash (sessionOfMetadata meta) e h Hth Hsha)
          as (a & Ha & Hskip).
        exists a. split; [done|]. congruence.
      + destruct Hkept as (a & Ha & ->).
        { intros item' Hin' Hstaged' Heq.
          apply collectToPush_from in Hin' as (_ & _ & Hm' & _).
          rewrite Heq, Hmeta1 in Hm'. injection Hm' as Hm'.
          revert Hstaged' Hstaged1. unfold staged. simpl.
          rewrite <- Hm', Heq. congruence. }
        exists a1. split; [done|]. intros _ h' a'.
        revert Hstaged1. by unfold staged.
    - destruct Hkept as (a & Ha & ->).
      { intros item' Hin' _ Heq.
        apply collectToPush_from in Hin' as (Hact & Hp & _).
        apply (SelectionFacts.resolveAll_answers _ _ _ _ _ _ Hall1)
          in Hact.
        rewrite Heq, <- Hlm, <- Hhs, Hlm2, Hhs2 in Hact. congruence. }
      exists a1. split; [done|]. congruence. }
  (* a session in [localMap] has a metadata record in the list *)
  assert (Hlisted : forall id,
    JsMap.has second.2 id = true ->
    exists meta, withId id (List.filter q metadata) = Some meta).
  { intros id Hhas.
    pose proof (hashAll_at H disk (List.filter q metadata) first.1.1 id
                  (filter_ids_NoDup q metadata Hnodup)) as Hsecond.
    cbv zeta in Hsecond. fold second in Hsecond.
    destruct (withId id (List.filter q metadata)) as [meta|];
      [by eexists|].
    destruct Hsecond as (_ & _ & Hlm). unfold JsMap.has in Hhas.
    by rewrite Hlm in Hhas. }
  destruct (ConflictResolverFacts.resolveAll_returns second.2
              (sm_entries (st_manifest st)) second.1.2) as [actions2 Hall2].
  { intros id. destruct (JsMap.has second.2 id) eqn:Hhas.
    - destruct (Hlisted id Hhas) as [meta Hmeta].
      destruct (Hres id meta Hmeta Hhas) as (a & Ha & _). by exists a.
    - unfold JsMap.has in Hhas.
      destruct (JsMap.get second.2 id); [done|].
      apply resolve_remote_only. }
  exists actions2. split; [done|].
  intros item Hitem.
  apply collectToPush_from in Hitem as (Hin2 & Hpush2 & Hmeta2 & Hh2 & Hth).
  destruct item as [id meta h a2]. simpl in Hin2, Hpush2, Hmeta2, Hh2, Hth.
  apply (SelectionFacts.resolveAll_answers _ _ _ _ _ _ Hall2) in Hin2.
  assert (Hhas : JsMap.has second.2 id = true).
  { destruct (Hat id meta Hmeta2) as (_ & _ & _ & Hlm2 & Hhs2).
    unfold JsMap.has. rewrite Hlm2. rewrite Hh2 in Hhs2.
    by destruct (truthy (hl_hash (getContentHash H disk meta c0))). }
  destruct (Hres id meta Hmeta2 Hhas) as (a & Ha & Hquiet).
  rewrite Hin2 in Ha. injection Ha as <-. by apply Hquiet.
Qed.

(** *** What a push that returns has done *)

Lemma getRemoteManifest_remote (w w' : World Disk) :
  w_remote w = w_remote w' ->
  getRemoteManifest H net (Some pass) w
  = getRemoteManifest H net (Some pass) w'.
Proof. intros Heq. unfold getRemoteManifest. by rewrite Heq. Qed.

Lemma putAll_returned (files : list RepoFile) (w w' : World Disk) :
  putAll net files w = Returned w' ->
  w_remote w'
  = fold_left (fun s f => <[path f := content f]> s) files (w_remote w)
  /\ w_ticks w' = w_ticks w.
Proof.
  revert w. induction files as [|file rest IH]; intros w; simpl.
  { by intros [= <-]. }
  unfold putFile. destruct (get_fails net (path file)); [done|].
  destruct (put_fails net (path file)); [done|].
  intros Hrest. by apply IH in Hrest as [-> ->].
Qed.

Lemma commitFiles_returned (files : list RepoFile) (w w' : World Disk) :
  commitFiles net files w = Returned w' ->
  w_remote w'
  = fold_left (fun s f => <[path f := content f]> s) files (w_remote w)
  /\ w_ticks w' = w_ticks w.
Proof.
  unfold commitFiles, batchCommit.
  destruct files as [|file rest]; [by intros [= <-]|].
  destruct (batch_fails net); [apply putAll_returned|].
  by intros [= <-].
Qed.

Lemma puts_lookup (before following : list RepoFile) (f : RepoFile)
    (store : gmap string string) :
  Forall (fun g => path g <> path f) following ->
  fold_left (fun s g => <[path g := content g]> s)
    (before ++ f :: following)%list store
  !! path f
  = Some (content f).
Proof.
  intros Hfollowing. rewrite fold_left_app. simpl.
  generalize (fold_left (fun s g => <[path g := content g]> s) before store).
  intros s.
  assert (Hkept : forall s' : gmap string string,
            fold_left (fun s g => <[path g := content g]> s) following s'
            !! path f
            = s' !! path f).
  { induction Hfollowing as [|g rest Hg _ IH]; intros s'; simpl; [done|].
    by rewrite IH, lookup_insert_ne. }
  by rewrite Hkept, lookup_insert_eq.
Qed.

Lemma backupPath_not_manifest (timestamp : Z) (sessionId : string) :
  backupPath timestamp sessionId <> "manifest.json".
Proof. unfold backupPath. discriminate. Qed.

Lemma stagingOf_unfold (manifest : SyncManifest)
    (metadata : list SessionMetadata) (w : World Disk)
    (actions : JsMap.t ConflictAction) :
  let r := hashAll H (w_disk w) (w_hashCache w) metadata in
  resolveAll r.2 (sm_entries manifest) r.1.2 = Ok actions ->
  stagingOf H net pass manifest metadata w
  = stageAll H net pass (w_remote w) (w_disk w) (sm_entries manifest)
      (collectToPush metadata r.1.2 actions)
      {| st_filesToPush := []; st_backupFiles := [];
         st_manifest := manifest; st_ticks := w_ticks w;
         st_encryptions := 0 |}.
Proof.
  unfold stagingOf. cbv zeta.
  destruct (hashAll H (w_disk w) (w_hashCache w) metadata)
    as [[c hs] lm].
  cbn [fst snd]. by intros ->.
Qed.

Lemma pushWithManifest_returned (manifest : SyncManifest)
    (metadata : list SessionMetadata) (w w1 : World Disk) :
  pushWithManifest H net (Some pass) manifest metadata w = Returned w1 ->
  let st := stagingOf H net pass manifest metadata w in
  let r := hashAll H (w_disk w) (w_hashCache w) metadata in
  (exists actions, resolveAll r.2 (sm_entries manifest) r.1.2 = Ok actions)
  /\ w_disk w1 = w_disk w
  /\ w_hashCache w1 = r.1.1
  /\ (w_ticks w <= w_ticks w1)%nat
  /\ ((st_filesToPush st = [] /\ w_remote w1 = w_remote w)
      \/ w_remote w1
         = fold_left (fun s f => <[path f := content f]> s)
             (filesToCommit H pass st) (w_remote w)).
Proof.
  unfold pushWithManifest, stagingOf.
  destruct (hashAll H (w_disk w) (w_hashCache w) metadata)
    as [[c hs] lm].
  cbn [fst snd].
  destruct (resolveAll lm (sm_entries manifest) hs) as [actions|e];
    [|done].
  destruct (collectToPush _ _ _) as [|item rest].
  { intros [= <-]. simpl. split_and!; [by eexists | done..|]. by left. }
  cbn [w_remote w_disk w_ticks with_hashCache].
  set (st := stageAll H net pass _ _ _ _ _).
  assert (Hticks : (w_ticks w <= st_ticks st)%nat)
    by exact (stageAll_ticks H net pass (w_remote w) (w_disk w)
                (sm_entries manifest) (item :: rest)
                {| st_filesToPush := []; st_backupFiles := [];
                   st_manifest := manifest; st_ticks := w_ticks w;
                   st_encryptions := 0 |}).
  destruct (st_filesToPush st) as [|f fs] eqn:Hfiles.
  { intros [= <-]. simpl. split_and!; [by eexists | done..|]. by left. }
  rewrite <- Hfiles.
  pose proof (CycleFacts.commitFiles_local net (filesToCommit H pass st)
                (with_ticks (with_hashCache w c) (S (st_ticks st))))
    as Hlocal.
  destruct (commitFiles net _ _) as [w2|e w2] eqn:Hcommit; [|done].
  intros [= <-].
  destruct Hlocal as (Hdisk & _ & Hcache & _).
  apply commitFiles_returned in Hcommit as [Hremote Hsame].
  simpl in *. split_and!; [by eexists | done..|lia|]. by right.
Qed.

(** A push none of whose items can be staged returns without a commit. *)
Lemma pushWithManifest_quiet (manifest : SyncManifest)
    (metadata : list SessionMetadata) (w : World Disk) :
  (let r := hashAll H (w_disk w) (w_hashCache w) metadata in
   exists actions,
     resolveAll r.2 (sm_entries manifest) r.1.2 = Ok actions
     /\ forall item,
          In item (collectToPush metadata r.1.2 actions) ->
          staged H (w_disk w) item = false) ->
  exists w',
    pushWithManifest H net (Some pass) manifest metadata w = Returned w'
    /\ w_remote w' = w_remote w /\ w_trace w' = w_trace w
    /\ w_disk w' = w_disk w.
Proof.
  unfold pushWithManifest. cbv zeta.
  destruct (hashAll H (w_disk w) (w_hashCache w) metadata)
    as [[c hs] lm].
  cbn [fst snd]. intros (actions & -> & Hnone).
  destruct (collectToPush _ _ _) as [|item rest] eqn:HtoPush.
  { eexists. by split. }
  rewrite stageAll_unstaged by exact Hnone.
  simpl. eexists. by split.
Qed.

(** *** The second push *)

(** A push that follows a push that returned, with nothing changed on the
    disk in between, returns and writes nothing: no file goes to the store
    and none to the disk.  It holds whenever what [encryptToString] gives
    decrypts under the same passphrase and is not empty, the text of a
    manifest parses back to it, the clock does not run backwards and no two
    sessions of the disk share an id. *)
Theorem second_push_writes_nothing (w w1 : World Disk) :
  pass <> "" ->
  (forall n text,
     decryptFromString H (encryptToString H pass n text) pass = Some text) ->
  (forall n text, encryptToString H pass n text <> "") ->
  (forall m, parseManifest H (stringifyManifest H m) = Some (Manifest m)) ->
  (forall n m, (n <= m)%nat -> dateNow H n <= dateNow H m) ->
  List.NoDup (map md_id (readAllSessionMetadata H (w_disk w))) ->
  pushToRemote H cfg net (Some pass) w = Returned w1 ->
  exists w2,
    pushToRemote H cfg net (Some pass) w1 = Returned w2
    /\ w_remote w2 = w_remote w1 /\ w_trace w2 = w_trace w1
    /\ w_disk w2 = w_disk w1.
Proof.
  intros Hpass Hdecrypts Hfull Hparses Hclock Hids Hfirst.
  apply truthy_true in Hpass.
  assert (Hunique : List.NoDup (map md_id (pushable H cfg w))).
  { unfold pushable, SessionReader.readRecentSessionMetadata.
    by do 2 apply filter_ids_NoDup. }
  assert (Hrun :
    (pushable H cfg w = [] /\ w1 = tick w)
    \/ exists m0 w0,
         pushWithManifest H net (Some pass) m0 (pushable H cfg w) w0
         = Returned w1
         /\ w_disk w0 = w_disk w /\ w_remote w0 = w_remote w
         /\ w_hashCache w0 = w_hashCache w
         /\ (w_ticks w <= w_ticks w0)%nat
         /\ get_fails net "manifest.json" = false
         /\ forall w',
              w_remote w' = w_remote w ->
              match getRemoteManifest H net (Some pass) w' with
              | Ok (Manifest m) => m = m0
              | Ok Falsy => sm_entries m0 = []
              | Ok WithoutEntries => False
              | Throw _ => False
              end).
  { revert Hfirst. unfold pushToRemote. cbv zeta.
    change (List.filter _ (SessionReader.readRecentSessionMetadata _ _ _))
      with (pushable H cfg w).
    destruct (pushable H cfg w) as [|m rest]; [intros [= <-]; by left|].
    intros Hfirst. right.
    assert (Hget : forall r,
              getRemoteManifest H net (Some pass) (tick w) = Ok r ->
              get_fails net "manifest.json" = false).
    { intros r. unfold getRemoteManifest, getFileContent. rewrite Hpass.
      by destruct (get_fails net "manifest.json"). }
    revert Hfirst.
    destruct (getRemoteManifest H net (Some pass) (tick w))
      as [[| |m0]|e] eqn:Hread; [|done| |done]; intros Hpush.
    - exists (freshManifest H (now H (tick w))), (tick (tick w)).
      split_and!; [done..|simpl; lia|by eapply Hget|].
      intros w' Hw'.
      by rewrite (getRemoteManifest_remote w' (tick w)), Hread.
    - exists m0, (tick w). split_and!; [done..|simpl; lia|by eapply Hget|].
      intros w' Hw'.
      by rewrite (getRemoteManifest_remote w' (tick w)), Hread. }
  destruct Hrun
    as [[Hnone ->]
       |(m0 & w0 & Hpush & Hdisk0 & Hremote0 & Hcache0 & Hticks0 & Hget
         & Hread)].
  { exists (tick (tick w)). unfold pushToRemote. cbv zeta.
    change (List.filter _ (SessionReader.readRecentSessionMetadata _ _ _))
      with (pushable H cfg (tick w)).
    rewrite (pushable_later H cfg w (tick w)), Hnone;
      [done..|simpl; lia]. }
  apply pushWithManifest_returned in Hpush
    as ([actions1 Hall1] & Hdisk1 & Hcache1 & Hticks1 & Hremote1).
  cbv zeta in Hall1, Hcache1.
  unfold pushToRemote. cbv zeta.
  change (List.filter _ (SessionReader.readRecentSessionMetadata _ _ _))
    with (pushable H cfg w1).
  rewrite (pushable_later H cfg w w1) by (done || congruence || lia).
  set (q := fun m : SessionMetadata => md_lastMessageDate m >=? _).
  set (st := stagingOf H net pass m0 (pushable H cfg w) w0) in Hremote1.
  assert (Hquiet : forall m2 w2,
    w_disk w2 = w_disk w1 -> w_hashCache w2 = w_hashCache w1 ->
    sm_entries m2 = sm_entries (st_manifest st) ->
    exists w3,
      pushWithManifest H net (Some pass) m2
        (List.filter q (pushable H cfg w)) w2
      = Returned w3
      /\ w_remote w3 = w_remote w2 /\ w_trace w3 = w_trace w2
      /\ w_disk w3 = w_disk w2).
  { intros m2 w2 Hd Hc He. apply pushWithManifest_quiet. cbv zeta.
    rewrite Hd, Hc, He, Hdisk1, Hcache1. unfold st.
    rewrite (stagingOf_unfold m0 (pushable H cfg w) w0 actions1 Hall1).
    apply (nothing_left (w_disk w0) (w_remote w0) (w_hashCache w0)
             (pushable H cfg w) q
             {| st_filesToPush := []; st_backupFiles := [];
                st_manifest := m0; st_ticks := w_ticks w0;
                st_encryptions := 0 |} actions1 Hunique Hall1). }
  destruct (List.filter q (pushable H cfg w)) as [|m rest] eqn:Hmeta2.
  { by exists (tick w1). }
  rewrite <- Hmeta2 in *. clear m rest Hmeta2.
  destruct Hremote1 as [[Hfiles Hremote1]|Hremote1].
  - (* the first push committed nothing *)
    assert (Hst : sm_entries (st_manifest st) = sm_entries m0).
    { revert Hfiles. unfold st.
      rewrite (stagingOf_unfold m0 (pushable H cfg w) w0 actions1 Hall1).
      set (toPush := collectToPush _ _ _).
      destruct (stageAll_files H net pass (w_remote w0) (w_disk w0)
                  (sm_entries m0) toPush
                  {| st_filesToPush := []; st_backupFiles := [];
                     st_manifest := m0; st_ticks := w_ticks w0;
                     st_encryptions := 0 |}) as (more & -> & Hnone).
      simpl. intros ->. by rewrite stageAll_unstaged by by apply Hnone. }
    specialize (Hread (tick w1)).
    destruct (getRemoteManifest H net (Some pass) (tick w1))
      as [[| |m]|e].
    + destruct (Hquiet (freshManifest H (now H (tick w1))) (tick (tick w1)))
        as (w3 & -> & ? & ? & ?); [done..| |by exists w3].
      rewrite Hst, Hread by (simpl; congruence). done.
    + exfalso. apply Hread. simpl. congruence.
    + rewrite Hread by (simpl; congruence).
      destruct (Hquiet m0 (tick w1)) as (w3 & -> & ? & ? & ?); [done..|].
      by exists w3.
    + exfalso. apply Hread. simpl. congruence.
  - (* the first push committed: the second reads the manifest it wrote *)
    set (m1 := {| sm_version := sm_version (st_manifest st);
                  sm_deviceId := deviceId H;
                  sm_lastSyncTimestamp := dateNow H (st_ticks st);
                  sm_entries := sm_entries (st_manifest st) |}).
    assert (Hstored :
      w_remote w1 !! "manifest.json"
      = Some (encryptToString H pass (st_encryptions st)
                (stringifyManifest H m1))).
    { rewrite Hremote1. unfold filesToCommit. cbv zeta.
      apply (puts_lookup (st_filesToPush st) (st_backupFiles st)
               {| path := "manifest.json";
                  content :=
                    encryptToString H pass (st_encryptions st)
                      (stringifyManifest H m1) |}).
      unfold st.
      rewrite (stagingOf_unfold m0 (pushable H cfg w) w0 actions1 Hall1).
      eapply List.Forall_impl;
        [|apply (stageAll_backups H net pass); by constructor].
      intros f (t & id & ->). apply backupPath_not_manifest. }
    assert (Hmanifest :
      getRemoteManifest H net (Some pass) (tick w1) = Ok (Manifest m1)).
    { unfold getRemoteManifest, getFileContent. rewrite Hpass, Hget.
      simpl. rewrite Hstored.
      destruct (truthy (encryptToString H pass (st_encryptions st)
                          (stringifyManifest H m1))) eqn:Ht.
      - by rewrite Hdecrypts, Hparses.
      - exfalso. eapply Hfull. apply truthy_false. exact Ht. }
    rewrite Hmanifest.
    destruct (Hquiet m1 (tick w1)) as (w3 & -> & ? & ? & ?); [done..|].
    by exists w3.
Qed.

End Twice.

(** *** The host of the example *)

Lemma ofBits_bitsOf (p : positive) :
  ManifestCodec.ofBits (ManifestCodec.bitsOf p) = Some p.
Proof. induction p as [p IH|p IH|]; simpl; by rewrite ?IH. Qed.

Lemma readManifest_manifestText (m : SyncManifest) :
  ManifestCodec.readManifest (ManifestCodec.manifestText m)
  = Some (Manifest m).
Proof.
  unfold ManifestCodec.readManifest, ManifestCodec.manifestText.
  rewrite ofBits_bitsOf, decode_encode. simpl. do 2 f_equal.
  destruct m as [version device lastSync entries]. simpl. f_equal.
  rewrite map_map. etrans; [|apply List.map_id].
  apply List.map_ext. intros [id e]. simpl. by destruct e.
Qed.

Lemma stripPrefix_app (p t : string) :
  Fixtures.stripPrefix p (p ++ t) = Some t.
Proof.
  unfold Fixtures.stripPrefix.
  induction p as [|c p IH].
  - change ("" ++ t) with t. simpl. rewrite Nat.sub_0_r.
    replace (String.prefix "" t) with true by by destruct t.
    f_equal. induction t as [|c t IH]; simpl; [done|]. by rewrite IH.
  - change (String c p ++ t) with (String c (p ++ t)). simpl.
    by destruct (Ascii.ascii_dec c c).
Qed.

(** The fixture's [s1] goes to a store that holds nothing yet; the push
    that follows writes nothing. *)
Lemma second_push_writes_nothing_witness :
  exists w2,
    pushToRemote ManifestCodec.host Fixtures.config Fixtures.calm (Some "pw")
      (EngineNotions.after
         (pushToRemote ManifestCodec.host Fixtures.config Fixtures.calm
            (Some "pw") ManifestCodec.world))
    = Returned w2
    /\ w_remote w2
       = w_remote
           (EngineNotions.after
              (pushToRemote ManifestCodec.host Fixtures.config Fixtures.calm
                 (Some "pw") ManifestCodec.world))
    /\ w_trace w2
       = w_trace
           (EngineNotions.after
              (pushToRemote ManifestCodec.host Fixtures.config Fixtures.calm
                 (Some "pw") ManifestCodec.world))
    /\ w_disk w2
       = w_disk
           (EngineNotions.after
              (pushToRemote ManifestCodec.host Fixtures.config Fixtures.calm
                 (Some "pw") ManifestCodec.world)).
Proof.
  apply (second_push_writes_nothing ManifestCodec.host Fixtures.config
           Fixtures.calm "pw" ManifestCodec.world).
  - discriminate.
  - intros n text. apply (stripPrefix_app "enc(pw)" text).
  - intros n text. discriminate.
  - apply readManifest_manifestText.
  - intros n m Hnm. simpl. lia.
  - repeat constructor. by intros [].
  - reflexivity.
Defined.

End PushTwiceFacts.

(** ** SyncEngine: the passphrase and the first run *)

Module PassphraseSetupFacts.
Import GitHubRepo SyncEngine Encryption PassphraseSetup.

Lemma showInputBox_typed (u : User) :
  (length (typed (showInputBox u).2) <= length (typed u)
   <= S (length (typed (showInputBox u).2)))%nat.
Proof.
  unfold showInputBox.
  destruct (typed u) eqn:Htyped; simpl; rewrite ?Htyped; simpl; lia.
Qed.

Lemma showErrorMessage_typed (u : User) :
  typed (showErrorMessage u).2 = typed u.
Proof. unfold showErrorMessage. by destruct (clicked u). Qed.

(** One prompt without confirmation: one input box, and a passphrase kept
    exactly when a non-empty one was typed. *)
Lemma promptForPassphrase_once (k : Keys) (u : User) :
  let '(success, k', u') := promptForPassphrase false k u in
  (length (typed u') <= length (typed u) <= S (length (typed u')))%nat
  /\ if success then
       exists p, p <> "" /\ k' = setPassphrase p k
     else k' = k.
Proof.
  unfold promptForPassphrase.
  pose proof (showInputBox_typed u) as Hu. revert Hu.
  destruct (showInputBox u) as [[p|] u1]; simpl; intros Hu; [|done].
  destruct (truthy p) eqn:Hp; [|done].
  split; [done|]. exists p. split; [by apply truthy_true | done].
Qed.

Section Setup.
Context (node : Node) (json : EncryptionStrings.Json).

Lemma verifyAttempts_outcome (attempts : list Z) (verificationToken : string)
    (k : Keys) (u : User) :
  let '(verified, k', u') :=
    verifyAttempts node json attempts verificationToken k u in
  (length (typed u') <= length (typed u)
   <= length attempts + length (typed u'))%nat
  /\ if verified then
       exists p,
         held k' = Some p /\ secret k' = Some p /\ p <> ""
         /\ EncryptionStrings.verifyPassphrase node json p verificationToken
            = true
     else k' = k \/ (held k' = None /\ secret k' = None).
Proof.
  revert k u. induction attempts as [|attempt rest IH]; intros k u.
  { simpl. split; [lia | by left]. }
  cbn [verifyAttempts].
  pose proof (promptForPassphrase_once k u) as Honce. revert Honce.
  destruct (promptForPassphrase false k u) as [[success k1] u1].
  intros [Hu1 Hk1].
  destruct success; [|split; [simpl; lia | by left]].
  destruct Hk1 as (p & Hp & ->).
  unfold verifyHeld. cbn [held setPassphrase].
  destruct (EncryptionStrings.verifyPassphrase node json p verificationToken)
    eqn:Hverify.
  { split; [simpl; lia|]. by exists p. }
  cbv zeta.
  assert (Hnext : forall u2 : User,
    typed u2 = typed u1 ->
    let '(verified, k', u') :=
      verifyAttempts node json rest verificationToken
        {| held := None; secret := None |} u2 in
    (length (typed u') <= length (typed u)
     <= length (attempt :: rest) + length (typed u'))%nat
    /\ if verified then
         exists p,
           held k' = Some p /\ secret k' = Some p /\ p <> ""
           /\ EncryptionStrings.verifyPassphrase node json p
                verificationToken
              = true
       else k' = k \/ (held k' = None /\ secret k' = None)).
  { intros u2 Hu2.
    specialize (IH {| held := None; secret := None |} u2). revert IH.
    destruct (verifyAttempts node json rest verificationToken _ u2)
      as [[verified k'] u'].
    intros [Hu' Hk']. rewrite Hu2 in Hu'.
    split; [simpl; lia|].
    destruct verified; [done|]. right.
    by destruct Hk' as [->|?]. }
  destruct (attempt <? maxAttempts); [|by apply Hnext].
  pose proof (showErrorMessage_typed u1) as Hu2. revert Hu2.
  destruct (showErrorMessage u1) as [retry u2]. simpl. intros Hu2.
  case_bool_decide; [by apply Hnext|].
  split; [rewrite Hu2; simpl; lia | by right].
Qed.

(** [promptAndVerifyPassphrase] shows at most three input boxes.  It returns
    [true] only with a passphrase that verifies against the token, held in
    memory and kept in the secret store; when it returns [false] the first
    box was dismissed and the keys are as before, or a wrong passphrase was
    typed and none is held or kept. *)
Theorem promptAndVerifyPassphrase_outcome (verificationToken : string)
    (k : Keys) (u : User) :
  let '(verified, k', u') :=
    promptAndVerifyPassphrase node json verificationToken k u in
  (length (typed u') <= length (typed u) <= 3 + length (typed u'))%nat
  /\ if verified then
       exists p,
         held k' = Some p /\ secret k' = Some p /\ p <> ""
         /\ EncryptionStrings.verifyPassphrase node json p verificationToken
            = true
     else k' = k \/ (held k' = None /\ secret k' = None).
Proof.
  apply (verifyAttempts_outcome (seqZ 1 maxAttempts) verificationToken k u).
Qed.

(** The end of [initialize]: the status it leaves. *)
Local Ltac ended :=
  cbv beta iota; cbn [shown store keys user held secret];
  match goal with
  | Hstatus : forall st msg, status (updateStatus _ st msg _) = st |- _ =>
      rewrite ?Hstatus
  end;
  auto.

(** The branch of a first setup: a passphrase typed twice, then the token
    put. *)
Local Ltac first_setup :=
  unfold promptForPassphrase;
  destruct (showInputBox (user _)) as [[p|] u1]; [|ended];
  destruct (truthy p) eqn:Hp; [|ended];
  destruct (showInputBox u1) as [confirm u2];
  case_bool_decide; [|ended];
  cbn [held setPassphrase]; unfold putFile;
  destruct (get_fails _ "verification.token"); [ended|];
  destruct (put_fails _ "verification.token"); [ended|];
  ended; split; [done|]; exists p;
  split_and!; [done..|by apply truthy_true|by right].


End Setup.

End PassphraseSetupFacts.

(** ** SessionReader: the session index and the listing *)

Module SessionIndexFacts.
Import SessionReader SessionFiles SessionIndex.

Lemma listWorkspaceIds_In (disk : Disk) (workspaceId : string) :
  In workspaceId (listWorkspaceIds disk)
  <-> is_Some (chatSessions disk !! workspaceId).
Proof.
  unfold listWorkspaceIds. rewrite in_map_iff. split.
  - intros ([ws dir] & <- & Hin). apply list_elem_of_In in Hin.
    apply elem_of_map_to_list in Hin. by eexists.
  - intros [dir Hdir]. exists (workspaceId, dir). split; [done|].
    apply list_elem_of_In. by apply elem_of_map_to_list.
Qed.

(** A record that is read is that of a file found in the workspace's own
    directory, under the names it was asked for. *)
Lemma readSessionMetadata_Some (disk : Disk) (workspaceId sessionId : string)
    (meta : SessionMetadata) :
  readSessionMetadata disk workspaceId sessionId = Within (Some meta) ->
  (exists found,
     resolveSessionFilePath (chatSessions disk) workspaceId sessionId
     = Within (Some found))
  /\ plainName workspaceId = true
  /\ hasSeparator sessionId = false
  /\ md_id meta = sessionId
  /\ md_workspaceId meta = workspaceId.
Proof.
  unfold readSessionMetadata.
  destruct (resolveSessionFilePath _ _ _) as [[[fileName ext]|]|] eqn:Hfile;
    [|done..].
  cbn. intros [= <-].
  destruct (SessionFilesFacts.resolveSessionFilePath_Within _ _ _ _ Hfile).
  split_and!; [by eexists | done..].
Qed.

(** What the inner loop of [readAllSessionMetadata] gives for a session. *)
Lemma pushed_meta (disk : Disk) (workspaceId sessionId : string)
    (found : list SessionMetadata) (meta : SessionMetadata) :
  andThen (readSessionMetadata disk workspaceId sessionId)
    (fun meta =>
       Within match meta with
              | Some meta => [meta]
              | None => []
              end)
  = Within found ->
  In meta found
  <-> readSessionMetadata disk workspaceId sessionId = Within (Some meta).
Proof.
  destruct (readSessionMetadata disk workspaceId sessionId)
    as [[meta'|]|]; [| |done]; cbn; intros [= <-].
  - split; [by intros [->|[]] | intros [= ->]; by left].
  - split; [done | by intros [=]].
Qed.

(** The ids [getSessionIndex] gives: those of the index when it names any,
    those of the scan otherwise. *)
Lemma getSessionIndex_Within (disk : Disk) (workspaceId : string)
    (ids : list string) :
  getSessionIndex disk workspaceId = Within ids ->
  exists sessionIds,
    indexed disk workspaceId = Within sessionIds
    /\ ids
       = match sessionIds with
         | [] => scanChatSessionFiles (chatSessions disk !! workspaceId)
         | _ => sessionIds
         end.
Proof.
  unfold getSessionIndex, chatDirOf.
  destruct (plainName workspaceId); [|done]. cbn.
  destruct (indexed disk workspaceId) as [sessionIds|]; [|done]. cbn.
  exists sessionIds. split; [done|].
  destruct sessionIds; cbn in *; congruence.
Qed.

(** A session is read when its file is found in a workspace that is not
    excluded and the index is empty or names it. *)
Lemma listed_when_indexed (disk : Disk) (excludedWorkspaces : list string)
    (listed : list SessionMetadata) (workspaceId sessionId : string)
    (sessionIds : list string) (meta : SessionMetadata) :
  readAllSessionMetadata disk excludedWorkspaces = Within listed ->
  readSessionMetadata disk workspaceId sessionId = Within (Some meta) ->
  isExcluded excludedWorkspaces (getWorkspacePath disk workspaceId) = false ->
  indexed disk workspaceId = Within sessionIds ->
  sessionIds = [] \/ In sessionId sessionIds ->
  In meta listed.
Proof.
  intros Hall Hread Hexcluded Hindexed Hnamed.
  apply SessionFilesFacts.gather_In in Hall as [Heach Hin].
  pose proof (readSessionMetadata_Some _ _ _ _ Hread)
    as ([found Hfile] & Hws & Hplain & _).
  assert (Hlisted : In workspaceId (listWorkspaceIds disk)).
  { apply listWorkspaceIds_In.
    rewrite SessionFilesFacts.resolveSessionFilePath_plain in Hfile by done.
    destruct (chatSessions disk !! workspaceId); [by eexists | done]. }
  destruct (Heach _ Hlisted) as [metas Hmetas]. apply Hin.
  exists workspaceId, metas. split_and!; [done..|].
  rewrite Hexcluded in Hmetas.
  destruct (getSessionIndex disk workspaceId) as [ids|] eqn:Hids; [|done].
  cbn in Hmetas.
  apply getSessionIndex_Within in Hids as (sessionIds' & Hindexed' & ->).
  assert (sessionIds' = sessionIds) as -> by congruence.
  apply SessionFilesFacts.gather_In in Hmetas as [Hevery Hinner].
  assert (Hid : In sessionId
                  match sessionIds with
                  | [] =>
                      scanChatSessionFiles (chatSessions disk !! workspaceId)
                  | _ => sessionIds
                  end).
  { destruct Hnamed as [->|Hnamed].
    - apply SessionFilesFacts.scan_found; [done..|]. by eexists.
    - by destruct sessionIds. }
  destruct (Hevery _ Hid) as [one Hone]. apply Hinner.
  exists sessionId, one. split_and!; [done..|].
  by apply (pushed_meta disk workspaceId sessionId).
Qed.

(** A session that is read has its file in a workspace that is not
    excluded, and the index is empty or names it. *)
Lemma listed_only_indexed (disk : Disk) (excludedWorkspaces : list string)
    (listed : list SessionMetadata) (meta : SessionMetadata) :
  readAllSessionMetadata disk excludedWorkspaces = Within listed ->
  In meta listed ->
  exists workspaceId sessionId sessionIds,
    readSessionMetadata disk workspaceId sessionId = Within (Some meta)
    /\ isExcluded excludedWorkspaces (getWorkspacePath disk workspaceId)
       = false
    /\ indexed disk workspaceId = Within sessionIds
    /\ (sessionIds = [] \/ In sessionId sessionIds).
Proof.
  intros Hall Hmeta.
  apply SessionFilesFacts.gather_In in Hall as [_ Hin].
  apply Hin in Hmeta as (ws & metas & Hws & Hmetas & Hmeta).
  destruct (isExcluded _ _) eqn:Hexcluded;
    [injection Hmetas as <-; by destruct Hmeta|].
  destruct (getSessionIndex disk ws) as [ids|] eqn:Hids; [|done].
  cbn in Hmetas.
  apply getSessionIndex_Within in Hids as (sessionIds & Hindexed & ->).
  apply SessionFilesFacts.gather_In in Hmetas as [_ Hinner].
  apply Hinner in Hmeta as (id & one & Hid & Hone & Hmeta).
  apply (pushed_meta disk ws id) in Hmeta; [|done].
  exists ws, id, sessionIds. split_and!; [done..|].
  destruct sessionIds; [by left | by right].
Qed.

(** [readAllSessionMetadata] returns a record for a session exactly when its
    file is found in a workspace that is not excluded and the index of that
    workspace's database is empty or names the session: once the index
    names any session, a file it does not name is not read.  This is so
    when every id that is looked up stays in the directory of its
    workspace. *)
Theorem readAllSessionMetadata_lists (disk : Disk)
    (excludedWorkspaces : list string) (listed : list SessionMetadata)
    (meta : SessionMetadata) :
  readAllSessionMetadata disk excludedWorkspaces = Within listed ->
  In meta listed
  <-> exists workspaceId sessionId sessionIds,
        readSessionMetadata disk workspaceId sessionId = Within (Some meta)
        /\ isExcluded excludedWorkspaces (getWorkspacePath disk workspaceId)
           = false
        /\ indexed disk workspaceId = Within sessionIds
        /\ (sessionIds = [] \/ In sessionId sessionIds).
Proof.
  intros Hall. split; [by apply listed_only_indexed|].
  intros (ws & id & sessionIds & Hread & Hexcluded & Hindexed & Hnamed).
  by apply (listed_when_indexed disk excludedWorkspaces listed ws id
              sessionIds).
Qed.

(** On the sample disk the index names [a], so [b], which has a file, is
    not read. *)
Example sample_listing :
  option_map (map md_id)
    match readAllSessionMetadata sampleDisk [] with
    | Within listed => Some listed
    | Beyond => None
    end
  = Some ["a"]
  /\ getSessionIndex sampleDisk "ws-1" = Within ["a"]
  /\ readSessionIndexFromDb (Index (Items [Id "a"; Null])) = Within []
  /\ readSessionIndexFromDb (Index (Items [Id "a"; OtherId])) = Beyond
  /\ readSessionIndexFromDb NullIndex = Within []
  /\ readSessionIndexFromDb (Index (Dict ["7"; "a"])) = Within ["7"; "a"].
Proof. split_and!; vm_compute; reflexivity. Qed.

Lemma readAllSessionMetadata_lists_witness :
  In sampleMeta [sampleMeta]
  <-> exists workspaceId sessionId sessionIds,
        readSessionMetadata sampleDisk workspaceId sessionId
        = Within (Some sampleMeta)
        /\ isExcluded [] (getWorkspacePath sampleDisk workspaceId) = false
        /\ indexed sampleDisk workspaceId = Within sessionIds
        /\ (sessionIds = [] \/ In sessionId sessionIds).
Proof.
  apply (readAllSessionMetadata_lists sampleDisk [] [sampleMeta]
           sampleMeta).
  vm_compute. reflexivity.
Defined.

End SessionIndexFacts.
